(** * Cover similarity search: title normalisation, catalogue search and ranking

    A shallow embedding of the services of the cover gallery
    ([translationService], [isbndbService], [phashService]) and of the scan
    of the dialog ([Modal]), with the properties of the similarity search
    pipeline proved about it.

    Conventions of the embedding.
    - A JavaScript string is the list of its UTF-16 code units.  White
      space ([\s], [trim]) is the set of ECMAScript; the patterns of the
      program hold ASCII characters only, which under the [i] flag match
      their two ASCII cases and nothing else.  [toLowerCase] follows the
      case tables of the engine, which are no part of the program: it is a
      parameter, and the properties that need a fact about it state that
      fact.
    - A JavaScript number is an exact rational ([Q]) or an integer ([Z]).
      For an integer Hamming distance [d] between 0 and 64 the doubles
      [d / 64], [1 - d / 64], [(1 - d / 64) * 100] and that value times 100
      are all dyadic rationals with at most 6 fractional bits, so the double
      arithmetic of the source is exact up to the final division by 100,
      which is monotone and injective on the integers involved.
    - The answer of the catalogue is a JSON document of any shape: the
      embedding keeps the shapes that the program tells apart (a document
      that is [null], a [books] field that is falsy or not an array, an
      element that is [null], a field of any JSON type).
    - An [async] function is a computation in the monad [M]: it reads and
      changes the outside world (network, module cache) and either returns
      or throws.  Console output is not modelled.  The arguments of the
      exported functions have the types of their documentation comments. *)

From Stdlib Require Import List String Ascii Bool Arith NArith ZArith QArith Qround Lia.
From Stdlib Require Import Qcanon Sorted Lqa Permutation DecimalString.
From Stdlib Require Strings.Byte.
Import ListNotations.

Set Implicit Arguments.

(* ===================================================================== *)
(** ** JavaScript strings *)
(* ===================================================================== *)

(** A UTF-16 code unit, and a string: the list of its code units. *)
Definition unit16 : Type := N.
Definition jstring : Type := list unit16.

Module JsString.

Local Open Scope N_scope.

(** *** String literals

    A literal of this file is read as UTF-8 and denotes the string of its
    UTF-16 code units. *)

Inductive literal : Type :=
| lit_nil
| lit_cons (u : unit16) (l : literal).

Fixpoint utf16 (fuel : nat) (bytes : list N) : list unit16 :=
  match fuel with
  | O => []
  | S fuel' =>
      match bytes with
      | [] => []
      | b :: r =>
          if b <? 128 then b :: utf16 fuel' r
          else if b <? 224 then
            match r with
            | c :: r' => (b - 192) * 64 + (c - 128) :: utf16 fuel' r'
            | _ => []
            end
          else if b <? 240 then
            match r with
            | c :: d :: r' =>
                (b - 224) * 4096 + (c - 128) * 64 + (d - 128) :: utf16 fuel' r'
            | _ => []
            end
          else
            match r with
            | c :: d :: e :: r' =>
                let point :=
                  (b - 240) * 262144 + (c - 128) * 4096 + (d - 128) * 64 + (e - 128)
                  - 65536 in
                55296 + point / 1024 :: 56320 + point mod 1024 :: utf16 fuel' r'
            | _ => []
            end
      end
  end.

Definition of_utf8 (bytes : list Byte.byte) : literal :=
  fold_right lit_cons lit_nil
             (utf16 (List.length bytes) (map Byte.to_N bytes)).

Fixpoint ascii_bytes (l : literal) : option (list Byte.byte) :=
  match l with
  | lit_nil => Some []
  | lit_cons u l' =>
      match (if u <? 128 then Byte.of_N u else None), ascii_bytes l' with
      | Some b, Some bs => Some (b :: bs)
      | _, _ => None
      end
  end.

(** The code units of a text of 8-bit characters. *)
Definition of_ascii (s : string) : jstring :=
  map N_of_ascii (list_ascii_of_string s).

(** *** Character classes *)

(** [\s] and the characters removed by [trim]: the white space and the
    line terminators of ECMAScript. *)
Definition is_space (u : unit16) : bool :=
  ((9 <=? u) && (u <=? 13))          (* TAB, LF, VT, FF, CR *)
  || (u =? 32)                       (* SPACE *)
  || (u =? 160)                      (* U+00A0 *)
  || (u =? 5760)                     (* U+1680 *)
  || ((8192 <=? u) && (u <=? 8202))  (* U+2000 .. U+200A *)
  || (u =? 8232) || (u =? 8233)      (* U+2028, U+2029 *)
  || (u =? 8239)                     (* U+202F *)
  || (u =? 8287)                     (* U+205F *)
  || (u =? 12288)                    (* U+3000 *)
  || (u =? 65279).                   (* U+FEFF *)

(** [\d] *)
Definition is_digit (u : unit16) : bool := (48 <=? u) && (u <=? 57).

(** [A-Z] and [a-z] *)
Definition is_upper (u : unit16) : bool := (65 <=? u) && (u <=? 90).
Definition is_lower (u : unit16) : bool := (97 <=? u) && (u <=? 122).

(** [\w] *)
Definition is_word (u : unit16) : bool :=
  is_lower u || is_upper u || is_digit u || (u =? 95).

(** The other case of an ASCII letter. *)
Definition lower (u : unit16) : unit16 := if is_upper u then u + 32 else u.

(** *** Operations *)

(** [a === b] on strings *)
Fixpoint eqb (a b : jstring) : bool :=
  match a, b with
  | [], [] => true
  | x :: a', y :: b' => (x =? y) && eqb a' b'
  | _, _ => false
  end.

Fixpoint drop_space (l : jstring) : jstring :=
  match l with
  | c :: l' => if is_space c then drop_space l' else l
  | [] => []
  end.

(** [s.trim()] *)
Definition trim (s : jstring) : jstring :=
  rev (drop_space (rev (drop_space s))).

(** [s.length] *)
Definition length (s : jstring) : nat := List.length s.

(** Truthiness of a string: the empty string is falsy. *)
Definition truthy (s : jstring) : bool :=
  match s with
  | [] => false
  | _ :: _ => true
  end.

End JsString.

Declare Scope jstring_scope.
Delimit Scope jstring_scope with js.
Bind Scope jstring_scope with jstring.

Set Warnings "-via-type-remapping,-via-type-mismatch".
String Notation jstring JsString.of_utf8 JsString.ascii_bytes
  (via JsString.literal mapping [[nil] => JsString.lit_nil, [cons] => JsString.lit_cons])
  : jstring_scope.
Set Warnings "via-type-remapping,via-type-mismatch".

(* ===================================================================== *)
(** ** Regular expressions with JavaScript's backtracking semantics *)
(* ===================================================================== *)

Module Regex.

Import JsString.
Local Open Scope jstring_scope.

Inductive regex : Type :=
| Eps                          (* the empty pattern *)
| Chr (c : unit16)             (* a literal character *)
| Cls (p : unit16 -> bool)     (* a character class *)
| Seq (r1 r2 : regex)          (* r1r2 *)
| Alt (r1 r2 : regex)          (* r1|r2, left alternative first *)
| Star (r : regex)             (* r*, greedy *)
| WordB                        (* \b *)
| Eos.                         (* $ (no multiline flag) *)

Definition Plus (r : regex) : regex := Seq r (Star r).    (* r+ *)
Definition Opt (r : regex) : regex := Alt r Eps.          (* r? *)

Fixpoint Lit (s : jstring) : regex :=
  match s with
  | [] => Eps
  | [c] => Chr c
  | c :: s' => Seq (Chr c) (Lit s')
  end.

(** A position in the subject: the character just before it, if any, and
    the characters from it on. *)
Definition Pos : Type := (option unit16 * jstring)%type.

Definition word_at (c : option unit16) : bool :=
  match c with Some x => is_word x | None => false end.

Section Matcher.

(** The [i] flag. *)
Variable ignoreCase : bool.

(** A character of a pattern against a character of the subject.  The
    patterns of the program hold ASCII characters only; under the [i]
    flag (without the [u] flag) a character above 127 is never taken for
    an ASCII one. *)
Definition chr_eq (a b : unit16) : bool :=
  if ignoreCase then N.eqb (lower a) (lower b) else N.eqb a b.

(** [rmatch r prev s k] matches [r] at the position [(prev, s)] and hands
    the position after the match to the continuation [k]; when [k]
    fails, the next choice of [r] is tried, in the order of the
    ECMAScript matcher: left alternative first, longest repetition
    first, and an iteration of a repetition that consumes nothing is
    rejected. *)
Fixpoint rmatch (r : regex) (prev : option unit16) (s : jstring)
         (k : option unit16 -> jstring -> option Pos) {struct r} : option Pos :=
  match r with
  | Eps => k prev s
  | Chr c =>
      match s with
      | x :: s' => if chr_eq c x then k (Some x) s' else None
      | [] => None
      end
  | Cls p =>
      match s with
      | x :: s' => if p x then k (Some x) s' else None
      | [] => None
      end
  | Seq r1 r2 => rmatch r1 prev s (fun p' s' => rmatch r2 p' s' k)
  | Alt r1 r2 =>
      match rmatch r1 prev s k with
      | Some e => Some e
      | None => rmatch r2 prev s k
      end
  | Star r' =>
      (fix iterate (n : nat) (prev : option unit16) (s : jstring) {struct n}
         : option Pos :=
         match n with
         | O => k prev s
         | S n' =>
             match rmatch r' prev s
                     (fun p' s' =>
                        if (List.length s' <? List.length s)%nat
                        then iterate n' p' s' else None) with
             | Some e => Some e
             | None => k prev s
             end
         end) (List.length s) prev s
  | WordB =>
      if xorb (word_at prev) (word_at (hd_error s)) then k prev s else None
  | Eos =>
      match s with
      | [] => k prev s
      | _ :: _ => None
      end
  end.

(** The match of [r] that starts exactly at the position, if any. *)
Definition match_here (r : regex) (prev : option unit16) (s : jstring)
  : option Pos :=
  rmatch r prev s (fun p' s' => Some (p', s')).

(** [subject.replace(/r/, rep)]: the leftmost match only. *)
Fixpoint replace_first_from (r : regex) (rep : jstring)
         (prev : option unit16) (s : jstring) : jstring :=
  match match_here r prev s with
  | Some (_, rest) => rep ++ rest
  | None =>
      match s with
      | [] => []
      | c :: s' => c :: replace_first_from r rep (Some c) s'
      end
  end.

(** [subject.replace(/r/g, rep)]: every match, left to right; after an
    empty match the scan moves on by one character.  [n] bounds the
    number of scan steps and is at least the length of [s] plus one. *)
Fixpoint replace_all_from (n : nat) (r : regex) (rep : jstring)
         (prev : option unit16) (s : jstring) : jstring :=
  match n with
  | O => s
  | S n' =>
      let step :=
        match s with
        | [] => []
        | c :: s' => c :: replace_all_from n' r rep (Some c) s'
        end in
      match match_here r prev s with
      | Some (p', rest) =>
          if (List.length rest <? List.length s)%nat
          then rep ++ replace_all_from n' r rep p' rest
          else rep ++ step
      | None => step
      end
  end.

End Matcher.

Definition replace (r : regex) (ignoreCase : bool) (rep s : jstring) : jstring :=
  replace_first_from ignoreCase r rep None s.

Definition replaceAll (r : regex) (ignoreCase : bool) (rep s : jstring) : jstring :=
  replace_all_from ignoreCase (S (List.length s)) r rep None s.

End Regex.

(* ===================================================================== *)
(** ** Values thrown by the services *)
(* ===================================================================== *)

Inductive Exn : Type :=
| TypeError (message : jstring)
    (* a call of a method that the value has not, a property read on [null] *)
| ConfigurationError
    (* [Error('ISBNDB API key not configured. ...')] *)
| ApiError (status : Z) (statusText : jstring)
    (* [Error(`ISBNDB API error: ${status} ${statusText}`)] *)
| ImageFetchError (statusText : jstring)
    (* [Error(`Failed to fetch image: ${statusText}`)] *)
| Rejected (reason : jstring)
    (* a promise rejected by the platform: network failure, unreadable
       body, failed module import, undecodable image *)
| OtherError (message : jstring).
    (* any other error, such as one thrown by a callback of the caller *)

(* ===================================================================== *)
(** ** translationService: title normalisation and variations *)
(* ===================================================================== *)

Module Translation.

Import JsString Regex.
Local Open Scope jstring_scope.

Definition one_of (cs : list unit16) (c : unit16) : bool :=
  existsb (N.eqb c) cs.

(** [_] and [-] *)
Definition underscore : unit16 := 95%N.
Definition hyphen : unit16 := 45%N.

(** [/[_-]/g] and [/[-_]/g] *)
Definition re_separator : regex := Cls (one_of [underscore; hyphen]).

(** [/\s+/g] *)
Definition re_spaces : regex := Plus (Cls is_space).

(** [/\.(jpg|jpeg|png|svg|webp|gif)$/i] *)
Definition re_extension : regex :=
  Seq (Lit ".")
      (Seq (Alt (Lit "jpg") (Alt (Lit "jpeg") (Alt (Lit "png")
             (Alt (Lit "svg") (Alt (Lit "webp") (Lit "gif"))))))
           Eos).

(** [/\s*-?\s*copy\s*(\(\d+\)|\d+)?/gi] *)
Definition re_copy : regex :=
  Seq (Star (Cls is_space))
      (Seq (Opt (Lit "-"))
           (Seq (Star (Cls is_space))
                (Seq (Lit "copy")
                     (Seq (Star (Cls is_space))
                          (Opt (Alt (Seq (Lit "(") (Seq (Plus (Cls is_digit)) (Lit ")")))
                                    (Plus (Cls is_digit)))))))).

(** [extractBookTitle(filename)] *)
Definition extractBookTitle (filename : jstring) : jstring :=
  trim (replaceAll re_spaces false " "
          (replaceAll re_copy true ""
             (replaceAll re_separator false " "
                (replace re_extension true "" filename)))).

(** *** The translation table

    [COMMON_TRANSLATIONS] is an object literal: besides its own two keys,
    a property read finds the properties inherited from
    [Object.prototype], whose values are truthy and have no [forEach]. *)

Definition COMMON_TRANSLATIONS : list (jstring * list jstring) :=
  [ ("harry potter",
     ["harry potter"; "гарри поттер"; "ハリー・ポッター"; "哈利·波特"]);
    ("lord of the rings",
     ["lord of the rings"; "señor de los anillos"; "властелин колец"]) ].

Definition Object_prototype_keys : list jstring :=
  [ "constructor"; "hasOwnProperty"; "isPrototypeOf"; "propertyIsEnumerable";
    "toLocaleString"; "toString"; "valueOf"; "__proto__";
    "__defineGetter__"; "__defineSetter__"; "__lookupGetter__";
    "__lookupSetter__" ].

Inductive Property : Type :=
| Own (translations : list jstring)
| Inherited
| Missing.

Fixpoint own_property (key : jstring) (table : list (jstring * list jstring))
  : option (list jstring) :=
  match table with
  | [] => None
  | (k, v) :: table' => if eqb key k then Some v else own_property key table'
  end.

(** [COMMON_TRANSLATIONS[key]] *)
Definition get_translations (key : jstring) : Property :=
  match own_property key COMMON_TRANSLATIONS with
  | Some v => Own v
  | None =>
      if existsb (eqb key) Object_prototype_keys then Inherited else Missing
  end.

(** *** A [Set] of strings: insertion order, no duplicates *)

Definition has (s : list jstring) (x : jstring) : bool := existsb (eqb x) s.

Definition add (s : list jstring) (x : jstring) : list jstring :=
  if has s x then s else s ++ [x].

(** [new Set(items)] *)
Definition new_Set (items : list jstring) : list jstring := fold_left add items [].

(** [/\b(the|a|an|copy|book|novel)\b/gi] *)
Definition re_common : regex :=
  Seq WordB
      (Seq (Alt (Lit "the") (Alt (Lit "a") (Alt (Lit "an")
             (Alt (Lit "copy") (Alt (Lit "book") (Lit "novel"))))))
           WordB).

(** [/\bone\b/g], [/\btwo\b/g], [/\bthree\b/g] *)
Definition re_word (w : jstring) : regex := Seq WordB (Seq (Lit w) WordB).

Section Engine.

(** [String.prototype.toLowerCase] of the engine. *)
Variable toLowerCase : jstring -> jstring.

(** [title.toLowerCase().replace(/[_-]/g, ' ').replace(/\s+/g, ' ').trim()] *)
Definition normalizeTitle (title : jstring) : jstring :=
  trim (replaceAll re_spaces false " "
          (replaceAll re_separator false " " (toLowerCase title))).

(** [getTitleVariations(title)] *)
Definition getTitleVariations (title : jstring) : Exn + list jstring :=
  let normalized := normalizeTitle title in
  let variations := new_Set [normalized; title] in
  let lowerTitle := toLowerCase normalized in
  let translated :=
    match get_translations lowerTitle with
    | Own translations => inr (fold_left add translations variations)
    | Inherited =>
        inl (TypeError "COMMON_TRANSLATIONS[lowerTitle].forEach is not a function")
    | Missing => inr variations
    end in
  match translated with
  | inl e => inl e
  | inr variations =>
      let withoutCommon :=
        trim (replaceAll re_spaces false " "
                (replaceAll re_common true "" normalized)) in
      let variations :=
        if truthy withoutCommon && negb (eqb withoutCommon normalized)
        then add variations withoutCommon else variations in
      let withNumbers :=
        replaceAll (re_word "three") false "3"
          (replaceAll (re_word "two") false "2"
             (replaceAll (re_word "one") false "1" normalized)) in
      let variations :=
        if negb (eqb withNumbers normalized)
        then add variations withNumbers else variations in
      inr (filter (fun v => (0 <? length v)%nat) variations)
  end.

End Engine.

End Translation.

(* ===================================================================== *)
(** ** Asynchronous computations *)
(* ===================================================================== *)

Module Async.

Section Monad.

(** The state of everything outside the program. *)
Variable World : Type.

(** An [async] function body: it runs in a world, changes it, and
    either throws ([inl]) or returns ([inr]). *)
Definition M (A : Type) : Type := World -> (Exn + A) * World.

Definition ret {A} (a : A) : M A := fun w => (inr a, w).

Definition throw {A} (e : Exn) : M A := fun w => (inl e, w).

Definition bind {A B} (c : M A) (f : A -> M B) : M B :=
  fun w =>
    match c w with
    | (inr a, w') => f a w'
    | (inl e, w') => (inl e, w')
    end.

(** [try { c } catch (error) { handler(error) }] *)
Definition try_catch {A} (c : M A) (handler : Exn -> M A) : M A :=
  fun w =>
    match c w with
    | (inr a, w') => (inr a, w')
    | (inl e, w') => handler e w'
    end.

(** A synchronous call that may throw. *)
Definition lift {A} (r : Exn + A) : M A := fun w => (r, w).

(** A platform promise: rejected with a reason, or fulfilled. *)
Definition await {A} (p : World -> (jstring + A) * World) : M A :=
  fun w =>
    match p w with
    | (inr a, w') => (inr a, w')
    | (inl reason, w') => (inl (Rejected reason), w')
    end.

End Monad.

Arguments ret {World A} a.
Arguments throw {World A} e.
Arguments bind {World A B} c f.
Arguments try_catch {World A} c handler.
Arguments lift {World A} r.
Arguments await {World A} p.

Declare Scope async_scope.
Delimit Scope async_scope with async.

Notation "x <- c ;; k" := (bind c (fun x => k))
  (at level 61, c at next level, right associativity) : async_scope.
Notation "' pat <- c ;; k" := (bind c (fun x => match x with pat => k end))
  (at level 61, pat pattern, c at next level, right associativity) : async_scope.

End Async.

(* ===================================================================== *)
(** ** Catalogue records and results *)
(* ===================================================================== *)

(** A field of a JSON record: absent, or a JSON value.  An object or an
    array is known by its identity only; the program never looks inside
    one. *)
Inductive JsVal : Type :=
| undefined
| null
| JBool (b : bool)
| JNumber (x : Qc)
| JString (s : jstring)
| JObject (ref : N).

(** SameValueZero, the equality of [Set.prototype.has]. *)
Definition JsVal_eqb (a b : JsVal) : bool :=
  match a, b with
  | undefined, undefined => true
  | null, null => true
  | JBool x, JBool y => Bool.eqb x y
  | JNumber x, JNumber y => Qeq_bool x y
  | JString x, JString y => JsString.eqb x y
  | JObject x, JObject y => N.eqb x y
  | _, _ => false
  end.

Definition JsVal_truthy (v : JsVal) : bool :=
  match v with
  | undefined | null => false
  | JBool b => b
  | JNumber x => negb (Qeq_bool x 0)
  | JString s => JsString.truthy s
  | JObject _ => true
  end.

(** [a || b] *)
Definition js_or (a b : JsVal) : JsVal := if JsVal_truthy a then a else b.

(** A record of the [books] array of the catalogue's answer, by the
    fields that the program reads. *)
Record Book : Type := {
  title : JsVal;
  authors : JsVal;
  isbn13 : JsVal;
  isbn : JsVal;
  publisher : JsVal;
  image : JsVal;
  date_published : JsVal
}.

(** The [books] field of an answer, when it is truthy: an array, whose
    elements are records or [null] ([None]), or a value that is not an
    array. *)
Inductive Books : Type :=
| array (items : list (option Book))
| not_an_array.

(** The JSON document of an answer: [null], or a value whose [books]
    field, if truthy, is [Some books]. *)
Inductive Document : Type :=
| null_document
| document (books : option Books).

(** [book.authors || []] *)
Inductive Authors : Type :=
| authors_of (v : JsVal)
| no_authors.

(** The [book] object of a comparison. *)
Record MatchedBook : Type := {
  mb_title : JsVal;
  mb_authors : Authors;
  mb_isbn : JsVal;
  mb_publisher : JsVal;
  mb_image : JsVal;
  mb_publishDate : JsVal
}.

(** An element of [comparisons]. *)
Record Comparison : Type := {
  book : MatchedBook;
  similarity : Q;
  hashHex : jstring;
  hammingDistance : Z;
  matchedByTitle : bool
}.

(** The object returned by [findSimilarCovers]. *)
Record SearchResult : Type := {
  targetHash : jstring;
  results : list Comparison;
  totalCompared : Z;
  searchMethod : jstring;
  searchQuery : jstring
}.

(** A response of [fetch]: [ok], [status], [statusText] and the outcome of
    reading the body ([inl]: the read is rejected). *)
Record Response (Body : Type) : Type := {
  ok : bool;
  status : Z;
  statusText : jstring;
  body : jstring + Body
}.

(* ===================================================================== *)
(** ** Numbers and arrays *)
(* ===================================================================== *)

Module JsNumber.

Local Open Scope Q_scope.

(** [Math.round(x)]: the nearest integer, halves towards plus infinity. *)
Definition Math_round (x : Q) : Q := inject_Z (Qfloor (x + (1 # 2))).

(** [x >= y] *)
Definition ge (x y : Q) : bool := Qle_bool y x.

(** [x < 0] *)
Definition negative (x : Q) : bool := negb (Qle_bool 0 x).

End JsNumber.

Module JsArray.

Section Sort.

Variable A : Type.

(** The comparator: a negative value puts its first argument first. *)
Variable compareFn : A -> A -> Q.

(** Insertion of [x] in front of a sorted array of elements that came
    after it: [x] passes the elements that must come strictly first. *)
Fixpoint insert (x : A) (l : list A) : list A :=
  match l with
  | [] => [x]
  | y :: l' =>
      if JsNumber.negative (compareFn y x) then y :: insert x l'
      else x :: l
  end.

(** [array.sort(compareFn)]: the stable sort of ECMAScript 2019. *)
Fixpoint sort (l : list A) : list A :=
  match l with
  | [] => []
  | x :: l' => insert x (sort l')
  end.

End Sort.

(** [array.slice(0, end)] for an integer [end]: a negative [end] counts
    from the end of the array. *)
Definition slice0 {A} (l : list A) (end_ : Z) : list A :=
  let len := Z.of_nat (List.length l) in
  let final := if (end_ <? 0)%Z then Z.max (len + end_) 0 else Z.min end_ len in
  firstn (Z.to_nat final) l.

End JsArray.

(* ===================================================================== *)
(** ** isbndbService and phashService *)
(* ===================================================================== *)

Module Isbndb.

Import Async Translation.
Local Open Scope async_scope.
Local Open Scope jstring_scope.
Local Open Scope list_scope.

(** [book.image && book.image.trim() !== ''] for a record [book]: a
    truthy image that is not a string has no [trim]. *)
Definition has_cover (b : Book) : Exn + bool :=
  match image b with
  | JString s => inr (JsString.truthy s && negb (JsString.eqb (JsString.trim s) ""))
  | v => if JsVal_truthy v
         then inl (TypeError "book.image.trim is not a function")
         else inr false
  end.

(** The callback of [books.filter] in [getBooksWithCovers], on an element
    of the array. *)
Definition with_cover (item : option Book) : Exn + bool :=
  match item with
  | None => inl (TypeError "Cannot read properties of null (reading 'image')")
  | Some b => has_cover b
  end.

(** [items.filter(book => book.image && book.image.trim() !== '')] *)
Fixpoint filter_covers (items : list (option Book)) : Exn + list Book :=
  match items with
  | [] => inr []
  | item :: rest =>
      match with_cover item with
      | inl e => inl e
      | inr keep =>
          match filter_covers rest with
          | inl e => inl e
          | inr kept =>
              inr (match item with
                   | Some b => if keep then b :: kept else kept
                   | None => kept
                   end)
          end
      end
  end.

(** [seenIsbns.has(isbn)] *)
Definition seen_has (seen : list JsVal) (v : JsVal) : bool :=
  existsb (JsVal_eqb v) seen.

(** The body of [books.forEach] in [searchBooksByTitle], on the pair
    [(allBooks, seenIsbns)]. *)
Definition visit (st : list Book * list JsVal) (item : option Book)
  : Exn + (list Book * list JsVal) :=
  match item with
  | None => inl (TypeError "Cannot read properties of null (reading 'isbn13')")
  | Some b =>
      let (allBooks, seenIsbns) := st in
      let isbn := js_or (isbn13 b) (isbn b) in
      match has_cover b with
      | inl e => inl e
      | inr cover =>
          inr (if cover && negb (seen_has seenIsbns isbn)
               then (allBooks ++ [b], seenIsbns ++ [isbn])
               else st)
      end
  end.

(** [items.forEach(...)]: what the loop throws, if it does, and
    [(allBooks, seenIsbns)] as the loop leaves them. *)
Fixpoint forEach (items : list (option Book)) (st : list Book * list JsVal)
  : option Exn * (list Book * list JsVal) :=
  match items with
  | [] => (None, st)
  | item :: rest =>
      match visit st item with
      | inl e => (Some e, st)
      | inr st' => forEach rest st'
      end
  end.

(** [similarity = (1.0 - (hammingDistance / maxDistance)) * 100.0] with
    [maxDistance = 8 * 8]. *)
Definition maxDistance : Z := 8 * 8.

Definition similarityOf (hammingDistance : Z) : Q :=
  (1 - (inject_Z hammingDistance / inject_Z maxDistance)) * 100.

(** [Math.round(similarity * 100) / 100] *)
Definition rounded (similarity : Q) : Q :=
  JsNumber.Math_round (similarity * 100) / 100.

(** [(a, b) => b.similarity - a.similarity] *)
Definition bySimilarity (a b : Comparison) : Q := similarity b - similarity a.

Definition default {A} (d : A) (o : option A) : A :=
  match o with Some a => a | None => d end.

Section Services.

Variable World : Type.

(** [String.prototype.toLowerCase] of the engine. *)
Variable toLowerCase : jstring -> jstring.

(** The perceptual hash of the WASM module: its values, [toHex] and
    [hammingDistance]; the constructor throws on bytes it cannot
    decode. *)
Variable ImageHash : Type.
Variable Bytes : Type.
Variable new_ImageHash : Bytes -> jstring + ImageHash.
Variable toHex : ImageHash -> jstring.
Variable hash_hammingDistance : ImageHash -> ImageHash -> Z.

(** [import.meta.env.VITE_ISBNDB_API_KEY || ''] *)
Variable ISBNDB_API_KEY : jstring.

(** The platform: the import and one-time initialisation of the WASM
    module, and [fetch] of an image (for the value given as its address)
    and of a catalogue page (query, page, page size). *)
Variable import_wasm : World -> (jstring + unit) * World.
Variable fetch_image : JsVal -> World -> (jstring + Response Bytes) * World.
Variable fetch_books :
  jstring -> Z -> Z -> World -> (jstring + Response Document) * World.

(** *** phashService *)

(** [initPhash()]: a failed import is logged and thrown again. *)
Definition initPhash : M World unit :=
  try_catch (await import_wasm) (fun error => throw error).

(** [fetchImageBytes(imageUrl)] *)
Definition fetchImageBytes (imageUrl : JsVal) : M World Bytes :=
  response <- await (fetch_image imageUrl) ;;
  if negb (ok response)
  then throw (ImageFetchError (statusText response))
  else await (fun w => (body response, w)).

(** [calculateHash(imageUrl)] *)
Definition calculateHash (imageUrl : JsVal) : M World ImageHash :=
  _ <- initPhash ;;
  imageBytes <- fetchImageBytes imageUrl ;;
  await (fun w => (new_ImageHash imageBytes, w)).

(** *** isbndbService *)

(** [searchBooks(query, page, pageSize)]: [data.books || []]. *)
Definition searchBooks (query : jstring) (page pageSize : Z) : M World Books :=
  if negb (JsString.truthy ISBNDB_API_KEY) then throw ConfigurationError
  else
    try_catch
      (response <- await (fetch_books query page pageSize) ;;
       if negb (ok response)
       then throw (ApiError (status response) (statusText response))
       else
         data <- await (fun w => (body response, w)) ;;
         match data with
         | null_document =>
             throw (TypeError "Cannot read properties of null (reading 'books')")
         | document books => ret (default (array []) books)
         end)
      (fun error => throw error).

(** [getBooksWithCovers(query, maxResults)] *)
Definition getBooksWithCovers (query : jstring) (maxResults : Z) : M World (list Book) :=
  books <- searchBooks query 1 maxResults ;;
  match books with
  | array items => lift (filter_covers items)
  | not_an_array => throw (TypeError "books.filter is not a function")
  end.

(** The [try] block of one title variation, on [(allBooks, seenIsbns)]:
    what it throws, if it does, and the pair as the block leaves it. *)
Definition searchVariation (variation : jstring) (maxResultsPerQuery : Z)
           (st : list Book * list JsVal)
  : World -> (option Exn * (list Book * list JsVal)) * World :=
  fun w =>
    match searchBooks variation 1 maxResultsPerQuery w with
    | (inl error, w') => ((Some error, st), w')
    | (inr (array items), w') => (forEach items st, w')
    | (inr not_an_array, w') =>
        ((Some (TypeError "books.forEach is not a function"), st), w')
    end.

(** The loop over the title variations: the [catch] logs what a block
    throws and the loop goes on. *)
Fixpoint searchVariations (titleVariations : list jstring) (maxResultsPerQuery : Z)
         (st : list Book * list JsVal) : M World (list Book * list JsVal) :=
  match titleVariations with
  | [] => ret st
  | variation :: rest =>
      fun w =>
        let (outcome, w') := searchVariation variation maxResultsPerQuery st w in
        searchVariations rest maxResultsPerQuery (snd outcome) w'
  end.

(** [searchBooksByTitle(title, maxResultsPerQuery)] *)
Definition searchBooksByTitle (title : jstring) (maxResultsPerQuery : Z)
  : M World (list Book) :=
  titleVariations <- lift (getTitleVariations toLowerCase title) ;;
  st <- searchVariations titleVariations maxResultsPerQuery ([], []) ;;
  ret (fst st).

(** The [options] argument of [findSimilarCovers]; [None] is a property
    left out, which takes its default.  The progress callback acts on the
    world and returns or throws. *)
Record Options : Type := {
  imageName : option jstring;
  query : option jstring;
  maxResults : option Z;
  similarityThreshold : option Q;
  topN : option Z;
  onProgress : option (Z -> Z -> JsVal -> M World unit)
}.

(** Step 1 of [findSimilarCovers]: the title-based search.  Returns
    [books] and [searchMethod] as they stand before step 2. *)
Definition titleSearch (imageName : jstring) : M World (list Book * jstring) :=
  if JsString.truthy imageName then
    let extractedTitle := extractBookTitle imageName in
    if JsString.truthy extractedTitle && (2 <? JsString.length extractedTitle)%nat
    then
      try_catch
        (books <- searchBooksByTitle extractedTitle 20 ;;
         ret (books, "title-based"))
        (fun error => ret ([], "generic-fallback"))
    else ret ([], "generic")
  else ret ([], "generic").

(** Step 2: the generic search, when step 1 left [books] empty. *)
Definition genericSearch (query : jstring) (maxResults : Z)
           (found : list Book * jstring) : M World (list Book * jstring) :=
  let (books, searchMethod) := found in
  if (List.length books =? 0)%nat then
    books <- getBooksWithCovers query maxResults ;;
    ret (books, if (0 <? List.length books)%nat then "generic" else "none")
  else ret (books, searchMethod).

(** The body of the [try] of step 3 for one book. *)
Definition compareBook (targetHash : ImageHash) (similarityThreshold : Q)
           (searchMethod : jstring) (b : Book) (comparisons : list Comparison)
  : M World (list Comparison) :=
  bookHash <- calculateHash (image b) ;;
  let bookHashHex := toHex bookHash in
  let hammingDistance := hash_hammingDistance targetHash bookHash in
  let similarity := similarityOf hammingDistance in
  if JsNumber.ge similarity similarityThreshold
  then ret (comparisons ++
            [ {| book := {| mb_title := title b;
                            mb_authors := if JsVal_truthy (authors b)
                                          then authors_of (authors b)
                                          else no_authors;
                            mb_isbn := js_or (isbn13 b) (isbn b);
                            mb_publisher := publisher b;
                            mb_image := image b;
                            mb_publishDate := date_published b |};
                 similarity := rounded similarity;
                 hashHex := bookHashHex;
                 hammingDistance := hammingDistance;
                 matchedByTitle := JsString.eqb searchMethod "title-based" |} ])
  else ret comparisons.

(** Step 3: the loop [for (let i = 0; i < books.length; i++)] from index
    [i] on; [total] is [books.length].  The progress callback is called
    outside the [try]. *)
Fixpoint compareBooks (targetHash : ImageHash) (similarityThreshold : Q)
         (searchMethod : jstring) (onProgress : option (Z -> Z -> JsVal -> M World unit))
         (i total : Z) (books : list Book) (comparisons : list Comparison)
  : M World (list Comparison) :=
  match books with
  | [] => ret comparisons
  | b :: rest =>
      _ <- (match onProgress with
            | Some callback => callback (i + 1)%Z total (title b)
            | None => ret tt
            end) ;;
      comparisons' <- try_catch
                        (compareBook targetHash similarityThreshold searchMethod
                                     b comparisons)
                        (fun error => ret comparisons) ;;
      compareBooks targetHash similarityThreshold searchMethod onProgress
                   (i + 1)%Z total rest comparisons'
  end.

(** [findSimilarCovers(targetImageUrl, options)] *)
Definition findSimilarCovers (targetImageUrl : jstring) (options : Options)
  : M World SearchResult :=
  let imageName := default "" (imageName options) in
  let query := default "fiction" (query options) in
  let maxResults := default 50%Z (maxResults options) in
  let similarityThreshold := default 70%Q (similarityThreshold options) in
  let topN := default 10%Z (topN options) in
  let onProgress := onProgress options in
  targetHash <- calculateHash (JString targetImageUrl) ;;
  let targetHashHex := toHex targetHash in
  found <- titleSearch imageName ;;
  found <- genericSearch query maxResults found ;;
  let (books, searchMethod) := found in
  let searchQuery := if JsString.truthy imageName then imageName else query in
  if (List.length books =? 0)%nat then
    ret {| targetHash := targetHashHex;
           results := [];
           totalCompared := 0;
           searchMethod := "none";
           searchQuery := searchQuery |}
  else
    comparisons <- compareBooks targetHash similarityThreshold searchMethod
                                onProgress 0 (Z.of_nat (List.length books)) books [] ;;
    let sortedResults :=
      JsArray.slice0 (JsArray.sort bySimilarity comparisons) topN in
    ret {| targetHash := targetHashHex;
           results := sortedResults;
           totalCompared := Z.of_nat (List.length books);
           searchMethod := searchMethod;
           searchQuery := searchQuery |}.

End Services.

End Isbndb.

(* ===================================================================== *)
(** ** Notions used to state the properties *)
(* ===================================================================== *)

Module Notions.

Import Async Isbndb.
Local Open Scope jstring_scope.
Local Open Scope list_scope.

(** Highest stored similarity first. *)
Definition descending (a b : Comparison) : Prop := (similarity b <= similarity a)%Q.

(** [y] is [x] rounded to two decimal places, halves going up: a whole
    number of hundredths with [x] in the half-open interval of width one
    hundredth around it. *)
Definition rounds_to_2dp (x y : Q) : Prop :=
  (exists n : Z, y == inject_Z n / 100)%Q /\
  (y - (1 # 200) <= x)%Q /\ (x < y + (1 # 200))%Q.

(** [s'] is what is left of [s] after some characters. *)
Definition Suffix (s' s : jstring) : Prop := exists pre, s = pre ++ s'.

(** A character that is neither an upper-case ASCII letter nor an
    underscore. *)
Definition plain (c : unit16) : bool :=
  negb (JsString.is_upper c) && negb (N.eqb c Translation.underscore).

(** What the properties of the title functions need to know of
    [toLowerCase]: its result holds no upper-case ASCII letter, and an
    underscore only where the text had one. *)
Definition lowering (toLowerCase : jstring -> jstring) : Prop :=
  forall s,
    Forall (fun c => JsString.is_upper c = false) (toLowerCase s) /\
    (In Translation.underscore (toLowerCase s) -> In Translation.underscore s).

(** The deduplication key of a book: [book.isbn13 || book.isbn]. *)
Definition identifier (b : Book) : JsVal := js_or (isbn13 b) (isbn b).

Definition has_identifier (k : JsVal) (b : Book) : bool := JsVal_eqb (identifier b) k.

(** A record with a usable cover image. *)
Definition covered (b : Book) : bool :=
  match has_cover b with
  | inr cover => cover
  | inl _ => false
  end.

(** What the callback of [forEach] does with a record on which it does
    not throw: the record is kept when it has a cover and its identifier
    was not seen. *)
Definition keep (st : list Book * list JsVal) (b : Book) : list Book * list JsVal :=
  let (allBooks, seenIsbns) := st in
  if covered b && negb (seen_has seenIsbns (identifier b))
  then (allBooks ++ [b], seenIsbns ++ [identifier b])
  else st.

(** The records that [forEach] visits: the elements of the array up to
    the first one on which the callback throws. *)
Fixpoint visited (items : list (option Book)) : list Book :=
  match items with
  | Some b :: rest =>
      match has_cover b with
      | inr _ => b :: visited rest
      | inl _ => []
      end
  | _ => []
  end.

(** [l1] is [l2] with some elements left out, the order kept. *)
Inductive Subseq {A : Type} : list A -> list A -> Prop :=
| Subseq_nil : Subseq [] []
| Subseq_keep x l1 l2 : Subseq l1 l2 -> Subseq (x :: l1) (x :: l2)
| Subseq_drop x l1 l2 : Subseq l1 l2 -> Subseq l1 (x :: l2).

Section Platform.

Variable World : Type.
Variable ImageHash : Type.
Variable Bytes : Type.
Variable new_ImageHash : Bytes -> jstring + ImageHash.
Variable toHex : ImageHash -> jstring.
Variable hash_hammingDistance : ImageHash -> ImageHash -> Z.
Variable ISBNDB_API_KEY : jstring.
Variable import_wasm : World -> (jstring + unit) * World.
Variable fetch_image : JsVal -> World -> (jstring + Response Bytes) * World.
Variable fetch_books :
  jstring -> Z -> Z -> World -> (jstring + Response Document) * World.

(** The progress notification of the comparison loop. *)
Definition notify (onProgress : option (Z -> Z -> JsVal -> M World unit))
           (i total : Z) (b : Book) : M World unit :=
  match onProgress with
  | Some callback => callback (i + 1)%Z total (title b)
  | None => ret tt
  end.

(** A progress callback that always returns. *)
Definition returns (onProgress : option (Z -> Z -> JsVal -> M World unit)) : Prop :=
  forall callback, onProgress = Some callback ->
                   forall i total t w, exists w', callback i total t w = (inr tt, w').

(** A comparison pushed by [compareBook] for the threshold and the search
    method of the invocation. *)
Definition pushed (threshold : Q) (method : jstring) (c : Comparison) : Prop :=
  similarity c = rounded (similarityOf (hammingDistance c)) /\
  (threshold <= similarityOf (hammingDistance c))%Q /\
  matchedByTitle c = JsString.eqb method "title-based".

(** The options of an invocation, with the defaults of the destructuring. *)
Definition imageName_of (o : Options World) : jstring := default "" (imageName o).
Definition query_of (o : Options World) : jstring := default "fiction" (query o).
Definition maxResults_of (o : Options World) : Z := default 50%Z (maxResults o).
Definition threshold_of (o : Options World) : Q := default 70%Q (similarityThreshold o).
Definition topN_of (o : Options World) : Z := default 10%Z (topN o).

(** The books discovered by the title-based search, in the order of
    discovery: the records visited in the answers of the variations whose
    search succeeded. *)
Fixpoint discovered (titleVariations : list jstring) (maxResultsPerQuery : Z)
         (w : World) : list Book :=
  match titleVariations with
  | [] => []
  | variation :: rest =>
      match searchBooks ISBNDB_API_KEY fetch_books variation 1 maxResultsPerQuery w with
      | (inr (array items), w') => visited items ++ discovered rest maxResultsPerQuery w'
      | (_, w') => discovered rest maxResultsPerQuery w'
      end
  end.

(** The number of candidates of the comparison loop whose cover hash was
    computed, so that a Hamming distance to the target was taken. *)
Fixpoint comparedCount (onProgress : option (Z -> Z -> JsVal -> M World unit))
         (i total : Z) (books : list Book) (w : World) : Z :=
  match books with
  | [] => 0
  | b :: rest =>
      match notify onProgress i total b w with
      | (inl _, _) => 0
      | (inr _, w0) =>
          match calculateHash new_ImageHash import_wasm fetch_image (image b) w0 with
          | (inr _, w') => 1 + comparedCount onProgress (i + 1) total rest w'
          | (inl _, w') => comparedCount onProgress (i + 1) total rest w'
          end
      end
  end.

(** The candidates of the comparison loop whose cover hash was computed,
    each with that hash, in the order of the loop. *)
Fixpoint hashed (onProgress : option (Z -> Z -> JsVal -> M World unit))
         (i total : Z) (books : list Book) (w : World) : list (Book * ImageHash) :=
  match books with
  | [] => []
  | b :: rest =>
      match notify onProgress i total b w with
      | (inl _, _) => []
      | (inr _, w0) =>
          match calculateHash new_ImageHash import_wasm fetch_image (image b) w0 with
          | (inr bookHash, w') => (b, bookHash) :: hashed onProgress (i + 1) total rest w'
          | (inl _, w') => hashed onProgress (i + 1) total rest w'
          end
      end
  end.

(** The Hamming distance of a hashed candidate to the target, and its
    similarity to the target before rounding, in percent. *)
Definition distance (targetHash : ImageHash) (candidate : Book * ImageHash) : Z :=
  hash_hammingDistance targetHash (snd candidate).

Definition percent (targetHash : ImageHash) (candidate : Book * ImageHash) : Q :=
  ((1 - inject_Z (distance targetHash candidate) / 64) * 100)%Q.

(** A hashed candidate that reaches the threshold. *)
Definition qualifies (targetHash : ImageHash) (threshold : Q)
           (candidate : Book * ImageHash) : bool :=
  Qle_bool threshold (percent targetHash candidate).

(** The comparison [c] is the one of the hashed candidate: its book, its
    hash and its distance to the target. *)
Definition compares (targetHash : ImageHash) (candidate : Book * ImageHash)
           (c : Comparison) : Prop :=
  mb_title (book c) = title (fst candidate) /\
  mb_isbn (book c) = identifier (fst candidate) /\
  mb_image (book c) = image (fst candidate) /\
  hashHex c = toHex (snd candidate) /\
  hammingDistance c = distance targetHash candidate.

End Platform.

End Notions.

(* ===================================================================== *)
(** ** A scripted platform, for running the services on concrete inputs *)
(* ===================================================================== *)

Module Scenario.

Import Isbndb.
Local Open Scope jstring_scope.
Local Open Scope Z_scope.

(** The world counts the platform requests made so far. *)
Definition World : Type := nat.

(** [toLowerCase] on the letters of Basic Latin and Latin-1 Supplement,
    which is all that the scripted texts hold. *)
Definition lowerLatin (u : unit16) : unit16 :=
  if JsString.is_upper u then (u + 32)%N
  else if ((192 <=? u) && (u <=? 222) && negb (u =? 215))%N then (u + 32)%N
  else u.

Definition toLowerCase (s : jstring) : jstring := map lowerLatin s.

(** A 64-bit hash; the bytes of a scripted image are its hash, and a
    negative number stands for bytes that do not decode. *)
Definition ImageHash : Type := Z.
Definition Bytes : Type := Z.

Definition new_ImageHash (b : Bytes) : jstring + ImageHash :=
  if b <? 0 then inl "cannot decode image" else inr b.

Fixpoint popcount (bits : nat) (z : Z) : Z :=
  match bits with
  | O => 0
  | S bits' => (if Z.testbit z (Z.of_nat bits') then 1 else 0) + popcount bits' z
  end.

Definition hash_hammingDistance (a b : ImageHash) : Z := popcount 64 (Z.lxor a b).

Definition hex_digit (z : Z) : unit16 := nth (Z.to_nat z) "0123456789abcdef" 48%N.

Fixpoint hex (digits : nat) (z : Z) : jstring :=
  match digits with
  | O => []
  | S digits' => hex digits' (z / 16) ++ [hex_digit (z mod 16)]
  end.

Definition toHex (h : ImageHash) : jstring := hex 16 h.

(** What the catalogue does with a query. *)
Inductive Reply : Type :=
| Unreachable                            (* [fetch] is rejected *)
| Fails (status : Z) (statusText : jstring)
| Page (books : list Book)               (* a page of records *)
| Answers (data : Document).             (* any other document *)

Fixpoint assoc {A} (key : jstring) (table : list (jstring * A)) : option A :=
  match table with
  | [] => None
  | (k, v) :: table' => if JsString.eqb key k then Some v else assoc key table'
  end.

Section Script.

(** The images on the network and the catalogue's reply to each query;
    a query outside the script has no match. *)
Variable images : list (jstring * Bytes).
Variable catalogue : list (jstring * Reply).

Definition import_wasm (w : World) : (jstring + unit) * World := (inr tt, S w).

Definition fetch_image (url : JsVal) (w : World)
  : (jstring + Response Bytes) * World :=
  match match url with JString s => assoc s images | _ => None end with
  | Some b =>
      (inr {| ok := true; status := 200; statusText := "OK"; body := inr b |}, S w)
  | None =>
      (inr {| ok := false; status := 404; statusText := "Not Found";
              body := inl "no body" |}, S w)
  end.

Definition fetch_books (query : jstring) (page pageSize : Z) (w : World)
  : (jstring + Response Document) * World :=
  match assoc query catalogue with
  | Some Unreachable => (inl "Failed to fetch", S w)
  | Some (Fails st txt) =>
      (inr {| ok := false; status := st; statusText := txt;
              body := inl "no body" |}, S w)
  | Some (Page books) =>
      (inr {| ok := true; status := 200; statusText := "OK";
              body := inr (document
                             (Some (array (map Some (firstn (Z.to_nat pageSize) books)))))
           |}, S w)
  | Some (Answers data) =>
      (inr {| ok := true; status := 200; statusText := "OK"; body := inr data |}, S w)
  | None =>
      (inr {| ok := true; status := 200; statusText := "OK";
              body := inr (document None) |}, S w)
  end.

Definition run_findSimilarCovers (key : jstring) (targetImageUrl : jstring)
           (options : Options World) : (Exn + SearchResult) * World :=
  findSimilarCovers toLowerCase new_ImageHash toHex hash_hammingDistance key
                    import_wasm fetch_image fetch_books
                    targetImageUrl options 0%nat.

Definition run_searchBooksByTitle (key : jstring) (title : jstring)
  : (Exn + list Book) * World :=
  searchBooksByTitle toLowerCase key fetch_books title 20 0%nat.

End Script.

Definition mkBook (t : jstring) (id13 id cover : JsVal) : Book :=
  {| title := JString t; authors := JObject 1;
     isbn13 := id13; isbn := id; publisher := JString "Press";
     image := cover; date_published := JString "2001" |}.

Definition options (name : jstring) (threshold : Q) (n : Z) : Options World :=
  {| imageName := Some name; query := None; maxResults := None;
     similarityThreshold := Some threshold; topN := Some n; onProgress := None |}.

(** The invocation of the end-to-end scenario: threshold 70, top 2. *)
Definition dune_options : Options World := options "Dune.jpg" 70 2.

(** An invocation without an image name. *)
Definition unnamed_options : Options World := options "" 70 10.

(** Three covers at Hamming distances 2, 40 and 10 from the target. *)
Definition images3 : list (jstring * Bytes) :=
  [ ("target.jpg", 0); ("a.jpg", 3); ("b.jpg", 2 ^ 40 - 1); ("c.jpg", 1023) ].

Definition books3 : list Book :=
  [ mkBook "Dune A" (JString "9780000000001") undefined (JString "a.jpg");
    mkBook "Dune B" (JString "9780000000002") undefined (JString "b.jpg");
    mkBook "Dune C" undefined (JString "0000000003") (JString "c.jpg") ].

Definition catalogue3 : list (jstring * Reply) := [ ("dune", Page books3) ].

(** The same covers found by the generic query only. *)
Definition catalogue_generic : list (jstring * Reply) := [ ("fiction", Page books3) ].

(** The cover of the second book is missing from the network. *)
Definition images_missing : list (jstring * Bytes) :=
  [ ("target.jpg", 0); ("a.jpg", 3); ("c.jpg", 1023) ].

(** Two covers at Hamming distance 3 from the target. *)
Definition images_close : list (jstring * Bytes) :=
  [ ("target.jpg", 0); ("a.jpg", 7); ("b.jpg", 7) ].

Definition books_close : list Book :=
  [ mkBook "Dune A" (JString "9780000000001") undefined (JString "a.jpg");
    mkBook "Dune B" (JString "9780000000002") undefined (JString "b.jpg") ].

Definition catalogue_close : list (jstring * Reply) := [ ("dune", Page books_close) ].

(** A catalogue that answers every query of interest with a server error. *)
Definition catalogue_down : list (jstring * Reply) :=
  [ ("dune", Fails 500 "Internal Server Error");
    ("Dune", Fails 500 "Internal Server Error");
    ("fiction", Fails 500 "Internal Server Error") ].

(** Two variations of "The Hobbit" that both find the book 9780000000010. *)
Definition hobbit1 : Book :=
  mkBook "The Hobbit" (JString "9780000000010") (JString "0000000010") (JString "h1.jpg").
Definition hobbit2 : Book :=
  mkBook "The Hobbit, illustrated" (JString "9780000000011") undefined (JString "h2.jpg").
Definition hobbit3 : Book :=
  mkBook "Hobbit" (JString "9780000000010") undefined (JString "h3.jpg").
Definition hobbit4 : Book :=
  mkBook "The Annotated Hobbit" undefined (JString "0000000012") (JString "h4.jpg").

Definition catalogue_hobbit : list (jstring * Reply) :=
  [ ("the hobbit", Page [hobbit1; hobbit2]); ("hobbit", Page [hobbit3; hobbit4]) ].

(** Two different books with a cover and without any ISBN. *)
Definition pamphlet1 : Book := mkBook "Dune, a pamphlet" undefined undefined (JString "p1.jpg").
Definition pamphlet2 : Book := mkBook "Dune, a poster" undefined undefined (JString "p2.jpg").

Definition catalogue_pamphlets : list (jstring * Reply) :=
  [ ("dune", Page [pamphlet1; pamphlet2]) ].

(** A catalogue whose answers hold a record with a number for an image:
    the title query finds it after one good record, the generic query
    before one. *)
Definition numbered : Book :=
  mkBook "Dune, numbered" (JString "9780000000004") undefined (JNumber (Q2Qc 7)).

Definition catalogue_malformed : list (jstring * Reply) :=
  [ ("dune", Page [hobbit1; numbered; hobbit2]);
    ("fiction", Page [numbered; hobbit1]) ].

(** A progress callback that gives up at the second book. *)
Definition impatient (current total : Z) (bookTitle : JsVal) : Async.M World unit :=
  if 2 <=? current then Async.throw (OtherError "enough") else Async.ret tt.

Definition impatient_options : Options World :=
  {| imageName := Some "Dune.jpg"; query := None; maxResults := None;
     similarityThreshold := None; topN := None; onProgress := Some impatient |}.

(** A comparison at a given Hamming distance, as the loop pushes it. *)
Definition comparison_at (d : Z) : Comparison :=
  {| book := {| mb_title := JString "Dune"; mb_authors := no_authors;
                mb_isbn := undefined; mb_publisher := undefined;
                mb_image := JString "a.jpg"; mb_publishDate := undefined |};
     similarity := rounded (similarityOf d);
     hashHex := "";
     hammingDistance := d;
     matchedByTitle := false |}.

End Scenario.

(* ===================================================================== *)
(** ** translationService: translations *)
(* ===================================================================== *)

Module Multilingual.

Import Async.
Local Open Scope async_scope.
Local Open Scope jstring_scope.
Local Open Scope list_scope.

Section Service.

Variable World : Type.

(** The translation service: the POST of a text and a target language; the
    body of the answer is the [translatedText] field of the JSON document. *)
Variable fetch_translation :
  jstring -> jstring -> World -> (jstring + Response JsVal) * World.

(** [translateText(text, targetLang)]: any failure is logged and gives
    [null]. *)
Definition translateText (text targetLang : jstring) : M World JsVal :=
  try_catch
    (response <- await (fetch_translation text targetLang) ;;
     if negb (ok response)
     then throw (OtherError ("Translation failed: " ++ statusText response))
     else await (fun w => (body response, w)))
    (fun error => ret null).

End Service.

End Multilingual.

(* ===================================================================== *)
(** ** Modal: the scan started from the dialog *)
(* ===================================================================== *)

Module Modal.

Import Async Isbndb.
Local Open Scope async_scope.
Local Open Scope jstring_scope.
Local Open Scope list_scope.

(** An image of the gallery. *)
Record Image : Type := { id : Z; name : jstring; src : jstring }.

(** The [scanProgress] state. *)
Record Progress : Type := { current : Z; total : Z; progressBook : JsVal }.

(** The state of the dialog: [isScanning], [scanResults], [scanError] and
    [scanProgress]; [None] is [null]. *)
Record State : Type := {
  isScanning : bool;
  scanResults : option SearchResult;
  scanError : option jstring;
  scanProgress : Progress
}.

Definition setIsScanning (v : bool) (s : State) : State :=
  {| isScanning := v; scanResults := scanResults s;
     scanError := scanError s; scanProgress := scanProgress s |}.

Definition setScanResults (v : option SearchResult) (s : State) : State :=
  {| isScanning := isScanning s; scanResults := v;
     scanError := scanError s; scanProgress := scanProgress s |}.

Definition setScanError (v : option jstring) (s : State) : State :=
  {| isScanning := isScanning s; scanResults := scanResults s;
     scanError := v; scanProgress := scanProgress s |}.

Definition setScanProgress (v : Progress) (s : State) : State :=
  {| isScanning := isScanning s; scanResults := scanResults s;
     scanError := scanError s; scanProgress := v |}.

(** The text of a number in a template literal. *)
Definition decimal (n : Z) : jstring :=
  JsString.of_ascii (NilZero.string_of_int (Z.to_int n)).

(** The double quote character. *)
Definition quote : jstring := [34%N].

(** [error.message] *)
Definition message (error : Exn) : jstring :=
  match error with
  | TypeError m => m
  | ConfigurationError =>
      "ISBNDB API key not configured. Please set VITE_ISBNDB_API_KEY in .env file"
  | ApiError st txt => "ISBNDB API error: " ++ decimal st ++ " " ++ txt
  | ImageFetchError txt => "Failed to fetch image: " ++ txt
  | Rejected reason => reason
  | OtherError m => m
  end.

Section Scan.

(** The world outside the dialog, and the platform in it. *)
Variable W : Type.
Variable toLowerCase : jstring -> jstring.
Variable ImageHash : Type.
Variable Bytes : Type.
Variable new_ImageHash : Bytes -> jstring + ImageHash.
Variable toHex : ImageHash -> jstring.
Variable hash_hammingDistance : ImageHash -> ImageHash -> Z.
Variable ISBNDB_API_KEY : jstring.
Variable import_wasm : W -> (jstring + unit) * W.
Variable fetch_image : JsVal -> W -> (jstring + Response Bytes) * W.
Variable fetch_books :
  jstring -> Z -> Z -> W -> (jstring + Response Document) * W.

(** A platform operation, seen from the dialog: it leaves the state of the
    dialog alone. *)
Definition outside {A} (f : W -> A * W) (ws : W * State) : A * (W * State) :=
  let (a, w') := f (fst ws) in (a, (w', snd ws)).

(** A state setter. *)
Definition set (f : State -> State) : M (W * State) unit :=
  fun ws => (inr tt, (fst ws, f (snd ws))).

(** The options that [handleScan] passes to [findSimilarCovers]. *)
Definition scanOptions (image : Image) : Options (W * State) :=
  {| imageName := Some (name image);
     query := Some "fiction";
     maxResults := Some 50%Z;
     similarityThreshold := Some 60%Q;
     topN := Some 10%Z;
     onProgress :=
       Some (fun current total bookTitle =>
               set (setScanProgress {| current := current; total := total;
                                       progressBook := bookTitle |})) |}.

(** The call [findSimilarCovers(image.src, {...})] of [handleScan]. *)
Definition scan (image : Image) : M (W * State) SearchResult :=
  findSimilarCovers toLowerCase new_ImageHash toHex hash_hammingDistance ISBNDB_API_KEY
                    (outside import_wasm)
                    (fun url => outside (fetch_image url))
                    (fun q page pageSize => outside (fetch_books q page pageSize))
                    (src image) (scanOptions image).

(** The text shown when the scan finds nothing. *)
Definition nothingFound (data : SearchResult) : jstring :=
  let methodInfo :=
    if JsString.eqb (searchMethod data) "title-based"
    then "Searched by title " ++ quote ++ searchQuery data ++ quote
         ++ " (including translations)."
    else "Used generic search " ++ quote ++ searchQuery data ++ quote ++ "." in
  "No similar covers found. Compared against " ++ decimal (totalCompared data)
  ++ " books. " ++ methodInfo.

(** [handleScan()], for the image of the dialog ([None]: no image). *)
Definition handleScan (image : option Image) : M (W * State) unit :=
  match image with
  | None => ret tt
  | Some image =>
      _ <- set (setIsScanning true) ;;
      _ <- set (setScanError None) ;;
      _ <- set (setScanResults None) ;;
      _ <- set (setScanProgress {| current := 0; total := 0;
                                   progressBook := JString "" |}) ;;
      _ <- try_catch
             (data <- scan image ;;
              _ <- set (setScanResults (Some data)) ;;
              if (List.length (results data) =? 0)%nat
              then set (setScanError (Some (nothingFound data)))
              else ret tt)
             (fun error =>
                set (setScanError
                       (Some (if JsString.truthy (message error) then message error
                              else "Failed to scan for similar covers")))) ;;
      set (setIsScanning false)
  end.

End Scan.

End Modal.

(* ===================================================================== *)
(** ** Counting in the comparison loop *)
(* ===================================================================== *)

Module LoopNotions.

Import Async Isbndb Notions.

Section Platform.

Variable World : Type.
Variable ImageHash : Type.
Variable Bytes : Type.
Variable new_ImageHash : Bytes -> jstring + ImageHash.
Variable hash_hammingDistance : ImageHash -> ImageHash -> Z.
Variable import_wasm : World -> (jstring + unit) * World.
Variable fetch_image : JsVal -> World -> (jstring + Response Bytes) * World.

(** The number of candidates of the comparison loop whose cover hash was
    computed and whose similarity to the target reached the threshold. *)
Fixpoint qualifiedCount (targetHash : ImageHash) (threshold : Q)
         (onProgress : option (Z -> Z -> JsVal -> M World unit))
         (i total : Z) (books : list Book) (w : World) : Z :=
  match books with
  | [] => 0
  | b :: rest =>
      match notify onProgress i total b w with
      | (inl _, _) => 0
      | (inr _, w0) =>
          match calculateHash new_ImageHash import_wasm fetch_image (image b) w0 with
          | (inr bookHash, w') =>
              (if JsNumber.ge (similarityOf (hash_hammingDistance targetHash bookHash))
                              threshold
               then 1 else 0)
              + qualifiedCount targetHash threshold onProgress (i + 1) total rest w'
          | (inl _, w') =>
              qualifiedCount targetHash threshold onProgress (i + 1) total rest w'
          end
      end
  end.

End Platform.

End LoopNotions.

(* ===================================================================== *)
(** ** Notions about the world *)
(* ===================================================================== *)

Module WorldNotions.

(** Whatever the outcome of the operation, a world with the property is
    left with the property. *)
Definition preserves {World A : Type} (P : World -> Prop) (c : World -> A * World)
  : Prop :=
  forall w a w', P w -> c w = (a, w') -> P w'.

End WorldNotions.

(* ===================================================================== *)
(** ** Notions about text *)
(* ===================================================================== *)

Module TextNotions.

Import JsString.
Local Open Scope jstring_scope.
Local Open Scope list_scope.

Definition starts_with_space (l : jstring) : bool :=
  match l with
  | c :: _ => is_space c
  | [] => false
  end.

(** Every run of white space replaced by one space; [in_run] tells that the
    characters just before were white space. *)
Fixpoint squeeze_from (in_run : bool) (l : jstring) : jstring :=
  match l with
  | [] => []
  | c :: l' =>
      if is_space c
      then if in_run then squeeze_from true l' else 32%N :: squeeze_from true l'
      else c :: squeeze_from false l'
  end.

(** Every white space character is a space and is not followed by white
    space. *)
Fixpoint single_spaced (l : jstring) : bool :=
  match l with
  | [] => true
  | c :: l' =>
      (if is_space c then N.eqb c 32 && negb (starts_with_space l') else true)
      && single_spaced l'
  end.

(** [_] or [-] *)
Definition separator (c : unit16) : bool :=
  Translation.one_of [Translation.underscore; Translation.hyphen] c.

(** A text without separators, without white space at either end, and with
    single spaces as its only white space. *)
Definition tidy (s : jstring) : Prop :=
  starts_with_space s = false /\
  starts_with_space (rev s) = false /\
  single_spaced s = true /\
  forallb (fun c => negb (separator c)) s = true.

(** A pattern made of literal characters other than the dot, which
    therefore cannot match across a dot. *)
Fixpoint dot_free (r : Regex.regex) : bool :=
  match r with
  | Regex.Chr c => negb (N.eqb (lower c) 46)
  | Regex.Cls _ => false
  | Regex.Seq r1 r2 | Regex.Alt r1 r2 => dot_free r1 && dot_free r2
  | Regex.Star r' => dot_free r'
  | Regex.Eps | Regex.WordB | Regex.Eos => true
  end.

(** The image extensions of [extractBookTitle]. *)
Definition extensions : list jstring :=
  [ "jpg"; "jpeg"; "png"; "svg"; "webp"; "gif" ].

(** A file name extension in any mixture of cases. *)
Definition lowered (e : jstring) : jstring := map lower e.

End TextNotions.
(* ===================================================================== *)
(** ** Facts about arrays, sorting and rounding *)
(* ===================================================================== *)

Unset Implicit Arguments.

Module ArrayFacts.

Import JsArray JsNumber.

Lemma negative_true (x : Q) : negative x = true <-> (x < 0)%Q.
Proof.
  unfold negative. rewrite negb_true_iff.
  split; intro H.
  - apply Qnot_le_lt. intro Hle. apply Qle_bool_iff in Hle. congruence.
  - destruct (Qle_bool 0 x) eqn:E; [|reflexivity].
    apply Qle_bool_iff in E. exfalso. exact (Qlt_not_le _ _ H E).
Qed.

Lemma negative_false (x : Q) : negative x = false <-> (0 <= x)%Q.
Proof.
  unfold negative. rewrite negb_false_iff. apply Qle_bool_iff.
Qed.

Section Insertion.

Variable A : Type.
Variable compareFn : A -> A -> Q.

Lemma insert_In (x y : A) (l : list A) :
  In y (insert compareFn x l) <-> y = x \/ In y l.
Proof.
  induction l as [|z l IH]; simpl.
  - intuition congruence.
  - destruct (negative (compareFn z x)); simpl; rewrite ?IH; intuition congruence.
Qed.

Lemma sort_In (y : A) (l : list A) : In y (sort compareFn l) <-> In y l.
Proof.
  induction l as [|x l IH]; simpl; [tauto|].
  rewrite insert_In, IH. intuition congruence.
Qed.

Lemma sort_Forall (P : A -> Prop) (l : list A) :
  Forall P l -> Forall P (sort compareFn l).
Proof.
  rewrite !Forall_forall. intros H x Hx. apply H. now apply sort_In.
Qed.

End Insertion.

Section Slice.

Variable A : Type.

Lemma firstn_StronglySorted (R : A -> A -> Prop) (n : nat) (l : list A) :
  StronglySorted R l -> StronglySorted R (firstn n l).
Proof.
  intros H. revert n. induction H as [|x l Hl IH Hx]; intros [|n]; simpl;
    try constructor.
  - apply IH.
  - rewrite Forall_forall in *. intros y Hy. apply Hx.
    rewrite <- (firstn_skipn n l). apply in_or_app. now left.
Qed.

Lemma slice0_In (l : list A) (e : Z) (x : A) : In x (slice0 l e) -> In x l.
Proof.
  unfold slice0. intros H.
  match type of H with In _ (firstn ?n _) => rewrite <- (firstn_skipn n l) end.
  apply in_or_app. left. exact H.
Qed.

Lemma slice0_Forall (P : A -> Prop) (l : list A) (e : Z) :
  Forall P l -> Forall P (slice0 l e).
Proof.
  rewrite !Forall_forall. intros H x Hx. apply H. exact (slice0_In _ _ _ Hx).
Qed.

Lemma slice0_length (l : list A) (e : Z) :
  (0 <= e)%Z -> (Z.of_nat (List.length (slice0 l e)) <= e)%Z.
Proof.
  intros He. unfold slice0.
  destruct (Z.ltb_spec e 0); [lia|].
  rewrite length_firstn. lia.
Qed.

Lemma slice0_StronglySorted (R : A -> A -> Prop) (l : list A) (e : Z) :
  StronglySorted R l -> StronglySorted R (slice0 l e).
Proof. apply firstn_StronglySorted. Qed.

End Slice.

End ArrayFacts.

(* ===================================================================== *)
(** ** Facts about the similarity score *)
(* ===================================================================== *)

Module ScoreFacts.

Import JsArray JsNumber Isbndb Notions ArrayFacts.
Local Open Scope Q_scope.

(** [Math.round] is within one half of its argument, halves going up. *)
Lemma Math_round_bounds (x : Q) : x - (1 # 2) < Math_round x /\ Math_round x <= x + (1 # 2).
Proof.
  unfold Math_round. split.
  - pose proof (Qlt_floor (x + (1 # 2))) as H.
    rewrite inject_Z_plus in H. change (inject_Z 1) with 1 in H. lra.
  - apply Qfloor_le.
Qed.

Lemma Math_round_integer (x : Q) : exists n : Z, Math_round x = inject_Z n.
Proof. now exists (Qfloor (x + (1 # 2))). Qed.

Lemma Math_round_ge_integer (k : Z) (x : Q) : inject_Z k <= x -> inject_Z k <= Math_round x.
Proof.
  intros H. unfold Math_round. rewrite <- Zle_Qle.
  rewrite <- (Qfloor_Z k). apply Qfloor_resp_le. lra.
Qed.

Lemma rounded_bounds (x : Q) :
  rounded x - (1 # 200) <= x /\ x < rounded x + (1 # 200).
Proof.
  unfold rounded. destruct (Math_round_bounds (x * 100)) as [H1 H2].
  set (m := Math_round (x * 100)) in *.
  unfold Qdiv. change (/ 100) with (1 # 100). lra.
Qed.

Lemma rounded_hundredths (x : Q) : exists n : Z, rounded x == inject_Z n / 100.
Proof.
  unfold rounded. destruct (Math_round_integer (x * 100)) as [n Hn].
  exists n. rewrite Hn. reflexivity.
Qed.

Lemma rounded_ge_hundredths (k : Z) (t x : Q) :
  t == inject_Z k / 100 -> t <= x -> t <= rounded x.
Proof.
  intros Ht Hx. unfold rounded.
  assert (Hk : inject_Z k <= x * 100).
  { rewrite Ht in Hx. unfold Qdiv in Hx. change (/ 100) with (1 # 100) in Hx. lra. }
  apply Math_round_ge_integer in Hk.
  rewrite Ht. unfold Qdiv. change (/ 100) with (1 # 100). lra.
Qed.

Lemma insert_descending (x : Comparison) (l : list Comparison) :
  StronglySorted descending l ->
  StronglySorted descending (insert bySimilarity x l).
Proof.
  induction 1 as [|y l Hl IH Hy]; simpl.
  - repeat constructor.
  - destruct (negative (bySimilarity y x)) eqn:E.
    + constructor; [exact IH|].
      rewrite Forall_forall in *. intros z Hz.
      apply insert_In in Hz. destruct Hz as [->|Hz]; [|now apply Hy].
      apply negative_true in E. unfold bySimilarity, descending in *. lra.
    + apply negative_false in E.
      assert (Hxy : descending x y) by (unfold bySimilarity, descending in *; lra).
      constructor; [now constructor|].
      constructor; [exact Hxy|].
      rewrite Forall_forall in *. intros z Hz. specialize (Hy z Hz).
      unfold descending in *. lra.
Qed.

Lemma sort_descending (l : list Comparison) :
  StronglySorted descending (sort bySimilarity l).
Proof.
  induction l as [|x l IH]; simpl; [constructor|].
  now apply insert_descending.
Qed.

End ScoreFacts.

(* ===================================================================== *)
(** ** Facts about asynchronous computations *)
(* ===================================================================== *)

Module AsyncFacts.

Import Async.

Section Inversion.

Variable World : Type.
Variables A B : Type.

Lemma bind_returns (c : M World A) (f : A -> M World B) (w w' : World) (b : B) :
  bind c f w = (inr b, w') ->
  exists a w1, c w = (inr a, w1) /\ f a w1 = (inr b, w').
Proof.
  unfold bind. destruct (c w) as [[e|a] w1]; intros H.
  - discriminate.
  - now exists a, w1.
Qed.

Lemma bind_throws (c : M World A) (f : A -> M World B) (w w' : World) (e : Exn) :
  bind c f w = (inl e, w') ->
  c w = (inl e, w') \/ exists a w1, c w = (inr a, w1) /\ f a w1 = (inl e, w').
Proof.
  unfold bind. destruct (c w) as [[e0|a] w1]; intros H.
  - left. inversion H. reflexivity.
  - right. now exists a, w1.
Qed.

Lemma bind_fail (c : M World A) (f : A -> M World B) (w w1 : World) (e : Exn) :
  c w = (inl e, w1) -> bind c f w = (inl e, w1).
Proof. unfold bind. now intros ->. Qed.

End Inversion.

End AsyncFacts.

(* ===================================================================== *)
(** ** Properties of the search pipeline *)
(* ===================================================================== *)

Set Warnings "-notation-for-abbreviation".


(* ===================================================================== *)
(** ** Facts about strings and values *)
(* ===================================================================== *)

Module ValueFacts.

Import JsString.
Local Open Scope jstring_scope.
Local Open Scope list_scope.

Lemma eqb_eq (a b : jstring) : eqb a b = true <-> a = b.
Proof.
  revert b. induction a as [|x a IH]; intros [|y b]; simpl; split; try congruence.
  - intros H. apply andb_true_iff in H. destruct H as [Hx Hab].
    apply N.eqb_eq in Hx. apply IH in Hab. congruence.
  - intros H. inversion H; subst. rewrite N.eqb_refl. simpl. now apply IH.
Qed.

Lemma eqb_refl (a : jstring) : eqb a a = true.
Proof. now apply eqb_eq. Qed.

Lemma eqb_neq (a b : jstring) : eqb a b = false <-> a <> b.
Proof.
  destruct (eqb a b) eqn:E; split; try congruence.
  - apply eqb_eq in E. congruence.
  - intros _ H. apply eqb_eq in H. congruence.
Qed.

Lemma eqb_sym (a b : jstring) : eqb a b = eqb b a.
Proof.
  destruct (eqb a b) eqn:E.
  - apply eqb_eq in E. subst. now rewrite eqb_refl.
  - symmetry. apply eqb_neq. apply eqb_neq in E. congruence.
Qed.

Lemma jstring_dec (a b : jstring) : {a = b} + {a <> b}.
Proof. apply (list_eq_dec N.eq_dec). Qed.

Lemma truthy_nonempty (s : jstring) : truthy s = true <-> s <> "".
Proof. destruct s; simpl; split; congruence. Qed.

Lemma JsVal_eqb_eq (a b : JsVal) : JsVal_eqb a b = true <-> a = b.
Proof.
  destruct a, b; simpl; split; try congruence; try discriminate.
  - intros H. apply Bool.eqb_prop in H. congruence.
  - intros H. inversion H. apply Bool.eqb_reflx.
  - intros H. apply Qeq_bool_iff, Qc_is_canon in H. congruence.
  - intros H. inversion H. apply Qeq_bool_iff. reflexivity.
  - intros H. apply eqb_eq in H. congruence.
  - intros H. inversion H. apply eqb_refl.
  - intros H. apply N.eqb_eq in H. congruence.
  - intros H. inversion H. apply N.eqb_refl.
Qed.

Lemma JsVal_eqb_sym (a b : JsVal) : JsVal_eqb a b = JsVal_eqb b a.
Proof.
  destruct (JsVal_eqb a b) eqn:E.
  - apply JsVal_eqb_eq in E. subst. symmetry. now apply JsVal_eqb_eq.
  - destruct (JsVal_eqb b a) eqn:E'; [|reflexivity].
    apply JsVal_eqb_eq in E'. subst. rewrite (proj2 (JsVal_eqb_eq a a) eq_refl) in E.
    discriminate.
Qed.

End ValueFacts.

(* ===================================================================== *)
(** ** Properties of the search pipeline *)
(* ===================================================================== *)

Module PipelineFacts.

Import Async AsyncFacts JsArray JsNumber Isbndb Notions ArrayFacts ScoreFacts ValueFacts.
Local Open Scope jstring_scope.
Local Open Scope list_scope.

Section Platform.

Variable World : Type.
Variable toLowerCase : jstring -> jstring.
Variable ImageHash : Type.
Variable Bytes : Type.
Variable new_ImageHash : Bytes -> jstring + ImageHash.
Variable toHex : ImageHash -> jstring.
Variable hash_hammingDistance : ImageHash -> ImageHash -> Z.
Variable ISBNDB_API_KEY : jstring.
Variable import_wasm : World -> (jstring + unit) * World.
Variable fetch_image : JsVal -> World -> (jstring + Response Bytes) * World.
Variable fetch_books :
  jstring -> Z -> Z -> World -> (jstring + Response Document) * World.

Local Notation calculateHash :=
  (Isbndb.calculateHash new_ImageHash import_wasm fetch_image).
Local Notation searchBooks := (Isbndb.searchBooks ISBNDB_API_KEY fetch_books).
Local Notation getBooksWithCovers :=
  (Isbndb.getBooksWithCovers ISBNDB_API_KEY fetch_books).
Local Notation searchVariation :=
  (Isbndb.searchVariation ISBNDB_API_KEY fetch_books).
Local Notation searchVariations :=
  (Isbndb.searchVariations ISBNDB_API_KEY fetch_books).
Local Notation searchBooksByTitle :=
  (Isbndb.searchBooksByTitle toLowerCase ISBNDB_API_KEY fetch_books).
Local Notation titleSearch := (Isbndb.titleSearch toLowerCase ISBNDB_API_KEY fetch_books).
Local Notation genericSearch := (Isbndb.genericSearch ISBNDB_API_KEY fetch_books).
Local Notation compareBook :=
  (Isbndb.compareBook new_ImageHash toHex hash_hammingDistance import_wasm fetch_image).
Local Notation compareBooks :=
  (Isbndb.compareBooks new_ImageHash toHex hash_hammingDistance import_wasm fetch_image).
Local Notation findSimilarCovers :=
  (Isbndb.findSimilarCovers toLowerCase new_ImageHash toHex hash_hammingDistance
                            ISBNDB_API_KEY import_wasm fetch_image fetch_books).
Local Notation hashed := (Notions.hashed new_ImageHash import_wasm fetch_image).
Local Notation compares := (Notions.compares toHex hash_hammingDistance).
Local Notation percent := (Notions.percent hash_hammingDistance).
Local Notation qualifies := (Notions.qualifies hash_hammingDistance).

(** One turn of the comparison loop: the notification, then the
    comparison of the book inside its [try]. *)
Lemma compareBooks_cons targetHash threshold method onProgress i total b rest comparisons w :
  compareBooks targetHash threshold method onProgress i total (b :: rest) comparisons w =
  match notify onProgress i total b w with
  | (inl e, w0) => (inl e, w0)
  | (inr _, w0) =>
      match compareBook targetHash threshold method b comparisons w0 with
      | (inr comparisons', w') =>
          compareBooks targetHash threshold method onProgress (i + 1)%Z total rest
                       comparisons' w'
      | (inl _, w') =>
          compareBooks targetHash threshold method onProgress (i + 1)%Z total rest
                       comparisons w'
      end
  end.
Proof.
  simpl. unfold bind at 1. fold (notify onProgress i total b).
  destruct (notify onProgress i total b w) as [[e|u] w0]; [reflexivity|].
  unfold bind at 1, try_catch.
  match goal with |- context [Isbndb.compareBook ?a ?b ?c ?d ?e ?f ?g ?h ?i ?j ?k] =>
    destruct (Isbndb.compareBook a b c d e f g h i j k) as [[err|cs] w1] end;
    reflexivity.
Qed.

(** What [compareBook] does once the cover of the book is hashed. *)
Lemma compareBook_hashed targetHash threshold method b comparisons w bookHash w' :
  calculateHash (image b) w = (inr bookHash, w') ->
  exists c,
    compareBook targetHash threshold method b comparisons w
    = (inr (if qualifies targetHash threshold (b, bookHash)
            then comparisons ++ [c] else comparisons), w') /\
    compares targetHash (b, bookHash) c /\
    similarity c = rounded (similarityOf (hammingDistance c)) /\
    matchedByTitle c = JsString.eqb method "title-based".
Proof.
  intros H. unfold Isbndb.compareBook, bind. rewrite H.
  unfold Notions.qualifies, Notions.percent, Notions.distance, ge. cbn [snd].
  change ((1 - inject_Z (hash_hammingDistance targetHash bookHash) / 64) * 100)%Q
    with (similarityOf (hash_hammingDistance targetHash bookHash)).
  eexists. split.
  - destruct (Qle_bool threshold (similarityOf (hash_hammingDistance targetHash bookHash)));
      reflexivity.
  - repeat split.
Qed.

Lemma compareBook_failed targetHash threshold method b comparisons w e w' :
  calculateHash (image b) w = (inl e, w') ->
  compareBook targetHash threshold method b comparisons w = (inl e, w').
Proof. intros H. unfold Isbndb.compareBook. exact (bind_fail _ _ _ _ _ _ _ _ H). Qed.

(** The comparisons that the loop adds are, in order, those of the hashed
    candidates that reach the threshold. *)
Lemma compareBooks_hashed targetHash threshold method onProgress total books :
  forall i comparisons w comparisons' w',
    compareBooks targetHash threshold method onProgress i total books comparisons w
    = (inr comparisons', w') ->
    exists added,
      comparisons' = comparisons ++ added /\
      Forall2 (fun candidate c =>
                 compares targetHash candidate c /\
                 similarity c = rounded (similarityOf (hammingDistance c)) /\
                 matchedByTitle c = JsString.eqb method "title-based")
              (filter (qualifies targetHash threshold)
                      (hashed onProgress i total books w))
              added.
Proof.
  induction books as [|b rest IH]; intros i comparisons w comparisons' w' H.
  - inversion H; subst. exists []. rewrite app_nil_r. split; [reflexivity | constructor].
  - rewrite compareBooks_cons in H. cbn [Notions.hashed].
    destruct (notify onProgress i total b w) as [[e|u] w0]; [discriminate|].
    destruct (calculateHash (image b) w0) as [[e|bookHash] w1] eqn:Hhash.
    + rewrite (compareBook_failed targetHash threshold method b comparisons _ _ _ Hhash) in H.
      exact (IH _ _ _ _ _ H).
    + destruct (compareBook_hashed targetHash threshold method b comparisons _ _ _ Hhash)
        as (c & Hc & Hcmp & Hsim & Hflag).
      rewrite Hc in H. cbn [filter].
      destruct (qualifies targetHash threshold (b, bookHash)).
      * apply IH in H. destruct H as (added & -> & Hall).
        exists (c :: added). split; [now rewrite <- app_assoc|].
        constructor; [split; [exact Hcmp | split; assumption] | exact Hall].
      * exact (IH _ _ _ _ _ H).
Qed.

Lemma qualifies_threshold targetHash threshold candidate c :
  qualifies targetHash threshold candidate = true ->
  compares targetHash candidate c ->
  (threshold <= similarityOf (hammingDistance c))%Q.
Proof.
  intros Hq (_ & _ & _ & _ & Hd). rewrite Hd.
  unfold Notions.qualifies in Hq. apply Qle_bool_iff in Hq. exact Hq.
Qed.

(** The comparison loop only ever holds comparisons pushed by
    [compareBook]. *)
Lemma compareBooks_pushed targetHash threshold method onProgress total books :
  forall i comparisons w comparisons' w',
    Forall (pushed threshold method) comparisons ->
    compareBooks targetHash threshold method onProgress i total books comparisons w
    = (inr comparisons', w') ->
    Forall (pushed threshold method) comparisons'.
Proof.
  intros i comparisons w comparisons' w' Hall H.
  apply compareBooks_hashed in H. destruct H as (added & -> & H2).
  apply Forall_app. split; [exact Hall|].
  remember (filter (qualifies targetHash threshold) (hashed onProgress i total books w))
    as candidates eqn:Hc.
  assert (Hq : Forall (fun x => qualifies targetHash threshold x = true) candidates).
  { subst candidates. apply Forall_forall. intros x Hx. now apply filter_In in Hx. }
  clear Hc. induction H2 as [|candidate c l l' (Hcmp & Hsim & Hflag) _ IH]; [constructor|].
  inversion Hq; subst. constructor; [|now apply IH].
  repeat split; try assumption.
  exact (qualifies_threshold _ _ _ _ H1 Hcmp).
Qed.

(** With a progress callback that returns, the comparison loop always
    runs to its end. *)
Lemma compareBooks_total targetHash threshold method onProgress total books :
  returns onProgress ->
  forall i comparisons w,
  exists comparisons' w',
    compareBooks targetHash threshold method onProgress i total books comparisons w
    = (inr comparisons', w').
Proof.
  intros Hret. induction books as [|b rest IH]; intros i comparisons w.
  - now exists comparisons, w.
  - rewrite compareBooks_cons.
    assert (Hn : exists w0, notify onProgress i total b w = (inr tt, w0)).
    { unfold notify. destruct onProgress as [callback|].
      - apply (Hret callback eq_refl).
      - now exists w. }
    destruct Hn as (w0 & ->).
    destruct (compareBook targetHash threshold method b comparisons _)
      as [[err|cs] w1]; apply IH.
Qed.

(** What the comparison loop throws was thrown by the progress callback. *)
Lemma compareBooks_throws targetHash threshold method onProgress total books :
  forall i comparisons w e w',
    compareBooks targetHash threshold method onProgress i total books comparisons w
    = (inl e, w') ->
    exists callback j t w0,
      onProgress = Some callback /\ callback j total t w0 = (inl e, w').
Proof.
  induction books as [|b rest IH]; intros i comparisons w e w' H.
  - discriminate.
  - rewrite compareBooks_cons in H.
    destruct (notify onProgress i total b w) as [[e0|u] w0] eqn:Hn.
    + inversion H; subst. unfold notify in Hn.
      destruct onProgress as [callback|]; [|discriminate].
      now exists callback, (i + 1)%Z, (title b), w.
    + destruct (compareBook targetHash threshold method b comparisons w0)
        as [[err|cs] w1]; exact (IH _ _ _ _ _ H).
Qed.

(** Step 1 never throws: it hands on candidates found by title, or an
    empty list. *)
Lemma titleSearch_returns (name : jstring) (w : World) :
  exists books method w',
    titleSearch name w = (inr (books, method), w') /\
    (method = "title-based" \/
     (books = [] /\ (method = "generic" \/ method = "generic-fallback"))).
Proof.
  unfold Isbndb.titleSearch.
  destruct (JsString.truthy name).
  - destruct (JsString.truthy (Translation.extractBookTitle name) && _)%bool.
    + unfold try_catch, bind.
      destruct (searchBooksByTitle (Translation.extractBookTitle name) 20 w)
        as [[err|books] w1].
      * exists [], "generic-fallback", w1. split; [reflexivity|]. right. tauto.
      * exists books, "title-based", w1. split; [reflexivity|]. now left.
    + exists [], "generic", w. split; [reflexivity|]. right. tauto.
  - exists [], "generic", w. split; [reflexivity|]. right. tauto.
Qed.

Lemma length_eqb_0 {A} (l : list A) : (List.length l =? 0)%nat = true <-> l = [].
Proof. destruct l; simpl; split; congruence. Qed.

(** Step 2 keeps the candidates of step 1 when there are some, and
    otherwise replaces them by the answer of the generic search. *)
Lemma genericSearch_returns query maxResults books1 method1 w books method w' :
  genericSearch query maxResults (books1, method1) w = (inr (books, method), w') ->
  (books1 <> [] /\ books = books1 /\ method = method1 /\ w' = w) \/
  (books1 = [] /\ getBooksWithCovers query maxResults w = (inr books, w') /\
   method = if (0 <? List.length books)%nat then "generic" else "none").
Proof.
  unfold Isbndb.genericSearch.
  destruct (List.length books1 =? 0)%nat eqn:E.
  - apply length_eqb_0 in E. intros H.
    apply bind_returns in H. destruct H as (bs & w1 & Hg & H).
    inversion H; subst. right. auto.
  - intros H. inversion H; subst. left. repeat split.
    intros ->. discriminate.
Qed.

Lemma genericSearch_throws query maxResults books1 method1 w e w' :
  genericSearch query maxResults (books1, method1) w = (inl e, w') ->
  books1 = [] /\ getBooksWithCovers query maxResults w = (inl e, w').
Proof.
  unfold Isbndb.genericSearch.
  destruct (List.length books1 =? 0)%nat eqn:E.
  - apply length_eqb_0 in E. intros H. split; [exact E|].
    apply bind_throws in H. destruct H as [H|(bs & w1 & _ & H)]; [exact H|].
    discriminate.
  - discriminate.
Qed.

(** The run of an invocation that returns: target hash, step 1, step 2,
    and either the early return or the comparison loop. *)
Lemma findSimilarCovers_returns url options w r w' :
  findSimilarCovers url options w = (inr r, w') ->
  exists targetHash w1 books1 method1 w2 books method w3,
    calculateHash (JString url) w = (inr targetHash, w1) /\
    titleSearch (imageName_of options) w1 = (inr (books1, method1), w2) /\
    genericSearch (query_of options) (maxResults_of options) (books1, method1) w2
    = (inr (books, method), w3) /\
    ((books = [] /\ results r = [] /\ totalCompared r = 0%Z /\
      searchMethod r = "none" /\ w' = w3) \/
     (books <> [] /\
      exists comparisons,
        compareBooks targetHash (threshold_of options) method (onProgress options)
                     0 (Z.of_nat (List.length books)) books [] w3
        = (inr comparisons, w') /\
        results r = slice0 (sort bySimilarity comparisons) (topN_of options) /\
        totalCompared r = Z.of_nat (List.length books) /\
        searchMethod r = method)).
Proof.
  unfold Isbndb.findSimilarCovers. intros H.
  apply bind_returns in H. destruct H as (targetHash & w1 & Hhash & H).
  apply bind_returns in H. destruct H as ([books1 method1] & w2 & Htitle & H).
  apply bind_returns in H. destruct H as ([books method] & w3 & Hgeneric & H).
  exists targetHash, w1, books1, method1, w2, books, method, w3.
  repeat (split; [assumption|]).
  destruct (List.length books =? 0)%nat eqn:E.
  - apply length_eqb_0 in E. inversion H; subst. left. auto 6.
  - right. split; [intros ->; discriminate|].
    apply bind_returns in H. destruct H as (comparisons & w4 & Hloop & H).
    inversion H; subst. exists comparisons. auto.
Qed.

(** The results of an invocation that returns are a prefix of the sorted
    comparisons, each of them pushed by [compareBook] under the threshold
    of the invocation and the search method it returns. *)
Lemma findSimilarCovers_results url options w r w' :
  findSimilarCovers url options w = (inr r, w') ->
  StronglySorted descending (results r) /\
  Forall (pushed (threshold_of options) (searchMethod r)) (results r) /\
  (0 <= topN_of options -> Z.of_nat (List.length (results r)) <= topN_of options)%Z.
Proof.
  intros H. apply findSimilarCovers_returns in H.
  destruct H as (targetHash & w1 & books1 & method1 & w2 & books & method & w3
                 & _ & _ & _ & [(_ & Hres & _ & _) | (_ & comparisons & Hloop & Hres & _ & Hm)]).
  - rewrite Hres. repeat split; try constructor. simpl. lia.
  - rewrite Hres, Hm. repeat split.
    + apply slice0_StronglySorted, sort_descending.
    + apply slice0_Forall, sort_Forall.
      exact (compareBooks_pushed _ _ _ _ _ _ _ _ _ _ _ (Forall_nil _) Hloop).
    + apply slice0_length.
Qed.

(** C1 (amended): the results of [findSimilarCovers] are sorted by stored
    similarity, highest first; for a topN that is not negative there are at
    most topN of them; and for every entry the similarity before rounding,
    (1 - hammingDistance / 64) * 100, is at least the similarity threshold,
    so that the stored, rounded similarity is above the threshold minus
    0.005, and at least the threshold when the threshold is a whole number
    of hundredths. *)
Theorem findSimilarCovers_ranking url options w r w' :
  findSimilarCovers url options w = (inr r, w') ->
  StronglySorted (fun a b => similarity b <= similarity a)%Q (results r) /\
  (0 <= topN_of options -> Z.of_nat (List.length (results r)) <= topN_of options)%Z /\
  Forall (fun c =>
            threshold_of options <= similarityOf (hammingDistance c) /\
            similarity c = rounded (similarityOf (hammingDistance c)) /\
            threshold_of options - (1 # 200) < similarity c /\
            (forall k : Z, threshold_of options == inject_Z k / 100 ->
                           threshold_of options <= similarity c))%Q
         (results r).
Proof.
  intros H. destruct (findSimilarCovers_results _ _ _ _ _ H) as (Hsorted & Hall & Hlen).
  split; [exact Hsorted|]. split; [exact Hlen|].
  eapply Forall_impl; [|exact Hall].
  intros c (Hsim & Hthr & _). rewrite Hsim.
  destruct (rounded_bounds (similarityOf (hammingDistance c))) as [_ Hup].
  repeat split; try assumption.
  - lra.
  - intros k Hk. exact (rounded_ge_hundredths k _ _ Hk Hthr).
Qed.

Lemma Forall2_rounds targetHash (method : jstring) candidates comparisons :
  Forall2 (fun candidate c =>
             compares targetHash candidate c /\
             similarity c = rounded (similarityOf (hammingDistance c)) /\
             matchedByTitle c = JsString.eqb method "title-based")
          candidates comparisons ->
  Forall2 (fun candidate c =>
             compares targetHash candidate c /\
             rounds_to_2dp (percent targetHash candidate) (similarity c))
          candidates comparisons.
Proof.
  induction 1 as [|candidate c l l' (Hcmp & Hsim & _) _ IH]; constructor; [|exact IH].
  split; [exact Hcmp|]. rewrite Hsim.
  destruct Hcmp as (_ & _ & _ & _ & Hd). rewrite Hd.
  change (percent targetHash candidate)
    with (similarityOf (Notions.distance hash_hammingDistance targetHash candidate)).
  split; [apply rounded_hundredths | apply rounded_bounds].
Qed.

(** C2: the comparisons that the ranker sorts are, one for one and in the
    order of the loop, those of the candidates whose cover was hashed and
    whose similarity (1 - hammingDistance / 64) * 100 reaches the
    threshold; each stores the book, the hash and the Hamming distance of
    its candidate and, as its similarity, that percentage rounded to two
    decimal places.  So every entry of the results stores
    (1 - hammingDistance / 64) * 100 rounded to two decimal places; a
    Hamming distance of 0 gives 100.00, a distance of 64 gives 0.00 and a
    distance of 16 gives 75.00. *)
Theorem stored_similarity_rounded :
  (forall url options w r w' targetHash w1 found w2 books method w3,
      findSimilarCovers url options w = (inr r, w') ->
      calculateHash (JString url) w = (inr targetHash, w1) ->
      titleSearch (imageName_of options) w1 = (inr found, w2) ->
      genericSearch (query_of options) (maxResults_of options) found w2
      = (inr (books, method), w3) ->
      (exists comparisons,
          results r = slice0 (sort bySimilarity comparisons) (topN_of options) /\
          Forall2 (fun candidate c =>
                     compares targetHash candidate c /\
                     rounds_to_2dp (percent targetHash candidate) (similarity c))
                  (filter (qualifies targetHash (threshold_of options))
                          (hashed (onProgress options) 0 (Z.of_nat (List.length books))
                                  books w3))
                  comparisons) /\
      Forall (fun c =>
                rounds_to_2dp ((1 - inject_Z (hammingDistance c) / 64) * 100)%Q
                              (similarity c))
             (results r)) /\
  (rounded (similarityOf 0) == 100)%Q /\
  (rounded (similarityOf 64) == 0)%Q /\
  (rounded (similarityOf 16) == 75)%Q.
Proof.
  split; [|repeat split; reflexivity].
  intros url options w r w' targetHash w1 found w2 books method w3 H Hhash Htitle Hgeneric.
  split.
  - apply findSimilarCovers_returns in H.
    destruct H as (targetHash' & w1' & books1 & method1 & w2' & books' & method' & w3'
                   & Hhash' & Htitle' & Hgeneric' & Hcases).
    rewrite Hhash in Hhash'. inversion Hhash'; subst targetHash' w1'.
    rewrite Htitle in Htitle'. inversion Htitle'; subst found w2'.
    rewrite Hgeneric in Hgeneric'. inversion Hgeneric'; subst books' method' w3'.
    destruct Hcases as [(-> & Hres & _) | (_ & comparisons & Hloop & Hres & _)].
    + exists []. split; [|constructor].
      rewrite Hres. unfold slice0. simpl. symmetry. apply firstn_nil.
    + exists comparisons. split; [exact Hres|].
      apply compareBooks_hashed in Hloop. destruct Hloop as (added & -> & Hall).
      exact (Forall2_rounds _ _ _ _ Hall).
  - destruct (findSimilarCovers_results _ _ _ _ _ H) as (_ & Hall & _).
    eapply Forall_impl; [|exact Hall].
    intros c (Hsim & _ & _). rewrite Hsim.
    change ((1 - inject_Z (hammingDistance c) / 64) * 100)%Q
      with (similarityOf (hammingDistance c)).
    unfold rounds_to_2dp. split; [apply rounded_hundredths | apply rounded_bounds].
Qed.

(** C10: all entries of the results of one invocation carry the same
    [matchedByTitle] flag, and the flag is set exactly when the search
    method returned by the invocation is 'title-based'. *)
Theorem matchedByTitle_uniform url options w r w' :
  findSimilarCovers url options w = (inr r, w') ->
  exists flag : bool,
    Forall (fun c => matchedByTitle c = flag) (results r) /\
    (flag = true <-> searchMethod r = "title-based").
Proof.
  intros H. destruct (findSimilarCovers_results _ _ _ _ _ H) as (_ & Hall & _).
  exists (JsString.eqb (searchMethod r) "title-based"). split.
  - eapply Forall_impl; [|exact Hall]. now intros c (_ & _ & Hflag).
  - apply eqb_eq.
Qed.

(** C5: when the title-based search was skipped, failed, or found no
    usable candidate, so that step 1 hands on no book, the search method of
    the returned result is not 'title-based': it is 'generic',
    'generic-fallback' or 'none'. *)
Theorem fallback_search_method url options w r w' targetHash w1 books1 method1 w2 :
  findSimilarCovers url options w = (inr r, w') ->
  calculateHash (JString url) w = (inr targetHash, w1) ->
  titleSearch (imageName_of options) w1 = (inr (books1, method1), w2) ->
  books1 = [] \/ method1 <> "title-based" ->
  searchMethod r <> "title-based" /\
  In (searchMethod r) ["generic"; "generic-fallback"; "none"].
Proof.
  intros H Hhash Htitle Hnone.
  assert (Hempty : books1 = []).
  { destruct Hnone as [He|Hm]; [exact He|].
    destruct (titleSearch_returns (imageName_of options) w1)
      as (bs & m & w0 & Ht & [Hm'|[Hb _]]);
      rewrite Htitle in Ht; inversion Ht; subst; [contradiction | reflexivity]. }
  apply findSimilarCovers_returns in H.
  destruct H as (targetHash' & w1' & books1' & method1' & w2' & books & method & w3
                 & Hhash' & Htitle' & Hgeneric & Hcases).
  rewrite Hhash in Hhash'. inversion Hhash'; subst targetHash' w1'.
  rewrite Htitle in Htitle'. inversion Htitle'; subst books1' method1' w2'.
  apply genericSearch_returns in Hgeneric.
  destruct Hgeneric as [(Hne & _) | (_ & _ & Hmethod)]; [contradiction|].
  destruct Hcases as [(_ & _ & _ & Hm & _) | (Hne & cs & _ & _ & _ & Hm)].
  - rewrite Hm. split; [discriminate | simpl; tauto].
  - rewrite Hm, Hmethod. destruct books; [contradiction|]. simpl.
    split; [discriminate | tauto].
Qed.

(** *** Failures *)

(** A catalogue search throws the configuration error when no key is set,
    and otherwise only what the request raised: an API error for a response
    that is not ok, the rejection of the platform, or a TypeError for a
    document that is [null]. *)
Lemma searchBooks_throws query page pageSize w e w' :
  searchBooks query page pageSize w = (inl e, w') ->
  (JsString.truthy ISBNDB_API_KEY = false /\ e = ConfigurationError) \/
  (JsString.truthy ISBNDB_API_KEY = true /\
   ((exists st txt, e = ApiError st txt) \/ (exists reason, e = Rejected reason) \/
    (exists m, e = TypeError m))).
Proof.
  unfold Isbndb.searchBooks.
  destruct (JsString.truthy ISBNDB_API_KEY); simpl.
  - intros H. right. split; [reflexivity|].
    unfold try_catch, bind, await, throw, ret in H.
    destruct (fetch_books query page pageSize w) as [[reason|response] w1].
    + inversion H. right. left. now exists reason.
    + destruct (negb (ok response)).
      * inversion H. left. now exists (status response), (statusText response).
      * destruct (body response) as [reason|[|books]]; inversion H.
        -- right. left. now exists reason.
        -- right. right. eexists. reflexivity.
  - intros H. inversion H. now left.
Qed.

Lemma filter_covers_throws items e :
  filter_covers items = inl e -> exists m, e = TypeError m.
Proof.
  induction items as [|item rest IH]; simpl; [discriminate|].
  destruct (with_cover item) as [e0|keep] eqn:E.
  - intros H. inversion H; subst.
    destruct item as [b|]; simpl in E.
    + unfold has_cover in E.
      destruct (image b) as [| |x|x|s|x]; simpl in E;
        try discriminate;
        try match type of E with
            | (if ?c then _ else _) = _ => destruct c
            end;
        try discriminate; inversion E; eexists; reflexivity.
    + inversion E. eexists. reflexivity.
  - destruct (filter_covers rest) as [e1|kept]; [|discriminate].
    intros H. inversion H; subst. now apply IH.
Qed.

Lemma getBooksWithCovers_throws query maxResults w e w' :
  getBooksWithCovers query maxResults w = (inl e, w') ->
  searchBooks query 1 maxResults w = (inl e, w') \/
  (JsString.truthy ISBNDB_API_KEY = true /\ exists m, e = TypeError m).
Proof.
  unfold Isbndb.getBooksWithCovers. intros H.
  apply bind_throws in H. destruct H as [H|(bs & w1 & Hs & H)]; [now left|].
  right. split.
  - unfold Isbndb.searchBooks in Hs.
    destruct (JsString.truthy ISBNDB_API_KEY); [reflexivity | discriminate].
  - destruct bs as [items|].
    + unfold lift in H. inversion H. now apply (filter_covers_throws items).
    + inversion H. eexists. reflexivity.
Qed.

(** C3 (amended): [findSimilarCovers] throws only when the hash of the
    target image cannot be computed; when the title-based search handed on
    no book and the generic search then fails, with the configuration error
    when no API key is set and otherwise with the API error, the rejection
    of that request or the TypeError of a malformed answer; or when the
    progress callback, which is called outside the [try], throws.  A
    candidate whose cover cannot be fetched or hashed is skipped, the loop
    going on with the comparisons it had; and with a progress callback that
    returns the comparison loop never throws. *)
Theorem findSimilarCovers_failures :
  (forall url options w e w',
      findSimilarCovers url options w = (inl e, w') ->
      calculateHash (JString url) w = (inl e, w') \/
      (exists targetHash w1 method1 w2,
          calculateHash (JString url) w = (inr targetHash, w1) /\
          titleSearch (imageName_of options) w1 = (inr ([], method1), w2) /\
          getBooksWithCovers (query_of options) (maxResults_of options) w2 = (inl e, w') /\
          ((JsString.truthy ISBNDB_API_KEY = false /\ e = ConfigurationError) \/
           (JsString.truthy ISBNDB_API_KEY = true /\
            ((exists st txt, e = ApiError st txt) \/ (exists reason, e = Rejected reason) \/
             (exists m, e = TypeError m))))) \/
      (exists callback i total t w0,
          onProgress options = Some callback /\
          callback i total t w0 = (inl e, w'))) /\
  (forall targetHash threshold method onProgress i total b rest comparisons w w0 e w1,
      notify onProgress i total b w = (inr tt, w0) ->
      calculateHash (image b) w0 = (inl e, w1) ->
      compareBooks targetHash threshold method onProgress i total (b :: rest) comparisons w
      = compareBooks targetHash threshold method onProgress (i + 1) total rest comparisons w1) /\
  (forall targetHash threshold method onProgress i total books comparisons w,
      returns onProgress ->
      exists comparisons' w',
        compareBooks targetHash threshold method onProgress i total books comparisons w
        = (inr comparisons', w')).
Proof.
  split; [|split].
  - intros url options w e w' H. unfold Isbndb.findSimilarCovers in H.
    apply bind_throws in H. destruct H as [H|(targetHash & w1 & Hhash & H)]; [now left|].
    right. apply bind_throws in H.
    destruct (titleSearch_returns (imageName_of options) w1)
      as (books1 & method1 & w2 & Htitle & _).
    fold (imageName_of options) in H.
    destruct H as [H|(found & w2' & Htitle' & H)]; [congruence|].
    rewrite Htitle in Htitle'. inversion Htitle'; subst found w2'. clear Htitle'.
    apply bind_throws in H.
    destruct H as [H|([books method] & w3 & _ & H)].
    + left. apply genericSearch_throws in H. destruct H as [-> H].
      exists targetHash, w1, method1, w2. repeat (split; [assumption|]).
      destruct (getBooksWithCovers_throws _ _ _ _ _ H) as [Hs|(Hk & m & ->)].
      * exact (searchBooks_throws _ _ _ _ _ _ Hs).
      * right. split; [exact Hk|]. right. right. now exists m.
    + right. destruct (List.length books =? 0)%nat; [discriminate|].
      apply bind_throws in H. destruct H as [H|(cs & w4 & _ & H)]; [|discriminate].
      apply compareBooks_throws in H.
      destruct H as (callback & j & t & w0 & Hcb & H).
      now exists callback, j, (Z.of_nat (List.length books)), t, w0.
  - intros targetHash threshold method onProgress i total b rest comparisons w w0 e w1 Hn H.
    rewrite compareBooks_cons, Hn.
    now rewrite (compareBook_failed targetHash threshold method b comparisons _ _ _ H).
  - intros targetHash threshold method onProgress i total books comparisons w Hret.
    now apply compareBooks_total.
Qed.

(** *** Deduplication *)

Lemma seen_has_app (seen : list JsVal) (x k : JsVal) :
  seen_has (seen ++ [x]) k = (seen_has seen k || JsVal_eqb k x)%bool.
Proof.
  unfold seen_has. rewrite existsb_app. simpl. now rewrite orb_false_r.
Qed.

(** [forEach] leaves the pair as [keep] makes it over the visited
    records. *)
Lemma forEach_visited (items : list (option Book)) :
  forall st, snd (forEach items st) = fold_left keep (visited items) st.
Proof.
  induction items as [|[b|] rest IH]; intros [allBooks seenIsbns];
    try reflexivity.
  cbn [forEach visit visited].
  destruct (has_cover b) as [e|cover] eqn:E; [reflexivity|].
  rewrite IH. cbn [fold_left]. f_equal.
  unfold keep, covered, identifier. rewrite E. reflexivity.
Qed.

(** One pass of [keep] over the books of an answer: the books added are,
    in order, the books with a cover whose identifier was not seen before,
    one for each identifier. *)
Lemma keep_all (l : list Book) :
  forall allBooks seenIsbns,
  exists kept,
    fold_left keep l (allBooks, seenIsbns)
    = (allBooks ++ kept, seenIsbns ++ map identifier kept) /\
    Subseq kept (filter covered l) /\
    forall k,
      filter (has_identifier k) kept =
      if seen_has seenIsbns k then []
      else firstn 1 (filter (has_identifier k) (filter covered l)).
Proof.
  induction l as [|b l IH]; intros allBooks seenIsbns.
  - exists []. simpl. rewrite !app_nil_r. repeat split; [constructor|].
    intros k. now destruct (seen_has seenIsbns k).
  - change (fold_left keep (b :: l) (allBooks, seenIsbns))
      with (fold_left keep l (keep (allBooks, seenIsbns) b)).
    unfold keep at 2.
    destruct (covered b) eqn:Hc; simpl andb.
    + destruct (seen_has seenIsbns (identifier b)) eqn:Hs; simpl negb; cbv iota.
      * destruct (IH allBooks seenIsbns) as (kept & Heq & Hsub & Hk).
        exists kept. split; [exact Heq|]. simpl filter. rewrite Hc.
        split; [now constructor|].
        intros k. rewrite Hk. simpl filter.
        destruct (has_identifier k b) eqn:Hb; [|reflexivity].
        apply JsVal_eqb_eq in Hb. subst k. now rewrite Hs.
      * destruct (IH (allBooks ++ [b]) (seenIsbns ++ [identifier b]))
          as (kept & Heq & Hsub & Hk).
        exists (b :: kept). split; [|split].
        -- rewrite Heq. simpl map. now rewrite <- !app_assoc.
        -- simpl filter. rewrite Hc. now constructor.
        -- intros k. simpl filter. rewrite Hc. simpl filter. rewrite Hk.
           rewrite seen_has_app, (JsVal_eqb_sym k). fold (has_identifier k b).
           destruct (has_identifier k b) eqn:Hb.
           ++ apply JsVal_eqb_eq in Hb. subst k. rewrite Hs, orb_true_r. reflexivity.
           ++ rewrite orb_false_r. reflexivity.
    + destruct (IH allBooks seenIsbns) as (kept & Heq & Hsub & Hk).
      exists kept. split; [exact Heq|]. simpl filter. rewrite Hc.
      split; [exact Hsub | exact Hk].
Qed.

(** The loop over the variations never throws, and visits the discovered
    books in the order of discovery. *)
Lemma searchVariations_returns (titleVariations : list jstring) (maxResultsPerQuery : Z) :
  forall st w,
  exists w',
    searchVariations titleVariations maxResultsPerQuery st w
    = (inr (fold_left keep
                      (discovered ISBNDB_API_KEY fetch_books titleVariations
                                  maxResultsPerQuery w) st), w').
Proof.
  induction titleVariations as [|variation rest IH]; intros st w; simpl.
  - now exists w.
  - unfold Isbndb.searchVariation.
    destruct (searchBooks variation 1 maxResultsPerQuery w) as [[err|[items|]] w1]; simpl.
    + apply IH.
    + destruct (forEach items st) as [outcome st'] eqn:E.
      assert (Hst : st' = fold_left keep (visited items) st).
      { rewrite <- forEach_visited, E. reflexivity. }
      simpl. rewrite fold_left_app, <- Hst. apply IH.
    + apply IH.
Qed.


End Platform.

End PipelineFacts.

(* ===================================================================== *)
(** ** Facts about the matcher and the replacements *)
(* ===================================================================== *)

Module RegexFacts.

Import JsString Regex Notions.
Local Open Scope list_scope.

Lemma Suffix_refl (s : jstring) : Suffix s s.
Proof. now exists []. Qed.

Lemma Suffix_cons (x : unit16) (s' s : jstring) : Suffix s' s -> Suffix s' (x :: s).
Proof. intros [pre ->]. now exists (x :: pre). Qed.

Lemma Suffix_trans (a b c : jstring) : Suffix a b -> Suffix b c -> Suffix a c.
Proof. intros [p ->] [q ->]. exists (q ++ p). now rewrite app_assoc. Qed.

Lemma Suffix_Forall (P : unit16 -> Prop) (s' s : jstring) :
  Suffix s' s -> Forall P s -> Forall P s'.
Proof. intros [pre ->] H. apply Forall_app in H. tauto. Qed.

(** A match ends where its continuation was called: on what is left of the
    subject. *)
Lemma rmatch_suffix (ignoreCase : bool) (r : regex) :
  forall prev s k e,
    rmatch ignoreCase r prev s k = Some e ->
    exists p' s', Suffix s' s /\ k p' s' = Some e.
Proof.
  induction r as [|c|p|r1 IH1 r2 IH2|r1 IH1 r2 IH2|r IH| |]; intros prev s k e H; simpl in H.
  - exists prev, s. split; [apply Suffix_refl | exact H].
  - destruct s as [|x s]; [discriminate|].
    destruct (chr_eq ignoreCase c x); [|discriminate].
    exists (Some x), s. split; [apply Suffix_cons, Suffix_refl | exact H].
  - destruct s as [|x s]; [discriminate|].
    destruct (p x); [|discriminate].
    exists (Some x), s. split; [apply Suffix_cons, Suffix_refl | exact H].
  - apply IH1 in H. destruct H as (p1 & s1 & Hs1 & H).
    apply IH2 in H. destruct H as (p2 & s2 & Hs2 & H).
    exists p2, s2. split; [exact (Suffix_trans _ _ _ Hs2 Hs1) | exact H].
  - destruct (rmatch ignoreCase r1 prev s k) as [e1|] eqn:E1.
    + inversion H; subst. now apply IH1 in E1.
    + now apply IH2 in H.
  - remember (List.length s) as n eqn:Hn. clear Hn.
    revert prev s H. induction n as [|n IHn]; intros prev s H.
    + exists prev, s. split; [apply Suffix_refl | exact H].
    + match type of H with
      | match ?m with _ => _ end = _ => destruct m as [e1|] eqn:E1
      end.
      * inversion H; subst. apply IH in E1. destruct E1 as (p1 & s1 & Hs1 & E1).
        destruct (List.length s1 <? List.length s)%nat; [|discriminate].
        apply IHn in E1. destruct E1 as (p2 & s2 & Hs2 & E1).
        exists p2, s2. split; [exact (Suffix_trans _ _ _ Hs2 Hs1) | exact E1].
      * exists prev, s. split; [apply Suffix_refl | exact H].
  - destruct (xorb _ _); [|discriminate].
    exists prev, s. split; [apply Suffix_refl | exact H].
  - destruct s; [|discriminate].
    exists prev, []. split; [apply Suffix_refl | exact H].
Qed.

Lemma match_here_suffix (ignoreCase : bool) (r : regex) prev s p' rest :
  match_here ignoreCase r prev s = Some (p', rest) -> Suffix rest s.
Proof.
  unfold match_here. intros H. apply rmatch_suffix in H.
  destruct H as (p1 & s1 & Hs & H). inversion H; subst. exact Hs.
Qed.

(** A global replacement only leaves characters of the subject and of the
    replacement. *)
Lemma replace_all_from_Forall (P : unit16 -> Prop) (ignoreCase : bool) (r : regex)
      (rep : jstring) :
  Forall P rep ->
  forall n prev s, Forall P s -> Forall P (replace_all_from ignoreCase n r rep prev s).
Proof.
  intros Hrep. induction n as [|n IH]; intros prev s Hs; simpl; [exact Hs|].
  assert (Hstep : Forall P match s with
                           | [] => []
                           | c :: s' => c :: replace_all_from ignoreCase n r rep (Some c) s'
                           end).
  { destruct s as [|c s']; [constructor|].
    inversion Hs; subst. constructor; [assumption | now apply IH]. }
  destruct (match_here ignoreCase r prev s) as [[p' rest]|] eqn:E; [|exact Hstep].
  apply match_here_suffix in E.
  destruct (List.length rest <? List.length s)%nat; apply Forall_app; split;
    try assumption.
  apply IH. exact (Suffix_Forall _ _ _ E Hs).
Qed.

(** Replacing a character class by a text replaces each character of the
    class. *)
Lemma replace_all_from_class (ignoreCase : bool) (p : unit16 -> bool) (rep : jstring) :
  forall s n prev,
    (List.length s < n)%nat ->
    replace_all_from ignoreCase n (Cls p) rep prev s
    = flat_map (fun c => if p c then rep else [c]) s.
Proof.
  induction s as [|c s IH]; intros n prev Hn; (destruct n as [|n]; [inversion Hn|]).
  - reflexivity.
  - simpl in Hn. simpl. unfold match_here. simpl.
    destruct (p c).
    + destruct (Nat.ltb_spec (List.length s) (S (List.length s))) as [_|Hlt]; [|lia].
      f_equal. apply IH. lia.
    + simpl. f_equal. apply IH. lia.
Qed.

Lemma drop_space_Forall (P : unit16 -> Prop) (l : jstring) :
  Forall P l -> Forall P (drop_space l).
Proof.
  induction 1 as [|c l Hc Hl IH]; simpl; [constructor|].
  destruct (is_space c); [exact IH | now constructor].
Qed.

Lemma trim_Forall (P : unit16 -> Prop) (s : jstring) :
  Forall P s -> Forall P (trim s).
Proof.
  intros H. unfold trim.
  apply Forall_rev, drop_space_Forall, Forall_rev, drop_space_Forall, H.
Qed.

Lemma replaceAll_Forall (P : unit16 -> Prop) (r : regex) (ignoreCase : bool)
      (rep s : jstring) :
  Forall P rep -> Forall P s ->
  Forall P (replaceAll r ignoreCase rep s).
Proof.
  intros Hrep Hs. unfold replaceAll.
  now apply replace_all_from_Forall.
Qed.

End RegexFacts.

(* ===================================================================== *)
(** ** Properties of the title functions *)
(* ===================================================================== *)

Module TranslationFacts.

Import JsString Regex Translation Notions RegexFacts ValueFacts.
Local Open Scope jstring_scope.
Local Open Scope list_scope.

Lemma has_In (s : list jstring) (x : jstring) : has s x = true <-> In x s.
Proof.
  unfold has. rewrite existsb_exists. split.
  - intros (y & Hy & E). apply eqb_eq in E. now subst.
  - intros H. exists x. split; [exact H | apply eqb_refl].
Qed.

Lemma add_In (s : list jstring) (x y : jstring) : In x (add s y) <-> In x s \/ x = y.
Proof.
  unfold add. destruct (has s y) eqn:E.
  - apply has_In in E. intuition congruence.
  - rewrite in_app_iff. simpl. intuition congruence.
Qed.

Lemma fold_add_In (items s : list jstring) (x : jstring) :
  In x s -> In x (fold_left add items s).
Proof.
  revert s. induction items as [|y items IH]; intros s H; simpl; [exact H|].
  apply IH, add_In. now left.
Qed.

Lemma nonempty_length (x : jstring) : x <> "" -> (0 <? length x)%nat = true.
Proof. destruct x; [congruence | reflexivity]. Qed.

Lemma two_members (l : list jstring) (a b : jstring) :
  In a l -> In b l -> a <> b -> (2 <= List.length l)%nat.
Proof.
  destruct l as [|x [|y l]]; simpl; intros Ha Hb Hab.
  - contradiction.
  - exfalso. intuition congruence.
  - lia.
Qed.

(** Of the properties that the translation table inherits, only
    [constructor] is plain text. *)
Lemma inherited_plain_key (key : jstring) :
  Forall (fun c => plain c = true) key ->
  get_translations key = Inherited -> key = "constructor".
Proof.
  intros Hplain. unfold get_translations.
  destruct (own_property key COMMON_TRANSLATIONS); [discriminate|].
  destruct (existsb (eqb key) Object_prototype_keys) eqn:E; [|discriminate].
  intros _. apply existsb_exists in E. destruct E as (k & Hk & E).
  apply eqb_eq in E. subst k.
  assert (Hb : forallb plain key = true).
  { apply forallb_forall. intros c Hc. rewrite Forall_forall in Hplain. now apply Hplain. }
  simpl in Hk.
  repeat (destruct Hk as [Hk|Hk]; [subst key; first [reflexivity | vm_compute in Hb; discriminate]|]).
  contradiction.
Qed.

(** The array returned once the translations are in: the two optional
    additions and the removal of empty strings keep every member that is not
    the empty string. *)
Lemma variations_kept (normalized title withoutCommon withNumbers : jstring)
      (c1 c2 : bool) (translated : list jstring) :
  In normalized translated -> In title translated ->
  let step1 := if c1 then add translated withoutCommon else translated in
  let step2 := if c2 then add step1 withNumbers else step1 in
  let variations := filter (fun v => (0 <? length v)%nat) step2 in
  (normalized <> "" -> In normalized variations) /\
  (title <> "" -> In title variations) /\
  ~ In "" variations /\
  (title <> "" -> variations <> []) /\
  (normalized <> "" -> title <> "" -> title <> normalized ->
   (2 <= List.length variations)%nat).
Proof.
  intros Hn Ht step1 step2 variations.
  assert (H2 : forall x, In x translated -> In x step2).
  { intros x Hx. unfold step2, step1.
    destruct c2; [apply add_In; left|]; (destruct c1; [apply add_In; left|]); exact Hx. }
  assert (Hkeep : forall x, In x translated -> x <> "" -> In x variations).
  { intros x Hx Hne. apply filter_In. split; [now apply H2 | now apply nonempty_length]. }
  split; [|split; [|split; [|split]]].
  - intros H. now apply Hkeep.
  - intros H. now apply Hkeep.
  - intros H. apply filter_In in H. destruct H as [_ H]. discriminate.
  - intros H Hnil. apply (Hkeep _ Ht) in H. rewrite Hnil in H. contradiction.
  - intros H H' Hdiff.
    apply (two_members _ title normalized); [now apply Hkeep | now apply Hkeep | exact Hdiff].
Qed.

Section Engine.

Variable toLowerCase : jstring -> jstring.

Local Notation normalizeTitle := (Translation.normalizeTitle toLowerCase).
Local Notation getTitleVariations := (Translation.getTitleVariations toLowerCase).

(** The normalized title holds no underscore. *)
Lemma normalizeTitle_no_underscore (title : jstring) :
  ~ In underscore (normalizeTitle title).
Proof.
  assert (H : Forall (fun c => c <> underscore) (normalizeTitle title)).
  { unfold Translation.normalizeTitle.
    apply trim_Forall, replaceAll_Forall; [repeat constructor; discriminate|].
    unfold replaceAll, re_separator.
    rewrite replace_all_from_class by lia.
    induction (toLowerCase title) as [|c l IH]; cbn [flat_map]; [constructor|].
    apply Forall_app. split; [|exact IH].
    destruct (one_of [underscore; hyphen] c) eqn:E.
    - repeat constructor. discriminate.
    - constructor; [|constructor]. intros ->. discriminate. }
  intros Hin. rewrite Forall_forall in H. exact (H _ Hin eq_refl).
Qed.

Hypothesis engine_lowers : lowering toLowerCase.

(** The key of the table lookup is plain text. *)
Lemma lowerTitle_plain (title : jstring) :
  Forall (fun c => plain c = true) (toLowerCase (normalizeTitle title)).
Proof.
  destruct (engine_lowers (normalizeTitle title)) as [Hup Hus].
  apply Forall_forall. intros c Hc. unfold plain.
  rewrite Forall_forall in Hup. rewrite (Hup c Hc). simpl.
  destruct (N.eqb_spec c underscore) as [->|Hne]; [|reflexivity].
  exfalso. exact (normalizeTitle_no_underscore title (Hus Hc)).
Qed.

Lemma normalized_lookup (title : jstring) :
  toLowerCase (normalizeTitle title) <> "constructor" ->
  get_translations (toLowerCase (normalizeTitle title)) <> Inherited.
Proof.
  intros Hne Hinh. apply Hne.
  exact (inherited_plain_key _ (lowerTitle_plain title) Hinh).
Qed.

(** C6 (amended): for every title whose key in the translation table (the
    normalized form, lower-cased once more) is not "constructor" (a
    property that the table inherits: for such a title the call throws),
    [getTitleVariations] returns an array that holds the normalized form
    when that is not empty and the original title when that is not empty,
    and never an empty string; so the array is not empty for a title that
    is not empty, and it has at least two members when the original and the
    normalized form are not empty and differ. *)
Theorem getTitleVariations_members (title : jstring) :
  toLowerCase (normalizeTitle title) <> "constructor" ->
  exists variations,
    getTitleVariations title = inr variations /\
    (normalizeTitle title <> "" -> In (normalizeTitle title) variations) /\
    (title <> "" -> In title variations) /\
    ~ In "" variations /\
    (title <> "" -> variations <> []) /\
    (normalizeTitle title <> "" -> title <> "" -> title <> normalizeTitle title ->
     (2 <= List.length variations)%nat).
Proof.
  intros Hown. apply normalized_lookup in Hown. unfold Translation.getTitleVariations.
  generalize dependent (normalizeTitle title). intros normalized Hown.
  assert (Hbase : In normalized (new_Set [normalized; title]) /\
                  In title (new_Set [normalized; title])).
  { unfold new_Set. simpl. split.
    - apply add_In. left. apply add_In. now right.
    - apply add_In. now right. }
  generalize dependent (new_Set [normalized; title]). intros base [Hn Ht].
  cbv zeta.
  destruct (get_translations (toLowerCase normalized)) as [translations| |].
  - eexists. split; [reflexivity|].
    apply variations_kept; now apply fold_add_In.
  - congruence.
  - eexists. split; [reflexivity|].
    now apply variations_kept.
Qed.

End Engine.

(** C9: the title extracted from the file name "My_Book - copy (2).jpg" is
    "My Book". *)
Theorem extractBookTitle_copy_suffix :
  extractBookTitle "My_Book - copy (2).jpg" = "My Book".
Proof. vm_compute. reflexivity. Qed.

End TranslationFacts.

(* ===================================================================== *)
(** ** The services on concrete inputs *)
(* ===================================================================== *)

Module ScenarioFacts.

Import JsArray Isbndb Notions Scenario PipelineFacts TranslationFacts.
Local Open Scope jstring_scope.
Local Open Scope list_scope.

(** The scripted [toLowerCase] has the properties of the engine's that the
    title functions rely on. *)
Lemma toLowerCase_lowers : lowering toLowerCase.
Proof.
  intros s. unfold toLowerCase. split.
  - apply Forall_forall. intros c Hc. apply in_map_iff in Hc.
    destruct Hc as (u & <- & _). unfold lowerLatin, JsString.is_upper.
    destruct (N.leb_spec 65 u), (N.leb_spec u 90); simpl;
      destruct (N.leb_spec 192 u), (N.leb_spec u 222), (N.eqb_spec u 215); simpl;
      repeat match goal with
             | |- context [N.leb ?a ?b] => destruct (N.leb_spec a b)
             end; simpl; try reflexivity; lia.
  - intros H. apply in_map_iff in H. destruct H as (u & Hu & Hin).
    assert (u = Translation.underscore); [|now subst].
    unfold lowerLatin, JsString.is_upper, Translation.underscore in *.
    destruct (N.leb_spec 65 u), (N.leb_spec u 90); simpl in Hu;
      destruct (N.leb_spec 192 u), (N.leb_spec u 222), (N.eqb_spec u 215); simpl in Hu;
      lia.
Qed.

(** The end-to-end scenario: distances 2, 40 and 10, threshold 70 and the
    top 2 give the similarities 96.88 and 84.38, in this order. *)
Example dune_similarities :
  exists r w',
    run_findSimilarCovers images3 catalogue3 "key" "target.jpg" dune_options = (inr r, w') /\
    map similarity (results r) = [9688 # 100; 8438 # 100]%Q /\
    map hammingDistance (results r) = [2; 10]%Z.
Proof. eexists. eexists. split; [vm_compute; reflexivity|]. split; reflexivity. Qed.

(** C1, as stated, fails: with the threshold 95.3125 a cover at Hamming
    distance 3 (similarity 95.3125) is kept and stored with the similarity
    95.31, below the threshold; and with topN = -1 the two comparisons
    give one result, more than topN. *)
Lemma findSimilarCovers_ranking_counterexample :
  (exists r w' c,
      run_findSimilarCovers images_close catalogue_close "key" "target.jpg"
                            (options "Dune.jpg" (1525 # 16) 10) = (inr r, w') /\
      In c (results r) /\
      ~ (1525 # 16 <= similarity c)%Q) /\
  (exists r w',
      run_findSimilarCovers images_close catalogue_close "key" "target.jpg"
                            (options "Dune.jpg" 70 (-1)) = (inr r, w') /\
      ~ (Z.of_nat (List.length (results r)) <= -1)%Z).
Proof.
  split.
  - eexists. eexists. eexists. split; [vm_compute; reflexivity|].
    split; [left; reflexivity|].
    unfold Qle. simpl. lia.
  - eexists. eexists. split; [vm_compute; reflexivity|].
    simpl. lia.
Qed.

Lemma findSimilarCovers_ranking_witness :
  exists r w',
    run_findSimilarCovers images3 catalogue3 "key" "target.jpg" dune_options = (inr r, w') /\
    StronglySorted (fun a b => similarity b <= similarity a)%Q (results r) /\
    (0 <= topN_of dune_options ->
     Z.of_nat (List.length (results r)) <= topN_of dune_options)%Z /\
    Forall (fun c =>
              threshold_of dune_options <= similarityOf (hammingDistance c) /\
              similarity c = rounded (similarityOf (hammingDistance c)) /\
              threshold_of dune_options - (1 # 200) < similarity c /\
              (forall k : Z, threshold_of dune_options == inject_Z k / 100 ->
                             threshold_of dune_options <= similarity c))%Q
           (results r).
Proof.
  eexists. eexists. split; [vm_compute; reflexivity|].
  apply (findSimilarCovers_ranking _ toLowerCase _ _ new_ImageHash toHex
           hash_hammingDistance "key"
           import_wasm (fetch_image images3) (fetch_books catalogue3)
           "target.jpg" dune_options 0%nat _ 10%nat).
  vm_compute. reflexivity.
Defined.

Lemma stored_similarity_rounded_witness :
  exists r w',
    run_findSimilarCovers images3 catalogue3 "key" "target.jpg" dune_options = (inr r, w') /\
    (exists comparisons,
        results r = slice0 (sort bySimilarity comparisons) (topN_of dune_options) /\
        Forall2 (fun candidate c =>
                   compares toHex hash_hammingDistance 0%Z candidate c /\
                   rounds_to_2dp (percent hash_hammingDistance 0%Z candidate)
                                 (similarity c))
                (filter (qualifies hash_hammingDistance 0%Z (threshold_of dune_options))
                        (hashed new_ImageHash import_wasm (fetch_image images3)
                                (onProgress dune_options) 0
                                (Z.of_nat (List.length books3)) books3 4%nat))
                comparisons) /\
    Forall (fun c =>
              rounds_to_2dp ((1 - inject_Z (hammingDistance c) / 64) * 100)%Q
                            (similarity c))
           (results r).
Proof.
  eexists. eexists. split; [vm_compute; reflexivity|].
  apply (proj1 (stored_similarity_rounded _ toLowerCase _ _ new_ImageHash toHex
                  hash_hammingDistance "key" import_wasm (fetch_image images3)
                  (fetch_books catalogue3))
               "target.jpg" dune_options 0%nat _ 10%nat 0%Z 2%nat
               (books3, "title-based") 4%nat books3 "title-based" 4%nat).
  - vm_compute. reflexivity.
  - vm_compute. reflexivity.
  - vm_compute. reflexivity.
  - vm_compute. reflexivity.
Defined.

(** The candidates of the scenario that were hashed and reach the
    threshold of 70: the first and the third, at distances 2 and 10. *)
Example dune_candidates :
  map (distance hash_hammingDistance 0%Z)
      (filter (qualifies hash_hammingDistance 0%Z 70)
              (hashed new_ImageHash import_wasm (fetch_image images3)
                      None 0 3 books3 4%nat))
  = [2; 10]%Z.
Proof. vm_compute. reflexivity. Qed.

Lemma matchedByTitle_uniform_witness :
  exists r w',
    run_findSimilarCovers images3 catalogue3 "key" "target.jpg" dune_options = (inr r, w') /\
    exists flag : bool,
      Forall (fun c => matchedByTitle c = flag) (results r) /\
      (flag = true <-> searchMethod r = "title-based").
Proof.
  eexists. eexists. split; [vm_compute; reflexivity|].
  apply (matchedByTitle_uniform _ toLowerCase _ _ new_ImageHash toHex
           hash_hammingDistance "key"
           import_wasm (fetch_image images3) (fetch_books catalogue3)
           "target.jpg" dune_options 0%nat _ 10%nat).
  vm_compute. reflexivity.
Defined.

Lemma fallback_search_method_witness :
  exists r w',
    run_findSimilarCovers images3 catalogue_generic "key" "target.jpg" unnamed_options
    = (inr r, w') /\
    searchMethod r <> "title-based" /\
    In (searchMethod r) ["generic"; "generic-fallback"; "none"].
Proof.
  eexists. eexists. split; [vm_compute; reflexivity|].
  apply (fallback_search_method _ toLowerCase _ _ new_ImageHash toHex
           hash_hammingDistance "key"
           import_wasm (fetch_image images3) (fetch_books catalogue_generic)
           "target.jpg" unnamed_options 0%nat _ 9%nat 0%Z 2%nat [] "generic" 2%nat).
  - vm_compute. reflexivity.
  - vm_compute. reflexivity.
  - vm_compute. reflexivity.
  - left. reflexivity.
Defined.

(** C3, as stated, fails: with an API key set and the hash of the target
    computed, a server error of the catalogue on the generic query makes
    the invocation throw that API error. *)
Lemma findSimilarCovers_failures_counterexample :
  JsString.truthy "key" = true /\
  calculateHash new_ImageHash import_wasm (fetch_image images3) (JString "target.jpg") 0%nat
  = (inr 0%Z, 2%nat) /\
  run_findSimilarCovers images3 catalogue_down "key" "target.jpg" dune_options
  = (inl (ApiError 500 "Internal Server Error"), 5%nat).
Proof. repeat split; vm_compute; reflexivity. Qed.

(** Two more ways in which an invocation throws although the API key is
    set and the hash of the target is computed: a record of the generic
    answer whose image is a number, and a progress callback that throws. *)
Example findSimilarCovers_other_failures :
  run_findSimilarCovers images3 catalogue_malformed "key" "target.jpg" unnamed_options
  = (inl (TypeError "book.image.trim is not a function"), 3%nat) /\
  run_findSimilarCovers images3 catalogue3 "key" "target.jpg" impatient_options
  = (inl (OtherError "enough"), 6%nat).
Proof. split; vm_compute; reflexivity. Qed.

Lemma findSimilarCovers_failures_witness :
  calculateHash new_ImageHash import_wasm (fetch_image images3) (JString "target.jpg") 0%nat
  = (inl (ApiError 500 "Internal Server Error"), 5%nat) \/
  (exists targetHash w1 method1 w2,
      calculateHash new_ImageHash import_wasm (fetch_image images3)
                    (JString "target.jpg") 0%nat
      = (inr targetHash, w1) /\
      titleSearch toLowerCase "key" (fetch_books catalogue_down)
                  (imageName_of dune_options) w1
      = (inr ([], method1), w2) /\
      getBooksWithCovers "key" (fetch_books catalogue_down)
                         (query_of dune_options) (maxResults_of dune_options) w2
      = (inl (ApiError 500 "Internal Server Error"), 5%nat) /\
      ((JsString.truthy "key" = false /\
        ApiError 500 "Internal Server Error" = ConfigurationError) \/
       (JsString.truthy "key" = true /\
        ((exists st txt, ApiError 500 "Internal Server Error" = ApiError st txt) \/
         (exists reason, ApiError 500 "Internal Server Error" = Rejected reason) \/
         (exists m, ApiError 500 "Internal Server Error" = TypeError m))))) \/
  (exists callback i total t w0,
      onProgress dune_options = Some callback /\
      callback i total t w0 = (inl (ApiError 500 "Internal Server Error"), 5%nat)).
Proof.
  apply (proj1 (findSimilarCovers_failures _ toLowerCase _ _ new_ImageHash toHex
                  hash_hammingDistance "key" import_wasm (fetch_image images3)
                  (fetch_books catalogue_down))
               "target.jpg" dune_options 0%nat).
  vm_compute. reflexivity.
Defined.


(** The two variations of "The Hobbit" discover the book 9780000000010
    twice; the list keeps the record discovered first. *)
Example hobbit_found_twice :
  discovered "key" (fetch_books catalogue_hobbit)
             ["the hobbit"; "The Hobbit"; "hobbit"] 20 0%nat
  = [hobbit1; hobbit2; hobbit3; hobbit4] /\
  identifier hobbit3 = identifier hobbit1 /\
  run_searchBooksByTitle catalogue_hobbit "key" "The Hobbit"
  = (inr [hobbit1; hobbit2; hobbit4], 3%nat).
Proof. repeat split; vm_compute; reflexivity. Qed.

(** C7: two different books with a cover and without any ISBN, found by
    one search: the list keeps the first one only, because the absent
    identifier of the first is remembered as seen. *)
Theorem unidentified_books_share_a_key :
  has_cover pamphlet1 = inr true /\ has_cover pamphlet2 = inr true /\
  identifier pamphlet1 = undefined /\ identifier pamphlet2 = undefined /\
  pamphlet1 <> pamphlet2 /\
  run_searchBooksByTitle catalogue_pamphlets "key" "Dune" = (inr [pamphlet1], 2%nat).
Proof.
  repeat split; try (vm_compute; reflexivity). discriminate.
Qed.

(** C8: of three candidates the cover of the second cannot be fetched, so
    two Hamming distances are taken, and [totalCompared] is 3. *)
Theorem totalCompared_counts_skipped_books :
  titleSearch toLowerCase "key" (fetch_books catalogue3) "Dune.jpg" 2%nat
  = (inr (books3, "title-based"), 4%nat) /\
  comparedCount new_ImageHash import_wasm (fetch_image images_missing)
                None 0 3 books3 4%nat = 2%Z /\
  exists r w',
    run_findSimilarCovers images_missing catalogue3 "key" "target.jpg"
                          (options "Dune.jpg" 0 10) = (inr r, w') /\
    List.length (results r) = 2%nat /\
    totalCompared r = 3%Z.
Proof.
  split; [vm_compute; reflexivity|]. split; [vm_compute; reflexivity|].
  eexists. eexists. split; [vm_compute; reflexivity|]. split; reflexivity.
Qed.

(** C6, as stated, fails: for the empty title the returned array is empty;
    for a title of one space the normalized form is empty and differs from
    the original, and the array has the original as its only member. *)
Lemma getTitleVariations_members_counterexample :
  Translation.getTitleVariations toLowerCase "" = inr [] /\
  Translation.normalizeTitle toLowerCase " " = "" /\
  Translation.getTitleVariations toLowerCase " " = inr [" "].
Proof. repeat split; vm_compute; reflexivity. Qed.

Lemma getTitleVariations_members_witness :
  exists variations,
    Translation.getTitleVariations toLowerCase "My_Book" = inr variations /\
    (Translation.normalizeTitle toLowerCase "My_Book" <> "" ->
     In (Translation.normalizeTitle toLowerCase "My_Book") variations) /\
    ("My_Book" <> "" -> In "My_Book" variations) /\
    ~ In "" variations /\
    ("My_Book" <> "" -> variations <> []) /\
    (Translation.normalizeTitle toLowerCase "My_Book" <> "" ->
     "My_Book" <> "" ->
     "My_Book" <> Translation.normalizeTitle toLowerCase "My_Book" ->
     (2 <= List.length variations)%nat).
Proof.
  apply (getTitleVariations_members toLowerCase toLowerCase_lowers "My_Book").
  vm_compute. discriminate.
Defined.

(** A title whose normalized form names an inherited property of the
    translation table makes the call throw, also when it ends in a
    no-break space. *)
Example getTitleVariations_constructor :
  Translation.getTitleVariations toLowerCase "Constructor"
  = inl (TypeError "COMMON_TRANSLATIONS[lowerTitle].forEach is not a function") /\
  Translation.getTitleVariations toLowerCase ("constructor" ++ [160%N])
  = inl (TypeError "COMMON_TRANSLATIONS[lowerTitle].forEach is not a function").
Proof. split; vm_compute; reflexivity. Qed.

(** White space and letters outside ASCII: a no-break space and an em
    space are white space, and the accented capital is lower-cased. *)
Example unicode_titles :
  Translation.normalizeTitle toLowerCase ([160%N] ++ "My" ++ [160%N; 8195%N] ++ "Book")
  = "my book" /\
  Translation.extractBookTitle ("My" ++ [8195%N] ++ "Book" ++ [160%N] ++ ".JPG")
  = "My Book" /\
  Translation.getTitleVariations toLowerCase "ÉCOLE" = inr ["école"; "ÉCOLE"] /\
  JsString.length "école" = 5%nat.
Proof. repeat split; vm_compute; reflexivity. Qed.

(** The title-based search visits the records of an answer up to the one
    whose image is a number, and goes on with the next variation: the
    record after it is not visited. *)
Example searchBooksByTitle_malformed :
  covered hobbit2 = true /\
  run_searchBooksByTitle catalogue_malformed "key" "Dune" = (inr [hobbit1], 2%nat).
Proof. split; vm_compute; reflexivity. Qed.

End ScenarioFacts.
(* ===================================================================== *)
(** ** Further facts about sorting and the similarity score *)
(* ===================================================================== *)

Module RankingFacts.

Import JsArray JsNumber Isbndb Notions ArrayFacts ScoreFacts.
Local Open Scope list_scope.

Lemma insert_Permutation (x : Comparison) (l : list Comparison) :
  Permutation (insert bySimilarity x l) (x :: l).
Proof.
  induction l as [|y l IH]; simpl; [reflexivity|].
  destruct (negative (bySimilarity y x)); [|reflexivity].
  rewrite IH. apply perm_swap.
Qed.

Lemma sort_Permutation (l : list Comparison) : Permutation (sort bySimilarity l) l.
Proof.
  induction l as [|x l IH]; simpl; [reflexivity|].
  rewrite insert_Permutation. now constructor.
Qed.

(** The comparisons stored with the similarity [q]. *)
Lemma insert_keeps_ties (q : Q) (x : Comparison) (l : list Comparison) :
  filter (fun c => Qeq_bool (similarity c) q) (insert bySimilarity x l)
  = filter (fun c => Qeq_bool (similarity c) q) (x :: l).
Proof.
  induction l as [|y l IH]; [reflexivity|].
  cbn [insert]. destruct (negative (bySimilarity y x)) eqn:E; [|reflexivity].
  apply negative_true in E. unfold bySimilarity in E.
  cbn [filter] in *. rewrite IH.
  destruct (Qeq_bool (similarity y) q) eqn:Ey; [|reflexivity].
  destruct (Qeq_bool (similarity x) q) eqn:Ex; [|reflexivity].
  apply Qeq_bool_iff in Ex, Ey. exfalso. lra.
Qed.

(** X1: [comparisons.sort((a, b) => b.similarity - a.similarity)] only
    reorders the comparisons, and is stable: the comparisons stored with
    one and the same similarity keep the order in which they were
    discovered. *)
Theorem sort_bySimilarity_stable (l : list Comparison) :
  Permutation (sort bySimilarity l) l /\
  forall q : Q,
    filter (fun c => Qeq_bool (similarity c) q) (sort bySimilarity l)
    = filter (fun c => Qeq_bool (similarity c) q) l.
Proof.
  split; [apply sort_Permutation|].
  intros q. induction l as [|x l IH]; [reflexivity|].
  cbn [sort]. rewrite insert_keeps_ties. cbn [filter]. now rewrite IH.
Qed.

Lemma StronglySorted_firstn_skipn {A} (R : A -> A -> Prop) (n : nat) (l : list A) :
  StronglySorted R l ->
  forall a b, In a (firstn n l) -> In b (skipn n l) -> R a b.
Proof.
  intros H. revert n. induction H as [|x l Hl IH Hx]; intros n a b Ha Hb.
  - destruct n; contradiction.
  - destruct n as [|n]; [contradiction|]. simpl in Ha, Hb.
    destruct Ha as [<-|Ha].
    + rewrite Forall_forall in Hx. apply Hx.
      rewrite <- (firstn_skipn n l). apply in_or_app. now right.
    + exact (IH n a b Ha Hb).
Qed.

(** X2: [sort(...).slice(0, topN)] keeps the best: for a topN that is not
    negative, the comparisons are the kept ones together with the dropped
    ones, and no dropped comparison has a higher stored similarity than a
    kept one. *)
Theorem slice_keeps_the_best (l : list Comparison) (topN : Z) :
  (0 <= topN)%Z ->
  exists dropped,
    Permutation (slice0 (sort bySimilarity l) topN ++ dropped) l /\
    (Z.of_nat (List.length dropped)
     = Z.max 0 (Z.of_nat (List.length l) - topN))%Z /\
    forall kept_one dropped_one,
      In kept_one (slice0 (sort bySimilarity l) topN) ->
      In dropped_one dropped ->
      (similarity dropped_one <= similarity kept_one)%Q.
Proof.
  intros Hn. unfold slice0.
  destruct (Z.ltb_spec topN 0) as [Hneg|_]; [lia|].
  set (n := Z.to_nat (Z.min topN (Z.of_nat (List.length (sort bySimilarity l))))).
  exists (skipn n (sort bySimilarity l)). split; [|split].
  - rewrite firstn_skipn. apply sort_Permutation.
  - rewrite length_skipn. unfold n.
    rewrite (Permutation_length (sort_Permutation l)). lia.
  - intros a b Ha Hb.
    exact (StronglySorted_firstn_skipn descending n _ (sort_descending l) a b Ha Hb).
Qed.

(** The stored similarity falls strictly as the Hamming distance grows. *)
Lemma rounded_similarity_decreasing (d1 d2 : Z) :
  (d1 < d2)%Z -> (rounded (similarityOf d2) < rounded (similarityOf d1))%Q.
Proof.
  intros H. unfold rounded, similarityOf, maxDistance.
  destruct (Math_round_bounds ((1 - inject_Z d1 / inject_Z (8 * 8)) * 100 * 100)) as [L1 _].
  destruct (Math_round_bounds ((1 - inject_Z d2 / inject_Z (8 * 8)) * 100 * 100)) as [_ U2].
  assert (Hd : (inject_Z d1 + 1 <= inject_Z d2)%Q).
  { change 1%Q with (inject_Z 1). rewrite <- inject_Z_plus, <- Zle_Qle. lia. }
  change (inject_Z (8 * 8)) with 64%Q in *.
  unfold Qdiv in *. change (/ 64)%Q with (1 # 64)%Q in *.
  change (/ 100)%Q with (1 # 100)%Q. lra.
Qed.

(** X3: for a Hamming distance between 0 and 64 the stored similarity lies
    between 0 and 100, and a greater distance always gives a strictly lower
    stored similarity: rounding never merges two distances. *)
Theorem stored_similarity_range_and_order (d1 d2 : Z) :
  (0 <= d1 <= 64)%Z ->
  (0 <= rounded (similarityOf d1) <= 100)%Q /\
  ((d1 < d2)%Z -> (rounded (similarityOf d2) < rounded (similarityOf d1))%Q).
Proof.
  intros [Hlo Hhi]. split; [|apply rounded_similarity_decreasing].
  assert (H0 : (rounded (similarityOf 64) == 0)%Q) by reflexivity.
  assert (H100 : (rounded (similarityOf 0) == 100)%Q) by reflexivity.
  split.
  - destruct (Z.eq_dec d1 64) as [->|Hne]; [rewrite H0; lra|].
    rewrite <- H0. apply Qlt_le_weak, rounded_similarity_decreasing. lia.
  - destruct (Z.eq_dec d1 0) as [->|Hne]; [rewrite H100; lra|].
    rewrite <- H100. apply Qlt_le_weak, rounded_similarity_decreasing. lia.
Qed.

End RankingFacts.

(* ===================================================================== *)
(** ** Further properties of the search pipeline *)
(* ===================================================================== *)

Module PipelineExtras.

Import Async AsyncFacts JsArray JsNumber Isbndb Notions ArrayFacts ScoreFacts ValueFacts.
Import PipelineFacts RankingFacts.
Local Open Scope jstring_scope.
Local Open Scope list_scope.

(** *** Subsequences *)

Lemma Subseq_In {A} (l1 l2 : list A) (x : A) : Subseq l1 l2 -> In x l1 -> In x l2.
Proof.
  induction 1 as [|y l1 l2 H IH|y l1 l2 H IH]; simpl; intros Hx; intuition.
Qed.

Lemma Subseq_map {A B} (f : A -> B) (l1 l2 : list A) :
  Subseq l1 l2 -> Subseq (map f l1) (map f l2).
Proof. induction 1; simpl; now constructor. Qed.

Lemma Subseq_NoDup {A} (l1 l2 : list A) : Subseq l1 l2 -> NoDup l2 -> NoDup l1.
Proof.
  induction 1 as [|y l1 l2 H IH|y l1 l2 H IH]; intros Hnd.
  - constructor.
  - inversion Hnd; subst. constructor; [|now apply IH].
    intros Hin. now apply (Subseq_In _ _ _ H) in Hin.
  - inversion Hnd; subst. now apply IH.
Qed.

Lemma Subseq_refl {A} (l : list A) : Subseq l l.
Proof. induction l; now constructor. Qed.

Lemma Subseq_nil_l {A} (l : list A) : Subseq [] l.
Proof. induction l; now constructor. Qed.

Lemma Subseq_length {A} (l1 l2 : list A) :
  Subseq l1 l2 -> (List.length l1 <= List.length l2)%nat.
Proof. induction 1; simpl; lia. Qed.

Lemma Subseq_filter {A} (f : A -> bool) (l : list A) : Subseq (filter f l) l.
Proof.
  induction l as [|x l IH]; simpl; [constructor|].
  destruct (f x); now constructor.
Qed.

Lemma Subseq_firstn {A} (n : nat) (l : list A) : Subseq (firstn n l) l.
Proof.
  revert n. induction l as [|x l IH]; intros [|n]; simpl; try constructor.
  - apply Subseq_nil_l.
  - apply IH.
Qed.

Lemma Subseq_Forall {A} (P : A -> Prop) (l1 l2 : list A) :
  Subseq l1 l2 -> Forall P l2 -> Forall P l1.
Proof.
  intros Hs H. rewrite Forall_forall in *. intros x Hx.
  apply H. exact (Subseq_In _ _ _ Hs Hx).
Qed.

Lemma Subseq_trans {A} (l1 l2 l3 : list A) : Subseq l1 l2 -> Subseq l2 l3 -> Subseq l1 l3.
Proof.
  intros H12 H23. revert l1 H12.
  induction H23 as [|x l2 l3 H IH|x l2 l3 H IH]; intros l1 H12.
  - exact H12.
  - inversion H12; subst; constructor; now apply IH.
  - constructor. now apply IH.
Qed.

Lemma covered_has_cover (b : Book) : covered b = true <-> has_cover b = inr true.
Proof.
  unfold covered. destruct (has_cover b) as [e|[|]]; split; congruence.
Qed.

(** A record with a cover has a string that is not blank for an image. *)
Lemma has_cover_image (b : Book) :
  has_cover b = inr true -> exists s, image b = JString s /\ JsString.trim s <> "".
Proof.
  unfold has_cover. destruct (image b) as [| |x|x|s|x]; simpl;
    try discriminate;
    try (match goal with |- (if ?c then _ else _) = _ -> _ => destruct c end; discriminate).
  intros H. inversion H as [Hc]. exists s. split; [reflexivity|].
  apply andb_true_iff in Hc. destruct Hc as [_ Hc].
  apply negb_true_iff in Hc. now apply eqb_neq in Hc.
Qed.

Lemma filter_covers_kept (items : list (option Book)) (kept : list Book) :
  filter_covers items = inr kept -> Forall (fun b => has_cover b = inr true) kept.
Proof.
  revert kept. induction items as [|item rest IH]; intros kept; simpl.
  - intros H. inversion H. constructor.
  - destruct (with_cover item) as [e|keep] eqn:E; [discriminate|].
    destruct (filter_covers rest) as [e|kept']; [discriminate|].
    intros H. inversion H; subst. clear H.
    destruct item as [b|]; [|now apply IH].
    destruct keep; [|now apply IH].
    constructor; [exact E | now apply IH].
Qed.

Section Platform.

Variable World : Type.
Variable toLowerCase : jstring -> jstring.
Variable ImageHash : Type.
Variable Bytes : Type.
Variable new_ImageHash : Bytes -> jstring + ImageHash.
Variable toHex : ImageHash -> jstring.
Variable hash_hammingDistance : ImageHash -> ImageHash -> Z.
Variable ISBNDB_API_KEY : jstring.
Variable import_wasm : World -> (jstring + unit) * World.
Variable fetch_image : JsVal -> World -> (jstring + Response Bytes) * World.
Variable fetch_books :
  jstring -> Z -> Z -> World -> (jstring + Response Document) * World.

Local Notation calculateHash :=
  (Isbndb.calculateHash new_ImageHash import_wasm fetch_image).
Local Notation searchBooks := (Isbndb.searchBooks ISBNDB_API_KEY fetch_books).
Local Notation getBooksWithCovers :=
  (Isbndb.getBooksWithCovers ISBNDB_API_KEY fetch_books).
Local Notation searchVariations :=
  (Isbndb.searchVariations ISBNDB_API_KEY fetch_books).
Local Notation searchBooksByTitle :=
  (Isbndb.searchBooksByTitle toLowerCase ISBNDB_API_KEY fetch_books).
Local Notation titleSearch := (Isbndb.titleSearch toLowerCase ISBNDB_API_KEY fetch_books).
Local Notation getTitleVariations := (Translation.getTitleVariations toLowerCase).
Local Notation hashed := (Notions.hashed new_ImageHash import_wasm fetch_image).
Local Notation compares := (Notions.compares toHex hash_hammingDistance).
Local Notation qualifies := (Notions.qualifies hash_hammingDistance).
Local Notation genericSearch := (Isbndb.genericSearch ISBNDB_API_KEY fetch_books).
Local Notation compareBook :=
  (Isbndb.compareBook new_ImageHash toHex hash_hammingDistance import_wasm fetch_image).
Local Notation compareBooks :=
  (Isbndb.compareBooks new_ImageHash toHex hash_hammingDistance import_wasm fetch_image).
Local Notation findSimilarCovers :=
  (Isbndb.findSimilarCovers toLowerCase new_ImageHash toHex hash_hammingDistance
                            ISBNDB_API_KEY import_wasm fetch_image fetch_books).
Local Notation comparedCount :=
  (Notions.comparedCount new_ImageHash import_wasm fetch_image).
Local Notation discovered := (Notions.discovered ISBNDB_API_KEY fetch_books).

Lemma bind_continue {A B} (c : M World A) (f : A -> M World B) (w w1 : World) (a : A) :
  c w = (inr a, w1) -> bind c f w = f a w1.
Proof. unfold bind. now intros ->. Qed.

(** *** The title-based search *)

(** X4: [searchBooksByTitle] throws only what [getTitleVariations] throws,
    before any request is made; an error of a catalogue search, the missing
    API key included, never leaves it: for every title with variations it
    returns a list. *)
Theorem searchBooksByTitle_errors title maxResultsPerQuery w :
  (forall e w',
      searchBooksByTitle title maxResultsPerQuery w = (inl e, w') <->
      getTitleVariations title = inl e /\ w' = w) /\
  (forall variations,
      getTitleVariations title = inr variations ->
      exists allBooks w',
        searchBooksByTitle title maxResultsPerQuery w = (inr allBooks, w')).
Proof.
  unfold Isbndb.searchBooksByTitle, lift, bind at 1.
  destruct (getTitleVariations title) as [err|variations] eqn:E.
  - split.
    + intros e w'. split.
      * intros H. inversion H; subst. auto.
      * intros [H ->]. inversion H; subst. reflexivity.
    + intros variations H. discriminate.
  - destruct (searchVariations_returns World ISBNDB_API_KEY fetch_books
                variations maxResultsPerQuery ([], []) w) as (w1 & Hrun).
    unfold bind. rewrite Hrun. split.
    + intros e w'. split; [discriminate | intros [H _]; discriminate].
    + intros vs _. eexists. eexists. reflexivity.
Qed.

Lemma unique_identifiers (l : list Book) :
  (forall k, (List.length (filter (has_identifier k) l) <= 1)%nat) ->
  NoDup (map identifier l).
Proof.
  induction l as [|b l IH]; intros H; simpl; constructor.
  - intros Hin. apply in_map_iff in Hin. destruct Hin as (b' & Hid & Hb').
    specialize (H (identifier b)). simpl in H.
    unfold has_identifier at 1 in H.
    rewrite (proj2 (JsVal_eqb_eq _ _) eq_refl) in H. simpl in H.
    assert (Hin : In b' (filter (has_identifier (identifier b)) l)).
    { apply filter_In. split; [exact Hb'|]. now apply JsVal_eqb_eq. }
    destruct (filter (has_identifier (identifier b)) l); [contradiction | simpl in H; lia].
  - apply IH. intros k. specialize (H k). simpl in H.
    destruct (has_identifier k b); simpl in H; lia.
Qed.

Lemma searchBooksByTitle_kept title maxResultsPerQuery w allBooks w' :
  searchBooksByTitle title maxResultsPerQuery w = (inr allBooks, w') ->
  Forall (fun b => has_cover b = inr true) allBooks /\
  NoDup (map identifier allBooks) /\
  exists variations,
    getTitleVariations title = inr variations /\
    Subseq allBooks (discovered variations maxResultsPerQuery w).
Proof.
  unfold Isbndb.searchBooksByTitle. intros H.
  apply bind_returns in H. destruct H as (variations & w0 & Hvars & H).
  unfold lift in Hvars. inversion Hvars; subst w0.
  apply bind_returns in H. destruct H as (st & w1 & Hloop & H).
  inversion H; subst. clear H.
  destruct (searchVariations_returns World ISBNDB_API_KEY fetch_books
              variations maxResultsPerQuery ([], []) w) as (w2 & Hrun).
  rewrite Hrun in Hloop. inversion Hloop; subst. clear Hloop.
  destruct (keep_all (discovered variations maxResultsPerQuery w) [] [])
    as (kept & Heq & Hsub & Hk).
  rewrite Heq. simpl fst.
  split; [|split].
  - apply (Subseq_Forall _ _ _ Hsub). apply Forall_forall.
    intros b Hb. apply filter_In in Hb. now apply covered_has_cover.
  - apply unique_identifiers. intros k. rewrite Hk. simpl.
    destruct (filter (has_identifier k) (filter covered _)); simpl; lia.
  - exists variations. split; [assumption|].
    exact (Subseq_trans _ _ _ Hsub (Subseq_filter _ _)).
Qed.

(** X5: every book returned by [searchBooksByTitle] has a cover image, the
    books are listed in the order of discovery, and no two of them have the
    same identifier [isbn13 || isbn]. *)
Theorem searchBooksByTitle_candidates title maxResultsPerQuery w allBooks w' :
  searchBooksByTitle title maxResultsPerQuery w = (inr allBooks, w') ->
  Forall (fun b => has_cover b = inr true) allBooks /\
  NoDup (map identifier allBooks) /\
  exists variations,
    getTitleVariations title = inr variations /\
    Subseq allBooks (discovered variations maxResultsPerQuery w).
Proof. apply searchBooksByTitle_kept. Qed.

(** *** The comparison loop *)

Lemma hashed_Subseq onProgress total books :
  forall i w, Subseq (map fst (hashed onProgress i total books w)) books.
Proof.
  induction books as [|b rest IH]; intros i w; cbn [Notions.hashed].
  - constructor.
  - destruct (notify onProgress i total b w) as [[e|u] w0]; [apply Subseq_nil_l|].
    destruct (calculateHash (image b) w0) as [[err|h] w1]; simpl.
    + constructor. apply IH.
    + constructor. apply IH.
Qed.

Lemma hashed_length onProgress total books :
  forall i w,
    Z.of_nat (List.length (hashed onProgress i total books w))
    = comparedCount onProgress i total books w.
Proof.
  induction books as [|b rest IH]; intros i w;
    cbn [Notions.hashed Notions.comparedCount]; [reflexivity|].
  destruct (notify onProgress i total b w) as [[e|u] w0]; [reflexivity|].
  destruct (calculateHash (image b) w0) as [[err|h] w1].
  - apply IH.
  - cbn [List.length]. rewrite <- IH. lia.
Qed.

(** The loop pushes, in order, at most one comparison for each book whose
    hash was computed, and the comparison describes that book. *)
Lemma compareBooks_pushes targetHash threshold method onProgress total books :
  forall i comparisons w comparisons' w',
    compareBooks targetHash threshold method onProgress i total books comparisons w
    = (inr comparisons', w') ->
    exists pushed_ compared,
      comparisons' = comparisons ++ pushed_ /\
      Subseq compared books /\
      Forall2 (fun c b => mb_title (book c) = title b /\
                          mb_image (book c) = image b /\
                          mb_isbn (book c) = identifier b)
              pushed_ compared /\
      (Z.of_nat (List.length pushed_) <= comparedCount onProgress i total books w)%Z.
Proof.
  intros i comparisons w comparisons' w' H.
  apply compareBooks_hashed in H. destruct H as (added & -> & Hall).
  exists added, (map fst (filter (qualifies targetHash threshold)
                                 (hashed onProgress i total books w))).
  split; [reflexivity|]. split; [|split].
  - exact (Subseq_trans _ _ _ (Subseq_map fst _ _ (Subseq_filter _ _))
                        (hashed_Subseq onProgress total books i w)).
  - clear -Hall. induction Hall as [|candidate c l l' ((Ht & Hi & Him & _) & _) _ IH];
      simpl; constructor; [|exact IH].
    auto.
  - rewrite <- hashed_length, <- (Forall2_length Hall).
    apply inj_le, Subseq_length, Subseq_filter.
Qed.

Lemma comparedCount_bound onProgress total books :
  forall i w, (0 <= comparedCount onProgress i total books w
               <= Z.of_nat (List.length books))%Z.
Proof.
  intros i w. rewrite <- hashed_length. split; [lia|].
  rewrite <- (length_map fst).
  apply inj_le, Subseq_length, hashed_Subseq.
Qed.

Lemma slice0_Subseq {A} (l : list A) (e : Z) : Subseq (slice0 l e) l.
Proof. unfold slice0. apply Subseq_firstn. Qed.

(** *** The returned object *)

(** The candidates of an invocation all have a cover image. *)
Lemma candidates_have_covers name query maxResults w1 books1 method1 w2 books method w3 :
  titleSearch name w1 = (inr (books1, method1), w2) ->
  genericSearch query maxResults (books1, method1) w2 = (inr (books, method), w3) ->
  Forall (fun b => has_cover b = inr true) books /\
  (method = "title-based" -> NoDup (map identifier books)) /\
  (method = "title-based" /\ books1 <> [] \/ books1 = [] /\ In method ["generic"; "none"]).
Proof.
  intros Htitle Hgeneric.
  assert (H1 : Forall (fun b => has_cover b = inr true) books1 /\
               NoDup (map identifier books1) /\
               (method1 = "title-based" \/ books1 = [])).
  { unfold Isbndb.titleSearch in Htitle.
    destruct (JsString.truthy name);
      [destruct (JsString.truthy (Translation.extractBookTitle name) && _)%bool|].
    - unfold try_catch, bind in Htitle.
      destruct (searchBooksByTitle (Translation.extractBookTitle name) 20 w1)
        as [[err|bs] w0] eqn:E; inversion Htitle; subst.
      + split; [constructor | split; [constructor | now right]].
      + destruct (searchBooksByTitle_kept _ _ _ _ _ E) as (Hc & Hn & _).
        split; [assumption | split; [assumption | now left]].
    - inversion Htitle; subst. split; [constructor | split; [constructor | now right]].
    - inversion Htitle; subst. split; [constructor | split; [constructor | now right]]. }
  destruct H1 as (Hcov & Hnd & Hm).
  apply genericSearch_returns in Hgeneric.
  destruct Hgeneric as [(Hne & -> & -> & ->) | (-> & Hg & ->)].
  - repeat split; try assumption; [intros _; exact Hnd|].
    left. destruct Hm as [Hm|Hm]; [now split | contradiction].
  - unfold Isbndb.getBooksWithCovers in Hg.
    apply bind_returns in Hg. destruct Hg as (bs & w0 & _ & Hg).
    destruct bs as [items|]; [|discriminate].
    unfold lift in Hg. inversion Hg as [[Hf Hw]]. split; [|split].
    + exact (filter_covers_kept _ _ Hf).
    + destruct (0 <? List.length books)%nat; discriminate.
    + right. split; [reflexivity|].
      destruct (0 <? List.length books)%nat; simpl; tauto.
Qed.

(** X6: in the object returned by [findSimilarCovers] the search method is
    'title-based', 'generic' or 'none' (never 'generic-fallback'); it is
    'none' exactly when no candidate was found ([totalCompared] is 0); and
    there are at most as many results as candidates. *)
Theorem findSimilarCovers_result_shape url options w r w' :
  findSimilarCovers url options w = (inr r, w') ->
  In (searchMethod r) ["title-based"; "generic"; "none"] /\
  (searchMethod r = "none" <-> totalCompared r = 0%Z) /\
  (0 <= Z.of_nat (List.length (results r)) <= totalCompared r)%Z.
Proof.
  intros H. apply findSimilarCovers_returns in H.
  destruct H as (targetHash & w1 & books1 & method1 & w2 & books & method & w3
                 & _ & Htitle & Hgeneric & Hcases).
  destruct (candidates_have_covers _ _ _ _ _ _ _ _ _ _ Htitle Hgeneric)
    as (_ & _ & Hmethod).
  destruct Hcases as [(-> & Hres & Htot & Hm & _) | (Hne & cs & Hloop & Hres & Htot & Hm)].
  - rewrite Hres, Htot, Hm. simpl. repeat split; auto; lia.
  - rewrite Hres, Htot, Hm.
    assert (Hpos : (0 < Z.of_nat (List.length books))%Z)
      by (destruct books; [contradiction | simpl; lia]).
    split; [|split].
    + destruct Hmethod as [[-> _]|[-> Hin]]; [simpl; tauto|].
      apply genericSearch_returns in Hgeneric.
      destruct Hgeneric as [(Hc & _)|(_ & _ & ->)]; [contradiction|].
      destruct books; [contradiction|]. simpl. tauto.
    + split; [|lia]. intros Hnone.
      destruct Hmethod as [[-> _]|[-> _]]; [discriminate|].
      apply genericSearch_returns in Hgeneric.
      destruct Hgeneric as [(Hc & _)|(_ & _ & Hmm)]; [contradiction|].
      destruct books; [contradiction|]. simpl in Hmm. congruence.
    + apply compareBooks_pushes in Hloop.
      destruct Hloop as (pushed_ & compared & -> & _ & _ & Hlen).
      pose proof (comparedCount_bound (onProgress options)
                    (Z.of_nat (List.length books)) books 0%Z w3) as Hb.
      pose proof (Subseq_length _ _ (slice0_Subseq (sort bySimilarity ([] ++ pushed_))
                                       (topN_of options))) as Hs.
      rewrite (Permutation_length (sort_Permutation _)) in Hs. cbn [app] in *. lia.
Qed.

(** X7: every result of [findSimilarCovers] shows a book with a cover
    image (a string that is not blank), and when the search method is
    'title-based' no two results carry the same ISBN. *)
Theorem results_have_covers url options w r w' :
  findSimilarCovers url options w = (inr r, w') ->
  Forall (fun c => exists s, mb_image (book c) = JString s /\
                             JsString.trim s <> "")
         (results r) /\
  (searchMethod r = "title-based" ->
   NoDup (map (fun c => mb_isbn (book c)) (results r))).
Proof.
  intros H. apply findSimilarCovers_returns in H.
  destruct H as (targetHash & w1 & books1 & method1 & w2 & books & method & w3
                 & _ & Htitle & Hgeneric & Hcases).
  destruct (candidates_have_covers _ _ _ _ _ _ _ _ _ _ Htitle Hgeneric)
    as (Hcov & Hnd & _).
  destruct Hcases as [(-> & Hres & Htot & Hm & _) | (Hne & cs & Hloop & Hres & Htot & Hm)].
  - rewrite Hres. split; [constructor | intros _; constructor].
  - apply compareBooks_pushes in Hloop.
    destruct Hloop as (pushed_ & compared & -> & Hsub & Hall & _). simpl in Hres.
    assert (Himg : Forall (fun c => exists s, mb_image (book c) = JString s /\
                                              JsString.trim s <> "") pushed_).
    { pose proof (Subseq_Forall _ _ _ Hsub Hcov) as Hc.
      clear -Hall Hc. induction Hall as [|c b cs bs (_ & Hi & _) Hrest IH]; constructor.
      - inversion Hc; subst. rewrite Hi. now apply has_cover_image.
      - apply IH. now inversion Hc. }
    assert (Hids : map (fun c => mb_isbn (book c)) pushed_ = map identifier compared).
    { clear -Hall. induction Hall as [|c b cs bs (_ & _ & Hi) Hrest IH]; simpl;
        [reflexivity | now rewrite Hi, IH]. }
    rewrite Hres. split.
    + apply slice0_Forall, sort_Forall. exact Himg.
    + rewrite Hm. intros Htb. specialize (Hnd Htb).
      apply (Subseq_NoDup _ _ (Subseq_map _ _ _ (slice0_Subseq _ _))).
      apply (Permutation_NoDup
               (Permutation_sym (Permutation_map _ (sort_Permutation pushed_)))).
      rewrite Hids. exact (Subseq_NoDup _ _ (Subseq_map identifier _ _ Hsub) Hnd).
Qed.

(** *** Without an API key *)

Lemma searchBooks_no_key query page pageSize w :
  JsString.truthy ISBNDB_API_KEY = false ->
  searchBooks query page pageSize w = (inl ConfigurationError, w).
Proof. unfold Isbndb.searchBooks. now intros ->. Qed.

Lemma searchVariations_no_key variations maxResultsPerQuery st w :
  JsString.truthy ISBNDB_API_KEY = false ->
  searchVariations variations maxResultsPerQuery st w = (inr st, w).
Proof.
  intros Hkey. induction variations as [|v rest IH]; simpl; [reflexivity|].
  unfold Isbndb.searchVariation.
  rewrite (searchBooks_no_key _ _ _ _ Hkey). exact IH.
Qed.

Lemma titleSearch_no_key name w :
  JsString.truthy ISBNDB_API_KEY = false ->
  exists method, titleSearch name w = (inr ([], method), w).
Proof.
  intros Hkey. unfold Isbndb.titleSearch.
  destruct (JsString.truthy name);
    [destruct (JsString.truthy (Translation.extractBookTitle name) && _)%bool|];
    try (now exists "generic").
  unfold try_catch, bind at 1, Isbndb.searchBooksByTitle, bind at 1, lift.
  destruct (Translation.getTitleVariations _ _) as [err|variations].
  - now exists "generic-fallback".
  - unfold bind. rewrite (searchVariations_no_key _ _ _ _ Hkey). now exists "title-based".
Qed.

(** X8: without an API key no catalogue request is made: [searchBooks]
    throws the configuration error in the world it was called in, the
    title-based search swallows it and returns the empty list, and
    [findSimilarCovers], once the hash of the target is computed, throws the
    configuration error in the world the hash computation left. *)
Theorem no_key_no_request :
  JsString.truthy ISBNDB_API_KEY = false ->
  (forall query page pageSize w,
      searchBooks query page pageSize w = (inl ConfigurationError, w)) /\
  (forall title maxResultsPerQuery w variations,
      getTitleVariations title = inr variations ->
      searchBooksByTitle title maxResultsPerQuery w = (inr [], w)) /\
  (forall url options w targetHash w1,
      calculateHash (JString url) w = (inr targetHash, w1) ->
      findSimilarCovers url options w = (inl ConfigurationError, w1)).
Proof.
  intros Hkey. split; [|split].
  - intros. now apply searchBooks_no_key.
  - intros title n w variations Hv.
    unfold Isbndb.searchBooksByTitle, bind at 1, lift. rewrite Hv.
    unfold bind. now rewrite (searchVariations_no_key _ _ _ _ Hkey).
  - intros url options w targetHash w1 Hhash.
    unfold Isbndb.findSimilarCovers.
    rewrite (bind_continue _ _ _ _ _ Hhash).
    destruct (titleSearch_no_key (default "" (imageName options)) w1 Hkey)
      as (method & Htitle).
    rewrite (bind_continue _ _ _ _ _ Htitle).
    unfold bind at 1, Isbndb.genericSearch. cbn [List.length Nat.eqb].
    unfold bind at 1, Isbndb.getBooksWithCovers, bind at 1.
    now rewrite (searchBooks_no_key _ _ _ _ Hkey).
Qed.

(** *** When a result is returned *)

(** X9: with a progress callback that returns, [findSimilarCovers] returns
    a result whenever the hash of the target image is computed and either
    the title-based search hands on a candidate or the generic search
    returns; no failure of a candidate cover can prevent it. *)
Theorem findSimilarCovers_returns_when url options w targetHash w1 books1 method1 w2 :
  returns (onProgress options) ->
  calculateHash (JString url) w = (inr targetHash, w1) ->
  titleSearch (imageName_of options) w1 = (inr (books1, method1), w2) ->
  (books1 <> [] \/
   exists books w3,
     getBooksWithCovers (query_of options) (maxResults_of options) w2 = (inr books, w3)) ->
  exists r w', findSimilarCovers url options w = (inr r, w').
Proof.
  intros Hreturns Hhash Htitle Hcandidates.
  unfold Isbndb.findSimilarCovers.
  rewrite (bind_continue _ _ _ _ _ Hhash).
  fold (imageName_of options). rewrite (bind_continue _ _ _ _ _ Htitle).
  assert (Hgen : exists books method w3,
             genericSearch (default "fiction" (query options))
                           (default 50%Z (maxResults options)) (books1, method1) w2
             = (inr (books, method), w3)).
  { unfold Isbndb.genericSearch.
    destruct (List.length books1 =? 0)%nat eqn:E.
    - apply length_eqb_0 in E.
      destruct Hcandidates as [Hne|(books & w3 & Hg)]; [contradiction|].
      unfold query_of, maxResults_of in Hg.
      rewrite (bind_continue _ _ _ _ _ Hg). eexists. eexists. eexists. reflexivity.
    - eexists. eexists. eexists. reflexivity. }
  destruct Hgen as (books & method & w3 & Hgen).
  rewrite (bind_continue _ _ _ _ _ Hgen).
  destruct (List.length books =? 0)%nat.
  - eexists. eexists. reflexivity.
  - match goal with
    | |- context [Isbndb.compareBooks _ _ _ _ _ ?th ?thr ?m ?cb ?i ?tot ?bs ?cs] =>
        destruct (compareBooks_total World ImageHash Bytes new_ImageHash toHex
                    hash_hammingDistance import_wasm fetch_image
                    th thr m cb tot bs Hreturns i cs w3) as (cs' & w4 & Hloop)
    end.
    rewrite (bind_continue _ _ _ _ _ Hloop). eexists. eexists. reflexivity.
Qed.

(** X10: the returned search method is 'title-based' exactly when the
    title-based search handed on at least one candidate; then the generic
    query is not used and [totalCompared] is the number of those
    candidates. *)
Theorem title_based_iff_candidates url options w r w' targetHash w1 books1 method1 w2 :
  findSimilarCovers url options w = (inr r, w') ->
  calculateHash (JString url) w = (inr targetHash, w1) ->
  titleSearch (imageName_of options) w1 = (inr (books1, method1), w2) ->
  (searchMethod r = "title-based" <-> books1 <> []) /\
  (books1 <> [] -> totalCompared r = Z.of_nat (List.length books1)).
Proof.
  intros H Hhash Htitle.
  apply findSimilarCovers_returns in H.
  destruct H as (targetHash' & w1' & books1' & method1' & w2' & books & method & w3
                 & Hhash' & Htitle' & Hgeneric & Hcases).
  rewrite Hhash in Hhash'. inversion Hhash'; subst targetHash' w1'.
  rewrite Htitle in Htitle'. inversion Htitle'; subst books1' method1' w2'.
  destruct (candidates_have_covers _ _ _ _ _ _ _ _ _ _ Htitle Hgeneric)
    as (_ & _ & Hmethod).
  pose proof Hgeneric as Hg. apply genericSearch_returns in Hg.
  destruct Hcases as [(-> & _ & _ & Hm & _) | (Hne & cs & _ & _ & Htot & Hm)].
  - destruct Hg as [(Hc & He & _)|(-> & _)]; [congruence|].
    rewrite Hm. split; [split; [discriminate | congruence] | congruence].
  - rewrite Hm, Htot.
    destruct Hg as [(Hc & -> & -> & _)|(-> & _ & ->)].
    + destruct Hmethod as [[-> _]|[Hc' _]]; [|contradiction].
      split; [tauto | reflexivity].
    + split; [|congruence]. split; [|congruence].
      destruct (0 <? List.length books)%nat; discriminate.
Qed.

(** X11: the results of [findSimilarCovers] are also sorted by Hamming
    distance, closest cover first. *)
Theorem results_sorted_by_distance url options w r w' :
  findSimilarCovers url options w = (inr r, w') ->
  StronglySorted (fun a b => hammingDistance a <= hammingDistance b)%Z (results r).
Proof.
  intros H. destruct (findSimilarCovers_results _ _ _ _ _ _ _ _ _ _ _ _ _ _ _ _ H)
    as (Hsorted & Hall & _).
  induction Hsorted as [|a l Hl IH Ha]; constructor.
  - apply IH. now inversion Hall.
  - inversion Hall as [|? ? (Hsa & _) Hrest]; subst.
    rewrite Forall_forall in *. intros b Hb.
    specialize (Ha b Hb). destruct (Hrest b Hb) as (Hsb & _).
    unfold descending in Ha. rewrite Hsa, Hsb in Ha.
    destruct (Z_le_gt_dec (hammingDistance a) (hammingDistance b)) as [Hle|Hgt];
      [exact Hle|].
    exfalso. apply Z.gt_lt in Hgt.
    apply rounded_similarity_decreasing in Hgt. lra.
Qed.

End Platform.

End PipelineExtras.

(* ===================================================================== *)
(** ** The shape of normalized and extracted titles *)
(* ===================================================================== *)

Module TextFacts.

Import JsString Regex Translation Notions TextNotions RegexFacts ValueFacts TranslationFacts.
Local Open Scope jstring_scope.
Local Open Scope list_scope.

(** *** White space runs *)

Lemma drop_space_length (l : jstring) :
  (List.length (drop_space l) <= List.length l)%nat.
Proof.
  induction l as [|c l IH]; simpl; [lia|].
  destruct (is_space c); simpl; lia.
Qed.

Lemma drop_space_starts (l : jstring) : starts_with_space (drop_space l) = false.
Proof.
  induction l as [|c l IH]; simpl; [reflexivity|].
  destruct (is_space c) eqn:E; [exact IH | simpl; exact E].
Qed.

Lemma drop_space_fixed (l : jstring) : starts_with_space l = false -> drop_space l = l.
Proof. destruct l as [|c l]; simpl; [reflexivity | now intros ->]. Qed.

Lemma drop_space_Suffix (l : jstring) : Suffix (drop_space l) l.
Proof.
  induction l as [|c l IH]; simpl; [apply Suffix_refl|].
  destruct (is_space c); [now apply Suffix_cons | apply Suffix_refl].
Qed.

(** [\s*] followed by nothing takes the whole run of white space. *)
Lemma star_spaces (s : jstring) (prev : option unit16) :
  exists p',
    rmatch false (Star (Cls is_space)) prev s (fun p' s' => Some (p', s'))
    = Some (p', drop_space s).
Proof.
  simpl. remember (List.length s) as n eqn:Hn.
  assert (Hle : (List.length s <= n)%nat) by lia. clear Hn.
  revert prev s Hle. induction n as [|n IH]; intros prev s Hle.
  - destruct s; [|simpl in Hle; lia]. now exists prev.
  - destruct s as [|c s]; [now exists prev|].
    cbn [rmatch drop_space]. destruct (is_space c); [|now exists prev].
    simpl in Hle.
    destruct (Nat.ltb_spec (List.length s) (List.length (c :: s))) as [_|Hge];
      [|simpl in Hge; lia].
    destruct (IH (Some c) s ltac:(lia)) as (p' & ->). now exists p'.
Qed.

Lemma match_spaces (prev : option unit16) (s : jstring) :
  match s with
  | c :: s' =>
      if is_space c
      then exists p', match_here false re_spaces prev s = Some (p', drop_space s')
      else match_here false re_spaces prev s = None
  | [] => match_here false re_spaces prev s = None
  end.
Proof.
  destruct s as [|c s']; [reflexivity|].
  unfold match_here, re_spaces, Plus. cbn [rmatch].
  destruct (is_space c); [apply star_spaces | reflexivity].
Qed.

Lemma squeeze_in_run (l : jstring) :
  squeeze_from true l = squeeze_from false (drop_space l).
Proof.
  induction l as [|c l IH]; simpl; [reflexivity|].
  destruct (is_space c) eqn:E; [exact IH | simpl; now rewrite E].
Qed.

(** [replace(/\s+/g, ' ')] replaces every run of white space by a space. *)
Lemma replace_spaces (n : nat) :
  forall prev s,
    (List.length s < n)%nat ->
    replace_all_from false n re_spaces " " prev s = squeeze_from false s.
Proof.
  induction n as [|n IH]; intros prev s Hn; [lia|].
  cbn [replace_all_from].
  pose proof (match_spaces prev s) as Hm.
  destruct s as [|c s']; [now rewrite Hm|].
  simpl in Hn. cbn [squeeze_from]. destruct (is_space c).
  - destruct Hm as (p' & ->).
    pose proof (drop_space_length s') as Hd.
    destruct (Nat.ltb_spec (List.length (drop_space s')) (List.length (c :: s')))
      as [_|Hge]; [|simpl in Hge; lia].
    simpl. apply f_equal. rewrite IH by lia. now rewrite squeeze_in_run.
  - rewrite Hm. apply f_equal. apply IH. lia.
Qed.

Lemma chars_replace_spaces (s : jstring) :
  replaceAll re_spaces false " " s = squeeze_from false s.
Proof.
  unfold replaceAll. apply (replace_spaces (S (List.length s))). lia.
Qed.

Lemma squeeze_single_spaced (l : jstring) :
  forall in_run,
    single_spaced (squeeze_from in_run l) = true /\
    (in_run = true -> starts_with_space (squeeze_from in_run l) = false).
Proof.
  induction l as [|c l IH]; intros in_run; simpl; [auto|].
  destruct (is_space c) eqn:E.
  - destruct (IH true) as [H1 H2]. destruct in_run.
    + auto.
    + cbn [single_spaced starts_with_space]. rewrite H1, (H2 eq_refl).
      split; [reflexivity | discriminate].
  - destruct (IH false) as [H1 _]. cbn [single_spaced starts_with_space].
    rewrite E, H1. auto.
Qed.

Lemma squeeze_fixed (l : jstring) :
  single_spaced l = true -> squeeze_from false l = l.
Proof.
  induction l as [|c l IH]; [reflexivity|].
  cbn [single_spaced squeeze_from].
  intros H. apply andb_true_iff in H. destruct H as [Hc Hl].
  destruct (is_space c).
  - apply andb_true_iff in Hc. destruct Hc as [Hc Hs].
    apply N.eqb_eq in Hc. subst c. apply f_equal.
    rewrite squeeze_in_run, drop_space_fixed; [now apply IH|].
    now apply negb_true_iff in Hs.
  - apply f_equal. now apply IH.
Qed.

Lemma single_spaced_Suffix (l' l : jstring) :
  Suffix l' l -> single_spaced l = true -> single_spaced l' = true.
Proof.
  intros [pre ->]. induction pre as [|c pre IH]; simpl; [auto|].
  intros H. apply andb_true_iff in H. now apply IH.
Qed.

Lemma single_spaced_prefix (l t : jstring) :
  single_spaced (l ++ t) = true -> single_spaced l = true.
Proof.
  induction l as [|c l IH]; simpl; [reflexivity|].
  intros H. apply andb_true_iff in H. destruct H as [Hc Hl].
  rewrite (IH Hl), andb_true_r.
  destruct (is_space c); [|reflexivity].
  apply andb_true_iff in Hc. destruct Hc as [-> Hs]. simpl.
  destruct l; [reflexivity | exact Hs].
Qed.

(** *** Trimming *)

Lemma trim_shape (l : jstring) :
  let x := rev (drop_space (rev (drop_space l))) in
  starts_with_space x = false /\
  starts_with_space (rev x) = false /\
  (single_spaced l = true -> single_spaced x = true).
Proof.
  intros x. subst x.
  set (y := drop_space l).
  destruct (drop_space_Suffix (rev y)) as [pre Hpre].
  assert (Hy : y = rev (drop_space (rev y)) ++ rev pre).
  { rewrite <- rev_app_distr, <- Hpre. now rewrite rev_involutive. }
  split; [|split].
  - pose proof (drop_space_starts l) as Hs. fold y in Hs.
    destruct (rev (drop_space (rev y))) as [|c x'] eqn:E; [reflexivity|].
    rewrite Hy in Hs. exact Hs.
  - rewrite rev_involutive. apply drop_space_starts.
  - intros Hl. apply (single_spaced_prefix _ (rev pre)). rewrite <- Hy.
    exact (single_spaced_Suffix _ _ (drop_space_Suffix l) Hl).
Qed.

Lemma trim_fixed (l : jstring) :
  starts_with_space l = false -> starts_with_space (rev l) = false ->
  trim l = l.
Proof.
  intros H1 H2. unfold trim.
  rewrite (drop_space_fixed _ H1), (drop_space_fixed _ H2). now rewrite rev_involutive.
Qed.

Lemma forallb_Forall {A} (f : A -> bool) (l : list A) :
  forallb f l = true <-> Forall (fun x => f x = true) l.
Proof. rewrite forallb_forall, Forall_forall. tauto. Qed.

(** Collapsing the white space of a text without separators and trimming
    it gives a tidy text. *)
Lemma squeeze_trim_tidy (s : jstring) :
  forallb (fun c => negb (separator c)) s = true ->
  tidy (trim (replaceAll re_spaces false " " s)).
Proof.
  intros Hsep. unfold tidy.
  split; [|split; [|split]].
  - rewrite chars_replace_spaces. apply (trim_shape (squeeze_from false s)).
  - rewrite chars_replace_spaces. apply (trim_shape (squeeze_from false s)).
  - rewrite chars_replace_spaces. apply (trim_shape (squeeze_from false s)).
    apply (squeeze_single_spaced s false).
  - apply forallb_Forall, trim_Forall, replaceAll_Forall.
    + now repeat constructor.
    + now apply forallb_Forall.
Qed.

Lemma replace_separator_chars (s : jstring) :
  replaceAll re_separator false " " s
  = flat_map (fun c => if separator c then " " else [c]) s.
Proof.
  unfold replaceAll, re_separator.
  apply replace_all_from_class. lia.
Qed.

Lemma replace_separator_clean (s : jstring) :
  forallb (fun c => negb (separator c)) (replaceAll re_separator false " " s) = true.
Proof.
  rewrite replace_separator_chars.
  induction s as [|c l IH]; [reflexivity|].
  cbn [flat_map]. rewrite forallb_app. apply andb_true_iff. split; [|exact IH].
  destruct (separator c) eqn:E; [reflexivity|]. cbn [forallb]. now rewrite E.
Qed.

Lemma replace_separator_fixed (s : jstring) :
  forallb (fun c => negb (separator c)) s = true ->
  replaceAll re_separator false " " s = s.
Proof.
  intros H. rewrite replace_separator_chars.
  induction s as [|c l IH]; [reflexivity|].
  cbn [forallb] in H. apply andb_true_iff in H. destruct H as [Hc Hl].
  cbn [flat_map]. apply negb_true_iff in Hc. rewrite Hc. simpl. apply f_equal. now apply IH.
Qed.

Lemma constructor_inherited : get_translations "constructor" = Inherited.
Proof. vm_compute. reflexivity. Qed.

Section Engine.

Variable toLowerCase : jstring -> jstring.

Local Notation normalizeTitle := (Translation.normalizeTitle toLowerCase).
Local Notation getTitleVariations := (Translation.getTitleVariations toLowerCase).

(** *** Normalized and extracted titles *)

(** On a text whose lower-case form is tidy the separators, the white
    space and the ends are as [normalizeTitle] wants them. *)
Lemma normalizeTitle_tidy_text (s : jstring) :
  tidy (toLowerCase s) -> normalizeTitle s = toLowerCase s.
Proof.
  intros (H1 & H2 & H3 & H4).
  unfold Translation.normalizeTitle.
  rewrite (replace_separator_fixed _ H4).
  rewrite chars_replace_spaces, (squeeze_fixed _ H3).
  now apply trim_fixed.
Qed.

Lemma normalizeTitle_no_upper (title : jstring) :
  lowering toLowerCase ->
  Forall (fun c => is_upper c = false) (normalizeTitle title).
Proof.
  intros Hlow. unfold Translation.normalizeTitle.
  apply trim_Forall, replaceAll_Forall; [now repeat constructor|].
  apply replaceAll_Forall; [now repeat constructor|].
  apply Hlow.
Qed.

(** X12: a normalized title has no [_] and no [-], no white space at
    either end and only single spaces inside; it has no upper-case ASCII
    letter when [toLowerCase] leaves none; and a title whose lower-case
    form is of this shape is normalized to its lower-case form. *)
Theorem normalizeTitle_normal_form (title : jstring) :
  tidy (normalizeTitle title) /\
  (lowering toLowerCase -> Forall (fun c => is_upper c = false) (normalizeTitle title)) /\
  (tidy (toLowerCase title) -> normalizeTitle title = toLowerCase title).
Proof.
  split; [|split].
  - unfold Translation.normalizeTitle. apply squeeze_trim_tidy, replace_separator_clean.
  - apply normalizeTitle_no_upper.
  - apply normalizeTitle_tidy_text.
Qed.

(** *** The variations of a title *)

(** X14: when [toLowerCase] leaves no upper-case ASCII letter and adds no
    underscore, [getTitleVariations] throws exactly for the titles whose
    key in the translation table, the normalized title lower-cased once
    more, is "constructor"; and it throws a TypeError. *)
Theorem getTitleVariations_throws_iff (title : jstring) (e : Exn) :
  lowering toLowerCase ->
  (getTitleVariations title = inl e <->
   toLowerCase (normalizeTitle title) = "constructor" /\
   e = TypeError "COMMON_TRANSLATIONS[lowerTitle].forEach is not a function").
Proof.
  intros Hlow. split.
  - intros H.
    destruct (jstring_dec (toLowerCase (normalizeTitle title)) "constructor") as [Hc|Hc].
    + split; [exact Hc|]. unfold Translation.getTitleVariations in H.
      rewrite Hc, constructor_inherited in H. lazy beta iota zeta in H. congruence.
    + exfalso. apply (normalized_lookup toLowerCase Hlow) in Hc.
      unfold Translation.getTitleVariations in H.
      destruct (get_translations (toLowerCase (normalizeTitle title)));
        [discriminate | congruence | discriminate].
  - intros [Hc ->]. unfold Translation.getTitleVariations.
    rewrite Hc, constructor_inherited. reflexivity.
Qed.

Lemma add_NoDup (s : list jstring) (x : jstring) : NoDup s -> NoDup (add s x).
Proof.
  intros H. unfold add. destruct (has s x) eqn:E; [exact H|].
  apply NoDup_app; [exact H | repeat constructor; auto |].
  intros y Hy [<-|[]]. apply has_In in Hy. congruence.
Qed.

Lemma fold_add_NoDup (items s : list jstring) : NoDup s -> NoDup (fold_left add items s).
Proof.
  revert s. induction items as [|x items IH]; intros s H; simpl; [exact H|].
  now apply IH, add_NoDup.
Qed.

Lemma add_length (s : list jstring) (x : jstring) :
  (List.length (add s x) <= S (List.length s))%nat.
Proof.
  unfold add. destruct (has s x); [lia|]. rewrite length_app. simpl. lia.
Qed.

Lemma add_member (s : list jstring) (x : jstring) : In x s -> add s x = s.
Proof. intros H. unfold add. now rewrite (proj2 (has_In s x) H). Qed.

Lemma add_head (s : list jstring) (x y : jstring) :
  hd_error s = Some y -> hd_error (add s x) = Some y.
Proof.
  unfold add. destruct (has s x); [auto|]. destruct s; [discriminate | auto].
Qed.

Lemma fold_add_head (items s : list jstring) (y : jstring) :
  hd_error s = Some y -> hd_error (fold_left add items s) = Some y.
Proof.
  revert s. induction items as [|x items IH]; intros s H; simpl; [exact H|].
  now apply IH, add_head.
Qed.

Lemma new_Set_pair (normalized title : jstring) :
  NoDup (new_Set [normalized; title]) /\
  (List.length (new_Set [normalized; title]) <= 2)%nat /\
  hd_error (new_Set [normalized; title]) = Some normalized /\
  In normalized (new_Set [normalized; title]).
Proof.
  unfold new_Set. simpl. change (add [] normalized) with [normalized].
  repeat split.
  - apply add_NoDup. repeat constructor. auto.
  - pose proof (add_length [normalized] title). simpl in *. lia.
  - now apply add_head.
  - apply add_In. left. now left.
Qed.

(** The optional additions and the removal of empty strings keep the set a
    set, add at most one member each, and keep its first member. *)
Lemma variations_size (normalized withoutCommon withNumbers : jstring)
      (c1 c2 : bool) (translated : list jstring) :
  NoDup translated ->
  hd_error translated = Some normalized ->
  let step1 := if c1 then add translated withoutCommon else translated in
  let step2 := if c2 then add step1 withNumbers else step1 in
  let variations := filter (fun v => (0 <? length v)%nat) step2 in
  NoDup variations /\
  (List.length variations
   <= List.length translated + Nat.b2n c1 + Nat.b2n c2)%nat /\
  (normalized <> "" -> hd_error variations = Some normalized).
Proof.
  intros Hnd Hhd step1 step2 variations.
  assert (H1 : NoDup step1 /\ hd_error step1 = Some normalized /\
               (List.length step1 <= List.length translated + Nat.b2n c1)%nat).
  { unfold step1. destruct c1; simpl.
    - pose proof (add_length translated withoutCommon).
      repeat split; [now apply add_NoDup | now apply add_head | lia].
    - repeat split; try assumption. lia. }
  destruct H1 as (Hnd1 & Hhd1 & Hlen1).
  assert (H2 : NoDup step2 /\ hd_error step2 = Some normalized /\
               (List.length step2
                <= List.length translated + Nat.b2n c1 + Nat.b2n c2)%nat).
  { unfold step2. destruct c2; simpl.
    - pose proof (add_length step1 withNumbers).
      repeat split; [now apply add_NoDup | now apply add_head | lia].
    - repeat split; try assumption. lia. }
  destruct H2 as (Hnd2 & Hhd2 & Hlen2).
  split; [|split].
  - now apply NoDup_filter.
  - pose proof (filter_length_le (fun v => (0 <? length v)%nat) step2).
    unfold variations. lia.
  - intros Hne. unfold variations.
    destruct step2 as [|x rest]; [discriminate|].
    simpl in Hhd2. inversion Hhd2; subst x. simpl.
    now rewrite (nonempty_length _ Hne).
Qed.

Lemma variations_bounded (normalized withoutCommon withNumbers : jstring)
      (c1 c2 : bool) (translated : list jstring) :
  NoDup translated ->
  hd_error translated = Some normalized ->
  (List.length translated + Nat.b2n c1 + Nat.b2n c2 <= 5)%nat ->
  let step1 := if c1 then add translated withoutCommon else translated in
  let step2 := if c2 then add step1 withNumbers else step1 in
  let variations := filter (fun v => (0 <? length v)%nat) step2 in
  NoDup variations /\
  (List.length variations <= 5)%nat /\
  (normalized <> "" -> hd_error variations = Some normalized).
Proof.
  intros Hnd Hhd Hlen.
  destruct (variations_size normalized withoutCommon withNumbers c1 c2 translated Hnd Hhd)
    as (H1 & H2 & H3).
  cbv zeta. split; [exact H1|]. split; [lia | exact H3].
Qed.

Lemma fold_add_length (items s : list jstring) :
  (List.length (fold_left add items s) <= List.length s + List.length items)%nat.
Proof.
  revert s. induction items as [|x items IH]; intros s; simpl; [lia|].
  specialize (IH (add s x)). pose proof (add_length s x). lia.
Qed.

Lemma fold_add_length_member (x : jstring) (items s : list jstring) :
  In x s ->
  (List.length (fold_left add (x :: items) s) <= List.length s + List.length items)%nat.
Proof.
  intros H. cbn [fold_left]. rewrite (add_member s x H). apply fold_add_length.
Qed.

Lemma getTitleVariations_size_cases (title : jstring) :
  toLowerCase (normalizeTitle title) = normalizeTitle title ->
  match getTitleVariations title with
  | inr variations =>
      NoDup variations /\
      (List.length variations <= 5)%nat /\
      (normalizeTitle title <> "" ->
       hd_error variations = Some (normalizeTitle title))
  | inl _ => True
  end.
Proof.
  unfold Translation.getTitleVariations.
  generalize (normalizeTitle title). intros normalized Hstable.
  rewrite Hstable.
  destruct (new_Set_pair normalized title) as (Hnd & Hlen & Hhd & Hin).
  revert Hnd Hlen Hhd Hin. generalize (new_Set [normalized; title]).
  intros base Hnd Hlen Hhd Hin. cbv zeta.
  unfold get_translations. cbn [own_property COMMON_TRANSLATIONS].
  destruct (eqb normalized "harry potter") eqn:E1;
    [apply eqb_eq in E1; subst normalized
    |destruct (eqb normalized "lord of the rings") eqn:E2;
     [apply eqb_eq in E2; subst normalized|]].
  - lazy beta iota.
    apply variations_bounded;
      [now apply fold_add_NoDup | now apply fold_add_head |].
    match goal with
    | |- (_ + Nat.b2n ?c1 + Nat.b2n ?c2 <= 5)%nat =>
        replace c1 with false by (vm_compute; reflexivity);
        replace c2 with false by (vm_compute; reflexivity)
    end.
    match goal with
    | |- context [List.length (fold_left add (?x :: ?items) base)] =>
        pose proof (fold_add_length_member x items base Hin) as Hf;
        cbn [List.length] in Hf
    end.
    eapply Nat.le_trans;
      [apply Nat.add_le_mono_r; apply Nat.add_le_mono_r; exact Hf|].
    cbn [Nat.b2n]. lia.
  - lazy beta iota.
    apply variations_bounded;
      [now apply fold_add_NoDup | now apply fold_add_head |].
    match goal with
    | |- (_ + Nat.b2n ?c1 + Nat.b2n ?c2 <= 5)%nat =>
        replace c1 with true by (vm_compute; reflexivity);
        replace c2 with false by (vm_compute; reflexivity)
    end.
    match goal with
    | |- context [List.length (fold_left add (?x :: ?items) base)] =>
        pose proof (fold_add_length_member x items base Hin) as Hf;
        cbn [List.length] in Hf
    end.
    eapply Nat.le_trans;
      [apply Nat.add_le_mono_r; apply Nat.add_le_mono_r; exact Hf|].
    cbn [Nat.b2n]. lia.
  - destruct (existsb (eqb normalized) Object_prototype_keys); [exact I|].
    lazy beta iota.
    apply variations_bounded; [exact Hnd | exact Hhd |].
    match goal with
    | |- (_ + Nat.b2n ?c1 + Nat.b2n ?c2 <= 5)%nat => destruct c1, c2
    end; simpl; lia.
Qed.

(** X15: the array returned by [getTitleVariations] for a title whose
    normalized form is in lower case (it is its own lower-case form) has no
    duplicate, has at most five members, and begins with the normalized
    title when that is not empty. *)
Theorem getTitleVariations_size (title : jstring) (variations : list jstring) :
  toLowerCase (normalizeTitle title) = normalizeTitle title ->
  getTitleVariations title = inr variations ->
  NoDup variations /\
  (List.length variations <= 5)%nat /\
  (normalizeTitle title <> "" ->
   hd_error variations = Some (normalizeTitle title)).
Proof.
  intros Hstable H. pose proof (getTitleVariations_size_cases title Hstable) as Hc.
  now rewrite H in Hc.
Qed.

End Engine.

(** X13: the title extracted from a file name has no [_] and no [-], no
    white space at either end and only single spaces inside. *)
Theorem extractBookTitle_tidy (filename : jstring) :
  tidy (extractBookTitle filename).
Proof.
  unfold extractBookTitle. apply squeeze_trim_tidy, forallb_Forall.
  apply replaceAll_Forall; [constructor|].
  apply forallb_Forall, replace_separator_clean.
Qed.

End TextFacts.


(* ===================================================================== *)
(** ** What the services do to the world *)
(* ===================================================================== *)

Module FrameFacts.

Import Async AsyncFacts Isbndb Notions WorldNotions.
Local Open Scope jstring_scope.
Local Open Scope list_scope.

Section Monad.

Variable World : Type.
Variable P : World -> Prop.

Lemma preserves_ret {A} (a : A) : preserves P (@ret World A a).
Proof. intros w r w' Hw H. inversion H; subst. exact Hw. Qed.

Lemma preserves_throw {A} (e : Exn) : preserves P (@throw World A e).
Proof. intros w r w' Hw H. inversion H; subst. exact Hw. Qed.

Lemma preserves_lift {A} (r : Exn + A) : preserves P (@lift World A r).
Proof. intros w r' w' Hw H. inversion H; subst. exact Hw. Qed.

Lemma preserves_await {A} (p : World -> (jstring + A) * World) :
  preserves P p -> preserves P (await p).
Proof.
  intros Hp w r w' Hw H. unfold await in H.
  destruct (p w) as [[reason|a] w1] eqn:E; inversion H; subst; exact (Hp _ _ _ Hw E).
Qed.

Lemma preserves_bind {A B} (c : M World A) (f : A -> M World B) :
  preserves P c -> (forall a, preserves P (f a)) -> preserves P (bind c f).
Proof.
  intros Hc Hf w r w' Hw H. unfold bind in H.
  destruct (c w) as [[e|a] w1] eqn:E.
  - inversion H; subst. exact (Hc _ _ _ Hw E).
  - exact (Hf a _ _ _ (Hc _ _ _ Hw E) H).
Qed.

Lemma preserves_try_catch {A} (c : M World A) (handler : Exn -> M World A) :
  preserves P c -> (forall e, preserves P (handler e)) -> preserves P (try_catch c handler).
Proof.
  intros Hc Hh w r w' Hw H. unfold try_catch in H.
  destruct (c w) as [[e|a] w1] eqn:E.
  - exact (Hh e _ _ _ (Hc _ _ _ Hw E) H).
  - inversion H; subst. exact (Hc _ _ _ Hw E).
Qed.

End Monad.

Section Platform.

Variable World : Type.
Variable toLowerCase : jstring -> jstring.
Variable ImageHash : Type.
Variable Bytes : Type.
Variable new_ImageHash : Bytes -> jstring + ImageHash.
Variable toHex : ImageHash -> jstring.
Variable hash_hammingDistance : ImageHash -> ImageHash -> Z.
Variable ISBNDB_API_KEY : jstring.
Variable import_wasm : World -> (jstring + unit) * World.
Variable fetch_image : JsVal -> World -> (jstring + Response Bytes) * World.
Variable fetch_books :
  jstring -> Z -> Z -> World -> (jstring + Response Document) * World.

Variable P : World -> Prop.
Hypothesis import_wasm_preserves : preserves P import_wasm.
Hypothesis fetch_image_preserves : forall url, preserves P (fetch_image url).
Hypothesis fetch_books_preserves :
  forall q page pageSize, preserves P (fetch_books q page pageSize).

Lemma preserves_pure {A} (r : jstring + A) : preserves P (fun w : World => (r, w)).
Proof. intros w a w' Hw H. inversion H; subst. exact Hw. Qed.

Lemma fetchImageBytes_preserves url :
  preserves P (fetchImageBytes fetch_image url).
Proof.
  unfold fetchImageBytes.
  apply preserves_bind; [apply preserves_await, fetch_image_preserves | intros response].
  destruct (negb (ok response)); [apply preserves_throw|].
  apply preserves_await, preserves_pure.
Qed.

Lemma calculateHash_preserves url :
  preserves P (calculateHash new_ImageHash import_wasm fetch_image url).
Proof.
  unfold calculateHash, initPhash.
  apply preserves_bind; [|intros _].
  - apply preserves_try_catch; [|intros e; apply preserves_throw].
    apply preserves_await, import_wasm_preserves.
  - apply preserves_bind; [apply fetchImageBytes_preserves | intros bytes].
    apply preserves_await, preserves_pure.
Qed.

Lemma searchBooks_preserves q page pageSize :
  preserves P (searchBooks ISBNDB_API_KEY fetch_books q page pageSize).
Proof.
  unfold searchBooks.
  destruct (negb (JsString.truthy ISBNDB_API_KEY)); [apply preserves_throw|].
  apply preserves_try_catch; [|intros e; apply preserves_throw].
  apply preserves_bind; [apply preserves_await, fetch_books_preserves | intros response].
  destruct (negb (ok response)); [apply preserves_throw|].
  apply preserves_bind; [apply preserves_await, preserves_pure | intros data].
  destruct data; [apply preserves_throw | apply preserves_ret].
Qed.

Lemma searchVariations_preserves variations maxResultsPerQuery :
  forall st,
    preserves P (searchVariations ISBNDB_API_KEY fetch_books variations
                                  maxResultsPerQuery st).
Proof.
  induction variations as [|v rest IH]; intros st; cbn [searchVariations].
  - apply preserves_ret.
  - intros w a w' Hw H. unfold searchVariation in H.
    destruct (searchBooks ISBNDB_API_KEY fetch_books v 1 maxResultsPerQuery w)
      as [[e|[items|]] w1] eqn:E;
      pose proof (searchBooks_preserves _ _ _ _ _ _ Hw E) as Hw1;
      exact (IH _ _ _ _ Hw1 H).
Qed.

Lemma titleSearch_preserves name :
  preserves P (titleSearch toLowerCase ISBNDB_API_KEY fetch_books name).
Proof.
  unfold titleSearch.
  destruct (JsString.truthy name); [|apply preserves_ret].
  destruct (_ && _)%bool; [|apply preserves_ret].
  apply preserves_try_catch; [|intros e; apply preserves_ret].
  apply preserves_bind; [|intros bs; apply preserves_ret].
  unfold searchBooksByTitle.
  apply preserves_bind; [apply preserves_lift | intros variations].
  apply preserves_bind; [apply searchVariations_preserves | intros st].
  apply preserves_ret.
Qed.

Lemma genericSearch_preserves q maxResults found :
  preserves P (genericSearch ISBNDB_API_KEY fetch_books q maxResults found).
Proof.
  unfold genericSearch, getBooksWithCovers. destruct found as [books method].
  destruct (List.length books =? 0)%nat; [|apply preserves_ret].
  apply preserves_bind; [|intros bs; apply preserves_ret].
  apply preserves_bind; [apply searchBooks_preserves | intros bs].
  destruct bs; [apply preserves_lift | apply preserves_throw].
Qed.

Lemma compareBooks_preserves targetHash threshold method onProgress total books :
  (forall callback, onProgress = Some callback ->
                    forall i t b, preserves P (callback i t b)) ->
  forall i comparisons,
    preserves P (compareBooks new_ImageHash toHex hash_hammingDistance import_wasm
                              fetch_image targetHash threshold method onProgress
                              i total books comparisons).
Proof.
  intros Hcb. induction books as [|b rest IH]; intros i comparisons;
    cbn [compareBooks].
  - apply preserves_ret.
  - apply preserves_bind; [|intros _].
    + destruct onProgress as [callback|]; [|apply preserves_ret].
      now apply (Hcb callback).
    + apply preserves_bind; [|intros cs; apply IH].
      apply preserves_try_catch; [|intros e; apply preserves_ret].
      unfold compareBook.
      apply preserves_bind; [apply calculateHash_preserves|intros h].
      destruct (JsNumber.ge _ _); apply preserves_ret.
Qed.

(** [findSimilarCovers] acts on the world through the platform operations
    and the progress callback only. *)
Lemma findSimilarCovers_frame url options :
  (forall callback, onProgress options = Some callback ->
                    forall i t b, preserves P (callback i t b)) ->
  preserves P (findSimilarCovers toLowerCase new_ImageHash toHex hash_hammingDistance
                                 ISBNDB_API_KEY import_wasm fetch_image fetch_books
                                 url options).
Proof.
  intros Hcb. unfold findSimilarCovers.
  apply preserves_bind; [apply calculateHash_preserves | intros targetHash].
  apply preserves_bind; [apply titleSearch_preserves | intros found1].
  apply preserves_bind; [apply genericSearch_preserves | intros [books method]].
  destruct (List.length books =? 0)%nat; [apply preserves_ret|].
  apply preserves_bind; [|intros cs; apply preserves_ret].
  now apply compareBooks_preserves.
Qed.

End Platform.

End FrameFacts.

(* ===================================================================== *)
(** ** The scan of the dialog *)
(* ===================================================================== *)

Module ModalFacts.

Import Async AsyncFacts Isbndb Notions WorldNotions ScoreFacts PipelineFacts FrameFacts.
Import Modal.
Local Open Scope jstring_scope.

Section Scan.

Variable W : Type.
Variable toLowerCase : jstring -> jstring.
Variable ImageHash : Type.
Variable Bytes : Type.
Variable new_ImageHash : Bytes -> jstring + ImageHash.
Variable toHex : ImageHash -> jstring.
Variable hash_hammingDistance : ImageHash -> ImageHash -> Z.
Variable ISBNDB_API_KEY : jstring.
Variable import_wasm : W -> (jstring + unit) * W.
Variable fetch_image : JsVal -> W -> (jstring + Response Bytes) * W.
Variable fetch_books :
  jstring -> Z -> Z -> W -> (jstring + Response Document) * W.

Local Notation scan :=
  (Modal.scan toLowerCase new_ImageHash toHex hash_hammingDistance ISBNDB_API_KEY
              import_wasm fetch_image fetch_books).
Local Notation handleScan :=
  (Modal.handleScan toLowerCase new_ImageHash toHex hash_hammingDistance ISBNDB_API_KEY
                    import_wasm fetch_image fetch_books).

Lemma outside_preserves {A} (P : State -> Prop) (f : W -> A * W) :
  preserves (fun ws : W * State => P (snd ws)) (outside f).
Proof.
  intros ws a ws' Hw H. unfold outside in H.
  destruct (f (fst ws)) as [a' w']. inversion H; subst. exact Hw.
Qed.

(** While the scan runs the dialog shows neither results nor an error. *)
Lemma scan_keeps_busy (image : Image) (ws : W * State) r ws' :
  isScanning (snd ws) = true /\ scanResults (snd ws) = None /\ scanError (snd ws) = None ->
  scan image ws = (r, ws') ->
  isScanning (snd ws') = true /\ scanResults (snd ws') = None /\ scanError (snd ws') = None.
Proof.
  intros Hbusy H.
  refine (findSimilarCovers_frame (W * State) toLowerCase ImageHash Bytes new_ImageHash toHex
            hash_hammingDistance ISBNDB_API_KEY _ _ _
            (fun ws => isScanning (snd ws) = true /\ scanResults (snd ws) = None /\
                       scanError (snd ws) = None)
            _ _ _ (src image) (scanOptions W image) _ ws r ws' Hbusy H).
  - apply (outside_preserves (fun ui => isScanning ui = true /\ scanResults ui = None /\
                                        scanError ui = None)).
  - intros url. apply (outside_preserves
                         (fun ui => isScanning ui = true /\ scanResults ui = None /\
                                    scanError ui = None)).
  - intros q page pageSize.
    apply (outside_preserves (fun ui => isScanning ui = true /\ scanResults ui = None /\
                                        scanError ui = None)).
  - intros callback Hcb i t b w0 a w0' Hw0 Hrun. simpl in Hcb. inversion Hcb; subst.
    inversion Hrun; subst. exact Hw0.
Qed.

(** X17: a scan started from the dialog always ends, with the scanning
    flag off.  Either the dialog then holds the returned results, at most
    10, each with a stored similarity of at least 60, and an error text
    exactly when there is no result; or it holds no results and an error
    text that is not empty. *)
Theorem handleScan_outcome (image : Image) (w : W) (ui : State) :
  exists w' ui',
    handleScan (Some image) (w, ui) = (inr tt, (w', ui')) /\
    isScanning ui' = false /\
    match scanResults ui' with
    | Some data =>
        (List.length (results data) <= 10)%nat /\
        Forall (fun c => 60 <= similarity c)%Q (results data) /\
        (scanError ui' = None <-> results data <> nil)
    | None => exists text, scanError ui' = Some text /\ text <> ""
    end.
Proof.
  unfold Modal.handleScan.
  set (ui0 := setScanProgress {| current := 0; total := 0; progressBook := JString "" |}
                (setScanResults None (setScanError None (setIsScanning true ui)))).
  assert (Hstart : forall k : unit -> M (W * State) unit,
             bind (set (setIsScanning true))
                  (fun _ => bind (set (setScanError None))
                    (fun _ => bind (set (setScanResults None))
                      (fun _ => bind (set (setScanProgress
                                             {| current := 0; total := 0;
                                                progressBook := JString "" |})) k)))
                  (w, ui)
             = k tt (w, ui0)) by reflexivity.
  rewrite Hstart. clear Hstart.
  assert (Hbusy : isScanning (snd (w, ui0)) = true /\ scanResults (snd (w, ui0)) = None /\
                  scanError (snd (w, ui0)) = None) by (repeat split).
  unfold bind at 1, try_catch, bind at 1.
  destruct (scan image (w, ui0)) as [[e|data] [w1 ui1]] eqn:E;
    destruct (scan_keeps_busy image _ _ _ Hbusy E) as (_ & Hres & Herr); simpl in Hres, Herr.
  - eexists. eexists. split; [reflexivity|]. split; [reflexivity|].
    cbn. rewrite Hres. eexists. split; [reflexivity|].
    destruct (JsString.truthy (message e)) eqn:Et; [|discriminate].
    intros Hm. rewrite Hm in Et. discriminate.
  - destruct (findSimilarCovers_results _ _ _ _ _ _ _ _ _ _ _ _ _ _ _ _ E)
      as (_ & Hall & Hlen).
    assert (Hfacts : (List.length (results data) <= 10)%nat /\
                     Forall (fun c => 60 <= similarity c)%Q (results data)).
    { split.
      - specialize (Hlen ltac:(cbn; lia)). cbn in Hlen. lia.
      - eapply Forall_impl; [|exact Hall]. intros c (Hs & Ht & _). rewrite Hs.
        apply (rounded_ge_hundredths 6000); [reflexivity | exact Ht]. }
    unfold bind, set. cbn [fst snd].
    destruct (results data) as [|c cs] eqn:Er; cbn [List.length Nat.eqb].
    + eexists. eexists. split; [reflexivity|]. split; [reflexivity|].
      cbn. rewrite Er. split; [cbn; lia|]. split; [constructor|].
      split; [discriminate | congruence].
    + eexists. eexists. split; [reflexivity|]. split; [reflexivity|].
      cbn. rewrite Er, Herr. destruct Hfacts as [H1 H2].
      split; [exact H1|]. split; [exact H2|]. split; [discriminate | reflexivity].
Qed.

End Scan.

End ModalFacts.

(* ===================================================================== *)
(** ** The translation request *)
(* ===================================================================== *)

Module MultilingualFacts.

Import Async AsyncFacts.
Local Open Scope jstring_scope.
Local Open Scope list_scope.

Section Service.

Variable World : Type.
Variable fetch_translation :
  jstring -> jstring -> World -> (jstring + Response JsVal) * World.

Local Notation translateText := (Multilingual.translateText fetch_translation).

Lemma translateText_total (text targetLang : jstring) (w : World) :
  exists result w',
    translateText text targetLang w = (inr result, w') /\
    (result <> null ->
     exists response,
       fetch_translation text targetLang w = (inr response, w') /\
       ok response = true /\ body response = inr result).
Proof.
  unfold Multilingual.translateText, try_catch, bind, await, throw, ret.
  destruct (fetch_translation text targetLang w) as [[reason|response] w1] eqn:E.
  - exists null, w1. split; [reflexivity | congruence].
  - destruct (ok response) eqn:Eo; simpl.
    + destruct (body response) as [reason|v] eqn:Eb.
      * exists null, w1. split; [reflexivity | congruence].
      * exists v, w1. split; [reflexivity|]. intros _. now exists response.
    + exists null, w1. split; [reflexivity | congruence].
Qed.

(** X18: [translateText] never throws: a rejected request, an answer that
    is not ok and an unreadable body all give [null]; otherwise it returns
    the translated text of the answer. *)
Theorem translateText_never_throws (text targetLang : jstring) (w : World) :
  exists result w',
    translateText text targetLang w = (inr result, w') /\
    (result <> null ->
     exists response,
       fetch_translation text targetLang w = (inr response, w') /\
       ok response = true /\ body response = inr result).
Proof. apply translateText_total. Qed.

End Service.

End MultilingualFacts.

(* ===================================================================== *)
(** ** The number of results *)
(* ===================================================================== *)

Module CountFacts.

Import Async AsyncFacts JsArray JsNumber Isbndb Notions LoopNotions.
Import ArrayFacts ScoreFacts PipelineFacts RankingFacts PipelineExtras.
Local Open Scope jstring_scope.
Local Open Scope list_scope.

Section Platform.

Variable World : Type.
Variable toLowerCase : jstring -> jstring.
Variable ImageHash : Type.
Variable Bytes : Type.
Variable new_ImageHash : Bytes -> jstring + ImageHash.
Variable toHex : ImageHash -> jstring.
Variable hash_hammingDistance : ImageHash -> ImageHash -> Z.
Variable ISBNDB_API_KEY : jstring.
Variable import_wasm : World -> (jstring + unit) * World.
Variable fetch_image : JsVal -> World -> (jstring + Response Bytes) * World.
Variable fetch_books :
  jstring -> Z -> Z -> World -> (jstring + Response Document) * World.

Local Notation calculateHash :=
  (Isbndb.calculateHash new_ImageHash import_wasm fetch_image).
Local Notation titleSearch := (Isbndb.titleSearch toLowerCase ISBNDB_API_KEY fetch_books).
Local Notation genericSearch := (Isbndb.genericSearch ISBNDB_API_KEY fetch_books).
Local Notation compareBooks :=
  (Isbndb.compareBooks new_ImageHash toHex hash_hammingDistance import_wasm fetch_image).
Local Notation findSimilarCovers :=
  (Isbndb.findSimilarCovers toLowerCase new_ImageHash toHex hash_hammingDistance
                            ISBNDB_API_KEY import_wasm fetch_image fetch_books).
Local Notation comparedCount :=
  (Notions.comparedCount new_ImageHash import_wasm fetch_image).
Local Notation qualifiedCount :=
  (LoopNotions.qualifiedCount new_ImageHash hash_hammingDistance import_wasm fetch_image).

(** The loop pushes exactly the qualified candidates. *)
Lemma compareBooks_count targetHash threshold method onProgress total books :
  forall i comparisons w comparisons' w',
    compareBooks targetHash threshold method onProgress i total books comparisons w
    = (inr comparisons', w') ->
    (Z.of_nat (List.length comparisons')
     = Z.of_nat (List.length comparisons)
       + qualifiedCount targetHash threshold onProgress i total books w)%Z /\
    (0 <= qualifiedCount targetHash threshold onProgress i total books w
     <= comparedCount onProgress i total books w)%Z.
Proof.
  induction books as [|b rest IH]; intros i comparisons w comparisons' w' H.
  - inversion H; subst. cbn. lia.
  - rewrite compareBooks_cons in H.
    cbn [LoopNotions.qualifiedCount Notions.comparedCount].
    destruct (notify onProgress i total b w) as [[e|u] w0]; [discriminate|].
    unfold Isbndb.compareBook in H. unfold bind at 1 in H.
    destruct (calculateHash (image b) w0) as [[err|bookHash] w1].
    + now apply IH in H.
    + destruct (ge (similarityOf (hash_hammingDistance targetHash bookHash)) threshold);
        cbn [ret] in H; apply IH in H; rewrite ?length_app in H; cbn [List.length] in H; lia.
Qed.

Lemma slice0_exact_length {A} (l : list A) (e : Z) :
  (0 <= e)%Z -> Z.of_nat (List.length (slice0 l e)) = Z.min e (Z.of_nat (List.length l)).
Proof.
  intros He. unfold slice0. destruct (Z.ltb_spec e 0); [lia|].
  rewrite length_firstn. lia.
Qed.

(** X20: for a topN that is not negative the number of results is the
    smaller of topN and the number of candidates whose cover was hashed and
    scored at least the threshold; that number is at most the number of
    candidates whose cover was hashed, which is at most [totalCompared]. *)
Theorem results_count url options w r w' targetHash w1 found w2 books method w3 :
  findSimilarCovers url options w = (inr r, w') ->
  calculateHash (JString url) w = (inr targetHash, w1) ->
  titleSearch (imageName_of options) w1 = (inr found, w2) ->
  genericSearch (query_of options) (maxResults_of options) found w2
  = (inr (books, method), w3) ->
  (0 <= topN_of options)%Z ->
  let total := Z.of_nat (List.length books) in
  let qualified :=
    qualifiedCount targetHash (threshold_of options) (onProgress options) 0 total books w3 in
  let compared := comparedCount (onProgress options) 0 total books w3 in
  (Z.of_nat (List.length (results r)) = Z.min (topN_of options) qualified /\
   0 <= qualified <= compared /\ compared <= totalCompared r)%Z.
Proof.
  intros H Hhash Htitle Hgeneric Hn.
  apply findSimilarCovers_returns in H.
  destruct H as (targetHash' & w1' & books1 & method1 & w2' & books' & method' & w3'
                 & Hhash' & Htitle' & Hgeneric' & Hcases).
  rewrite Hhash in Hhash'. inversion Hhash'; subst targetHash' w1'.
  rewrite Htitle in Htitle'. inversion Htitle'; subst found w2'.
  rewrite Hgeneric in Hgeneric'. inversion Hgeneric'; subst books' method' w3'.
  cbv zeta.
  pose proof (comparedCount_bound World ImageHash Bytes new_ImageHash import_wasm
                fetch_image (onProgress options) (Z.of_nat (List.length books))
                books 0%Z w3) as Hb.
  destruct Hcases as [(-> & Hres & Htot & _) | (Hne & cs & Hloop & Hres & Htot & _)].
  - rewrite Hres, Htot. cbn. lia.
  - apply compareBooks_count in Hloop. destruct Hloop as (Hlen & Hq).
    rewrite Hres, Htot, (slice0_exact_length _ _ Hn).
    rewrite (Permutation_length (sort_Permutation cs)). cbn [List.length] in Hlen. lia.
Qed.

End Platform.

End CountFacts.

(* ===================================================================== *)
(** ** The extension of a file name *)
(* ===================================================================== *)

Module ExtensionFacts.

Import JsString Regex Translation Notions TextNotions RegexFacts TranslationFacts.
Local Open Scope jstring_scope.
Local Open Scope list_scope.

Lemma chr_eq_lower (c x : unit16) : chr_eq true c x = true -> lower x = lower c.
Proof. unfold chr_eq. intros H. apply N.eqb_eq in H. congruence. Qed.

(** What a dot-free pattern matches holds no dot. *)
Lemma dot_free_match (r : regex) :
  dot_free r = true ->
  forall prev s k e,
    rmatch true r prev s k = Some e ->
    exists used p' s',
      s = used ++ s' /\
      Forall (fun x => N.eqb (lower x) 46 = false) used /\
      k p' s' = Some e.
Proof.
  induction r as [|c|p|r1 IH1 r2 IH2|r1 IH1 r2 IH2|r IH| |];
    intros Hfree prev s k e H; cbn [rmatch dot_free] in H, Hfree.
  - exists [], prev, s. auto.
  - destruct s as [|x s]; [discriminate H|].
    destruct (chr_eq true c x) eqn:E; [|discriminate H].
    exists [x], (Some x), s. repeat split; [|exact H].
    constructor; [|constructor]. apply chr_eq_lower in E. rewrite E.
    now apply negb_true_iff in Hfree.
  - discriminate Hfree.
  - apply andb_true_iff in Hfree. destruct Hfree as [F1 F2].
    apply (IH1 F1) in H. destruct H as (u1 & p1 & s1 & -> & A1 & H).
    apply (IH2 F2) in H. destruct H as (u2 & p2 & s2 & -> & A2 & H).
    exists (u1 ++ u2), p2, s2. rewrite <- app_assoc.
    repeat split; [now apply Forall_app | exact H].
  - apply andb_true_iff in Hfree. destruct Hfree as [F1 F2].
    destruct (rmatch true r1 prev s k) as [e1|] eqn:E1.
    + inversion H; subst. now apply (IH1 F1) in E1.
    + now apply (IH2 F2) in H.
  - remember (List.length s) as n eqn:Hn. clear Hn.
    revert prev s H. induction n as [|n IHn]; intros prev s H.
    + exists [], prev, s. auto.
    + match type of H with
      | match ?m with _ => _ end = _ => destruct m as [e1|] eqn:E1
      end.
      * inversion H; subst. apply (IH Hfree) in E1.
        destruct E1 as (u1 & p1 & s1 & -> & A1 & E1).
        destruct (List.length s1 <? List.length (u1 ++ s1))%nat; [|discriminate].
        apply IHn in E1. destruct E1 as (u2 & p2 & s2 & -> & A2 & E1).
        exists (u1 ++ u2), p2, s2. rewrite <- app_assoc.
        repeat split; [now apply Forall_app | exact E1].
      * exists [], prev, s. auto.
  - destruct (xorb _ _); [|discriminate]. exists [], prev, s. auto.
  - destruct s; [|discriminate]. exists [], prev, []. auto.
Qed.

Lemma lower_dot (x : unit16) : lower x = 46%N -> x = 46%N.
Proof.
  unfold lower, is_upper.
  destruct (N.leb_spec 65 x), (N.leb_spec x 90); simpl; lia.
Qed.

Lemma rmatch_seq_chr (ci : bool) (c x : unit16) (r : regex) prev tl k :
  rmatch ci (Seq (Chr c) r) prev (x :: tl) k
  = if chr_eq ci c x then rmatch ci r (Some x) tl k else None.
Proof. reflexivity. Qed.

Lemma rmatch_seq (ci : bool) (r1 r2 : regex) prev s k :
  rmatch ci (Seq r1 r2) prev s k
  = rmatch ci r1 prev s (fun p' s' => rmatch ci r2 p' s' k).
Proof. reflexivity. Qed.

(** The extension pattern matches a dot followed, up to the end of the
    name, by characters that are not dots. *)
Lemma extension_match (prev : option unit16) (t : jstring) (p : option unit16)
      (rest : jstring) :
  match_here true re_extension prev t = Some (p, rest) ->
  rest = [] /\
  exists tl, t = 46%N :: tl /\
             Forall (fun x => N.eqb (lower x) 46 = false) tl.
Proof.
  unfold match_here, re_extension.
  destruct t as [|x tl]; [discriminate|].
  change (Lit ".") with (Chr 46%N).
  rewrite rmatch_seq_chr.
  destruct (chr_eq true 46%N x) eqn:Ex; [|discriminate].
  apply chr_eq_lower, lower_dot in Ex. subst x.
  rewrite rmatch_seq.
  intros H. apply dot_free_match in H; [|reflexivity].
  destruct H as (used & p' & s' & -> & Hused & H).
  destruct s'; [|discriminate H]. cbn in H. inversion H; subst.
  split; [reflexivity|]. exists (used ++ []). split; [reflexivity|].
  now rewrite app_nil_r.
Qed.

(** A letter in either case matches its lower-case form under the [i]
    flag. *)
Lemma chr_eq_lowered (c x : unit16) : c = lower x -> lower c = c -> chr_eq true c x = true.
Proof. intros Hx Hc. unfold chr_eq. rewrite Hc, <- Hx. apply N.eqb_refl. Qed.

Lemma extension_at_end (prev : option unit16) (e : jstring) :
  In (lowered e) extensions ->
  exists p, match_here true re_extension prev (46%N :: e) = Some (p, []).
Proof.
  unfold lowered, extensions. intros H.
  destruct e as [|c1 [|c2 [|c3 [|c4 [|c5 e']]]]]; cbn [map In] in H;
    repeat (destruct H as [H|H]; [try discriminate H|]); try contradiction;
    (injection H as H1 H2 H3 H4 || injection H as H1 H2 H3);
    unfold match_here, re_extension; cbn [rmatch Lit];
    unfold chr_eq; rewrite <- ?H1, <- ?H2, <- ?H3, <- ?H4;
    vm_compute; eexists; reflexivity.
Qed.

Lemma replace_extension_chars (pre : jstring) (e : jstring) :
  In (lowered e) extensions ->
  forall prev,
    replace_first_from true re_extension [] prev (pre ++ 46%N :: e) = pre.
Proof.
  intros He. induction pre as [|c pre IH]; intros prev.
  - destruct (extension_at_end prev e He) as (p & Hm).
    cbn [app]. destruct e; cbn [replace_first_from]; now rewrite Hm.
  - cbn [app replace_first_from].
    destruct (match_here true re_extension prev (c :: pre ++ 46%N :: e))
      as [[p rest]|] eqn:Hm.
    + exfalso. apply extension_match in Hm. destruct Hm as (_ & tl & Heq & Hall).
      inversion Heq; subst. apply Forall_app in Hall. destruct Hall as [_ Hall].
      inversion Hall; subst. discriminate.
    + apply f_equal. apply IH.
Qed.

Lemma replace_no_dot (l : jstring) :
  Forall (fun x => x <> 46%N) l ->
  forall prev, replace_first_from true re_extension [] prev l = l.
Proof.
  induction 1 as [|c l Hc Hl IH]; intros prev.
  - reflexivity.
  - cbn [replace_first_from].
    destruct (match_here true re_extension prev (c :: l)) as [[p rest]|] eqn:Hm.
    + apply extension_match in Hm. destruct Hm as (_ & tl & Heq & _).
      inversion Heq; subst. contradiction.
    + apply f_equal. apply IH.
Qed.

(** X21: the first step of [extractBookTitle] removes a final image
    extension (jpg, jpeg, png, svg, webp or gif, in any case) together with
    its dot and nothing else, and leaves a name without a dot as it is. *)
Theorem extension_removed (name e : jstring) :
  (In (lowered e) extensions ->
   replace re_extension true "" (name ++ "." ++ e) = name) /\
  (Forall (fun x => x <> 46%N) name ->
   replace re_extension true "" name = name).
Proof.
  unfold replace. split.
  - intros He. exact (replace_extension_chars name e He None).
  - intros Hd. exact (replace_no_dot name Hd None).
Qed.

End ExtensionFacts.

(* ===================================================================== *)
(** ** The further properties on concrete inputs *)
(* ===================================================================== *)

Module ScenarioExtras.

Import Async Isbndb Notions LoopNotions TextNotions Scenario.
Import PipelineFacts RankingFacts PipelineExtras CountFacts.
Import TranslationFacts TextFacts ExtensionFacts ScenarioFacts.
Local Open Scope jstring_scope.
Local Open Scope list_scope.

Lemma slice_keeps_the_best_witness :
  exists dropped,
    Permutation
      (JsArray.slice0
         (JsArray.sort bySimilarity [comparison_at 2; comparison_at 40; comparison_at 10]) 2
       ++ dropped)
      [comparison_at 2; comparison_at 40; comparison_at 10] /\
    (Z.of_nat (List.length dropped)
     = Z.max 0 (Z.of_nat (List.length [comparison_at 2; comparison_at 40; comparison_at 10])
                - 2))%Z /\
    forall kept_one dropped_one,
      In kept_one
         (JsArray.slice0
            (JsArray.sort bySimilarity [comparison_at 2; comparison_at 40; comparison_at 10])
            2) ->
      In dropped_one dropped ->
      (similarity dropped_one <= similarity kept_one)%Q.
Proof.
  apply (slice_keeps_the_best [comparison_at 2; comparison_at 40; comparison_at 10] 2).
  lia.
Defined.

Lemma stored_similarity_range_and_order_witness :
  (0 <= rounded (similarityOf 16) <= 100)%Q /\
  ((16 < 17)%Z -> (rounded (similarityOf 17) < rounded (similarityOf 16))%Q).
Proof. apply (stored_similarity_range_and_order 16 17). lia. Defined.

Lemma searchBooksByTitle_errors_witness :
  exists allBooks w',
    searchBooksByTitle toLowerCase "key" (fetch_books catalogue_hobbit) "The Hobbit" 20 0%nat
    = (inr allBooks, w').
Proof.
  apply (proj2 (searchBooksByTitle_errors World toLowerCase "key"
                  (fetch_books catalogue_hobbit) "The Hobbit" 20%Z 0%nat)
               ["the hobbit"; "The Hobbit"; "hobbit"]).
  vm_compute. reflexivity.
Defined.

Lemma searchBooksByTitle_candidates_witness :
  Forall (fun b => has_cover b = inr true) [hobbit1; hobbit2; hobbit4] /\
  NoDup (map identifier [hobbit1; hobbit2; hobbit4]) /\
  exists variations,
    Translation.getTitleVariations toLowerCase "The Hobbit" = inr variations /\
    Subseq [hobbit1; hobbit2; hobbit4]
           (discovered "key" (fetch_books catalogue_hobbit) variations 20 0%nat).
Proof.
  apply (searchBooksByTitle_candidates World toLowerCase "key" (fetch_books catalogue_hobbit)
           "The Hobbit" 20%Z 0%nat [hobbit1; hobbit2; hobbit4] 3%nat).
  vm_compute. reflexivity.
Defined.

Lemma findSimilarCovers_result_shape_witness :
  exists r w',
    run_findSimilarCovers images3 catalogue3 "key" "target.jpg" dune_options = (inr r, w') /\
    In (searchMethod r) ["title-based"; "generic"; "none"] /\
    (searchMethod r = "none" <-> totalCompared r = 0%Z) /\
    (0 <= Z.of_nat (List.length (results r)) <= totalCompared r)%Z.
Proof.
  eexists. eexists. split; [vm_compute; reflexivity|].
  apply (findSimilarCovers_result_shape _ toLowerCase _ _ new_ImageHash toHex
           hash_hammingDistance
           "key" import_wasm (fetch_image images3) (fetch_books catalogue3)
           "target.jpg" dune_options 0%nat _ 10%nat).
  vm_compute. reflexivity.
Defined.

Lemma results_have_covers_witness :
  exists r w',
    run_findSimilarCovers images3 catalogue3 "key" "target.jpg" dune_options = (inr r, w') /\
    Forall (fun c => exists s, mb_image (book c) = JString s /\ JsString.trim s <> "")
           (results r) /\
    (searchMethod r = "title-based" ->
     NoDup (map (fun c => mb_isbn (book c)) (results r))).
Proof.
  eexists. eexists. split; [vm_compute; reflexivity|].
  apply (results_have_covers _ toLowerCase _ _ new_ImageHash toHex hash_hammingDistance
           "key" import_wasm (fetch_image images3) (fetch_books catalogue3)
           "target.jpg" dune_options 0%nat _ 10%nat).
  vm_compute. reflexivity.
Defined.

Lemma no_key_no_request_witness :
  run_findSimilarCovers images3 catalogue3 "" "target.jpg" dune_options
  = (inl ConfigurationError, 2%nat).
Proof.
  apply (proj2 (proj2 (no_key_no_request World toLowerCase Z Z new_ImageHash toHex
                         hash_hammingDistance "" import_wasm (fetch_image images3)
                         (fetch_books catalogue3) eq_refl))
               "target.jpg" dune_options 0%nat 0%Z 2%nat).
  vm_compute. reflexivity.
Defined.

Lemma findSimilarCovers_returns_when_witness :
  exists r w',
    run_findSimilarCovers images3 catalogue3 "key" "target.jpg" dune_options = (inr r, w').
Proof.
  apply (findSimilarCovers_returns_when _ toLowerCase _ _ new_ImageHash toHex
           hash_hammingDistance
           "key" import_wasm (fetch_image images3) (fetch_books catalogue3)
           "target.jpg" dune_options 0%nat 0%Z 2%nat books3 "title-based" 4%nat).
  - intros callback H. discriminate H.
  - vm_compute. reflexivity.
  - vm_compute. reflexivity.
  - left. discriminate.
Defined.

Lemma title_based_iff_candidates_witness :
  exists r w',
    run_findSimilarCovers images3 catalogue3 "key" "target.jpg" dune_options = (inr r, w') /\
    (searchMethod r = "title-based" <-> books3 <> []) /\
    (books3 <> [] -> totalCompared r = Z.of_nat (List.length books3)).
Proof.
  eexists. eexists. split; [vm_compute; reflexivity|].
  apply (title_based_iff_candidates _ toLowerCase _ _ new_ImageHash toHex
           hash_hammingDistance
           "key" import_wasm (fetch_image images3) (fetch_books catalogue3)
           "target.jpg" dune_options 0%nat _ 10%nat 0%Z 2%nat books3 "title-based" 4%nat).
  - vm_compute. reflexivity.
  - vm_compute. reflexivity.
  - vm_compute. reflexivity.
Defined.

Lemma results_sorted_by_distance_witness :
  exists r w',
    run_findSimilarCovers images3 catalogue3 "key" "target.jpg" dune_options = (inr r, w') /\
    StronglySorted (fun a b => hammingDistance a <= hammingDistance b)%Z (results r).
Proof.
  eexists. eexists. split; [vm_compute; reflexivity|].
  apply (results_sorted_by_distance _ toLowerCase _ _ new_ImageHash toHex
           hash_hammingDistance
           "key" import_wasm (fetch_image images3) (fetch_books catalogue3)
           "target.jpg" dune_options 0%nat _ 10%nat).
  vm_compute. reflexivity.
Defined.

Lemma normalizeTitle_normal_form_witness :
  Forall (fun c => JsString.is_upper c = false)
         (Translation.normalizeTitle toLowerCase "My_Book - COPY").
Proof.
  apply (proj1 (proj2 (normalizeTitle_normal_form toLowerCase "My_Book - COPY"))).
  exact toLowerCase_lowers.
Defined.

Lemma getTitleVariations_throws_iff_witness :
  Translation.getTitleVariations toLowerCase "Constructor"
  = inl (TypeError "COMMON_TRANSLATIONS[lowerTitle].forEach is not a function") <->
  toLowerCase (Translation.normalizeTitle toLowerCase "Constructor") = "constructor" /\
  TypeError "COMMON_TRANSLATIONS[lowerTitle].forEach is not a function"
  = TypeError "COMMON_TRANSLATIONS[lowerTitle].forEach is not a function".
Proof.
  apply (getTitleVariations_throws_iff toLowerCase "Constructor"
           (TypeError "COMMON_TRANSLATIONS[lowerTitle].forEach is not a function")).
  exact toLowerCase_lowers.
Defined.

Lemma getTitleVariations_size_witness :
  NoDup ["the hobbit"; "The Hobbit"; "hobbit"] /\
  (List.length ["the hobbit"; "The Hobbit"; "hobbit"] <= 5)%nat /\
  (Translation.normalizeTitle toLowerCase "The Hobbit" <> "" ->
   hd_error ["the hobbit"; "The Hobbit"; "hobbit"]
   = Some (Translation.normalizeTitle toLowerCase "The Hobbit")).
Proof.
  apply (getTitleVariations_size toLowerCase "The Hobbit").
  - vm_compute. reflexivity.
  - vm_compute. reflexivity.
Defined.

Lemma results_count_witness :
  exists r w',
    run_findSimilarCovers images_missing catalogue3 "key" "target.jpg" dune_options
    = (inr r, w') /\
    (Z.of_nat (List.length (results r))
     = Z.min (topN_of dune_options)
             (qualifiedCount new_ImageHash hash_hammingDistance import_wasm
                             (fetch_image images_missing) 0 (threshold_of dune_options)
                             (onProgress dune_options) 0
                             (Z.of_nat (List.length books3)) books3 4%nat) /\
     0 <= qualifiedCount new_ImageHash hash_hammingDistance import_wasm
                         (fetch_image images_missing) 0 (threshold_of dune_options)
                         (onProgress dune_options) 0
                         (Z.of_nat (List.length books3)) books3 4%nat
       <= comparedCount new_ImageHash import_wasm (fetch_image images_missing)
                        (onProgress dune_options) 0
                        (Z.of_nat (List.length books3)) books3 4%nat /\
     comparedCount new_ImageHash import_wasm (fetch_image images_missing)
                   (onProgress dune_options) 0
                   (Z.of_nat (List.length books3)) books3 4%nat
     <= totalCompared r)%Z.
Proof.
  eexists. eexists. split; [vm_compute; reflexivity|].
  apply (results_count _ toLowerCase _ _ new_ImageHash toHex hash_hammingDistance
           "key" import_wasm (fetch_image images_missing) (fetch_books catalogue3)
           "target.jpg" dune_options 0%nat _ 10%nat 0%Z 2%nat
           (books3, "title-based") 4%nat books3 "title-based" 4%nat).
  - vm_compute. reflexivity.
  - vm_compute. reflexivity.
  - vm_compute. reflexivity.
  - vm_compute. reflexivity.
  - vm_compute. discriminate.
Defined.

Lemma extension_removed_witness :
  Regex.replace Translation.re_extension true "" ("My_Book" ++ "." ++ "JPG") = "My_Book".
Proof.
  apply (proj1 (extension_removed "My_Book" "JPG")). vm_compute. left. reflexivity.
Defined.

End ScenarioExtras.
